(** * Style extraction and landing-page generation: a shallow embedding

    The development follows the TypeScript sources of the repository:
    - [lib/scraper.ts]  (rendering proxy client, stylesheet resolver, asset
      extractor, scrape orchestrator),
    - [lib/storage.ts]  (asset persistence adapter),
    - [lib/ai.ts]       (generation client; the repository holds two variants
      of this file, embedded below as [AI] and [AICss]).

    JavaScript strings are sequences of UTF-16 code units and are embedded as
    lists of code units.  Platform services (the URL constructor, the DOM,
    the network, the data base) are not code of the repository: they are
    gathered in the record [Platform] and every result below holds for every
    platform. *)

From Stdlib Require Import String Ascii List NArith ZArith Lia Bool Permutation.
Import ListNotations.

Set Implicit Arguments.

(* ================================================================== *)
(** ** JavaScript strings *)
(* ================================================================== *)

Module JS.

Definition cu := N.
Definition jsstring := list cu.

(** [js "abc"] is the JavaScript literal ['abc']. *)
Definition js (s : string) : jsstring :=
  map N_of_ascii (list_ascii_of_string s).

Definition nl : jsstring := [10%N].
Definition dq : jsstring := [34%N].
Definition backtick : cu := 96%N.

Fixpoint str_eqb (a b : jsstring) : bool :=
  match a, b with
  | [], [] => true
  | x :: a', y :: b' => N.eqb x y && str_eqb a' b'
  | _, _ => false
  end.

(** [s.startsWith(p)] *)
Fixpoint startsWith (s p : jsstring) {struct p} : bool :=
  match p with
  | [] => true
  | x :: p' =>
      match s with
      | y :: s' => N.eqb x y && startsWith s' p'
      | [] => false
      end
  end.

(** [s.includes(sub)] *)
Fixpoint includes (s sub : jsstring) : bool :=
  startsWith s sub ||
  match s with
  | [] => false
  | _ :: s' => includes s' sub
  end.

(** [s.endsWith(p)] *)
Definition endsWith (s p : jsstring) : bool :=
  startsWith (rev s) (rev p).

(** Truthiness of a string: the empty string is falsy. *)
Definition truthy (s : jsstring) : bool :=
  match s with [] => false | _ => true end.

(** Truthiness of [string | undefined | null]. *)
Definition otruthy (o : option jsstring) : bool :=
  match o with Some s => truthy s | None => false end.

(** [a || b] on [string | undefined] with a string default. *)
Definition or_else (o : option jsstring) (d : jsstring) : jsstring :=
  match o with
  | Some (c :: s) => c :: s
  | _ => d
  end.

(** [parts.join(sep)] *)
Fixpoint join (sep : jsstring) (l : list jsstring) : jsstring :=
  match l with
  | [] => []
  | [x] => x
  | x :: l' => x ++ sep ++ join sep l'
  end.

(** [s.split(c)] for a one-unit separator. *)
Fixpoint split (c : cu) (s : jsstring) : list jsstring :=
  match s with
  | [] => [[]]
  | x :: s' =>
      if N.eqb x c then [] :: split c s'
      else match split c s' with
           | [] => [[x]]
           | w :: ws => (x :: w) :: ws
           end
  end.

(** [arr.indexOf(x)], [-1] when absent. *)
Fixpoint indexOf (l : list jsstring) (x : jsstring) : Z :=
  match l with
  | [] => (-1)%Z
  | y :: l' =>
      if str_eqb y x then 0%Z
      else let i := indexOf l' x in
           if (i <? 0)%Z then (-1)%Z else (i + 1)%Z
  end.

(** [arr.slice(start)]: a negative start counts from the end. *)
Definition slice_from {A} (start : Z) (l : list A) : list A :=
  let len := Z.of_nat (length l) in
  let k := if (start <? 0)%Z then Z.max (len + start) 0 else Z.min start len in
  skipn (Z.to_nat k) l.

(** [arr.slice(0, n)] *)
Definition slice0 {A} (n : nat) (l : list A) : list A := firstn n l.

(** White space and line terminators of ECMAScript ([\s], [trim]). *)
Definition isLineTerminator (c : cu) : bool :=
  (N.eqb c 10 || N.eqb c 13 || N.eqb c 8232 || N.eqb c 8233)%N.

Definition isWhiteSpace (c : cu) : bool :=
  ((N.leb 9 c && N.leb c 13) || N.eqb c 32 || N.eqb c 160 || N.eqb c 5760
   || (N.leb 8192 c && N.leb c 8202) || N.eqb c 8232 || N.eqb c 8233
   || N.eqb c 8239 || N.eqb c 8287 || N.eqb c 12288 || N.eqb c 65279)%N.

Fixpoint trimStart (s : jsstring) : jsstring :=
  match s with
  | c :: s' => if isWhiteSpace c then trimStart s' else s
  | [] => []
  end.

Definition trimEnd (s : jsstring) : jsstring := rev (trimStart (rev s)).

(** [s.trim()] *)
Definition trim (s : jsstring) : jsstring := trimEnd (trimStart s).

(** Set insertion in a JavaScript [Set]: insertion order, no duplicates. *)
Definition set_add (x : jsstring) (l : list jsstring) : list jsstring :=
  if existsb (str_eqb x) l then l else l ++ [x].

Definition set_add_all (xs : list jsstring) (l : list jsstring) : list jsstring :=
  fold_left (fun acc x => set_add x acc) xs l.

(** Decimal rendering of a number in a template literal. *)
Fixpoint digits (fuel : nat) (n : N) (acc : jsstring) : jsstring :=
  match fuel with
  | O => acc
  | S f =>
      let acc' := (48 + N.modulo n 10)%N :: acc in
      if N.ltb n 10 then acc' else digits f (N.div n 10) acc'
  end.

Definition decimal (n : N) : jsstring := digits (S (N.to_nat (N.log2 n))) n [].

(* ------------------------------------------------------------------ *)
(** *** Regular expressions

    A backtracking matcher for the fragment of ECMAScript regular
    expressions the sources use: literals, character classes, sequence,
    ordered alternation, greedy bounded repetition of a class, greedy
    option, one capture group, and the anchors [^] and [$] with or without
    the [m] flag.  The matcher is in continuation-passing style; [prev] is
    the code unit before the current position ([None] at the start of the
    input). *)

Inductive regex : Type :=
| Chr (p : cu -> bool)
| Lit (s : jsstring)
| Seq (r1 r2 : regex)
| Alt (r1 r2 : regex)
| Rep (p : cu -> bool) (min : nat) (max : option nat)
| Opt (r : regex)
| Grp (r : regex)
| Bol (multiline : bool)
| Eol (multiline : bool).

(** The result of a match attempt: captures and the rest of the input. *)
Definition mres : Type := (list jsstring * jsstring)%type.
Definition kont : Type := option cu -> jsstring -> list jsstring -> option mres.

Fixpoint lit_match (l : jsstring) (prev : option cu) (s : jsstring)
  : option (option cu * jsstring) :=
  match l with
  | [] => Some (prev, s)
  | x :: l' =>
      match s with
      | y :: s' => if N.eqb x y then lit_match l' (Some y) s' else None
      | [] => None
      end
  end.

Definition max_allows (max : option nat) : bool :=
  match max with Some O => false | _ => true end.

(** Greedy repetition: the longest run first, then shorter ones. *)
Fixpoint rep_match (p : cu -> bool) (min : nat) (max : option nat)
    (prev : option cu) (s : jsstring) (caps : list jsstring) (k : kont)
  : option mres :=
  let stop := match min with O => k prev s caps | S _ => None end in
  match s with
  | c :: s' =>
      if p c && max_allows max then
        match rep_match p (pred min) (option_map pred max) (Some c) s' caps k with
        | Some r => Some r
        | None => stop
        end
      else stop
  | [] => stop
  end.

Fixpoint rmatch (r : regex) (prev : option cu) (s : jsstring)
    (caps : list jsstring) (k : kont) : option mres :=
  match r with
  | Chr p =>
      match s with
      | c :: s' => if p c then k (Some c) s' caps else None
      | [] => None
      end
  | Lit l =>
      match lit_match l prev s with
      | Some (prev', s') => k prev' s' caps
      | None => None
      end
  | Seq r1 r2 =>
      rmatch r1 prev s caps (fun prev' s' caps' => rmatch r2 prev' s' caps' k)
  | Alt r1 r2 =>
      match rmatch r1 prev s caps k with
      | Some res => Some res
      | None => rmatch r2 prev s caps k
      end
  | Rep p min max => rep_match p min max prev s caps k
  | Opt r1 =>
      match rmatch r1 prev s caps k with
      | Some res => Some res
      | None => k prev s caps
      end
  | Grp r1 =>
      rmatch r1 prev s caps
        (fun prev' s' caps' =>
           k prev' s' (caps' ++ [firstn (length s - length s') s]))
  | Bol multiline =>
      match prev with
      | None => k prev s caps
      | Some c => if multiline && isLineTerminator c then k prev s caps else None
      end
  | Eol multiline =>
      match s with
      | [] => k prev s caps
      | c :: _ => if multiline && isLineTerminator c then k prev s caps else None
      end
  end.

(** A match attempt at the current position. *)
Definition match_here (r : regex) (prev : option cu) (s : jsstring) : option mres :=
  rmatch r prev s [] (fun _ s' caps => Some (caps, s')).

Definition matched_text (s rest : jsstring) : jsstring :=
  firstn (length s - length rest) s.

(** [re.exec(s)] without the [g] flag: the leftmost match, as
    (matched text, captures). *)
Fixpoint exec_from (r : regex) (prev : option cu) (s : jsstring)
  : option (jsstring * list jsstring) :=
  match match_here r prev s with
  | Some (caps, rest) => Some (matched_text s rest, caps)
  | None =>
      match s with
      | [] => None
      | c :: s' => exec_from r (Some c) s'
      end
  end.

Definition exec (r : regex) (s : jsstring) : option (jsstring * list jsstring) :=
  exec_from r None s.

(** [re.test(s)] *)
Definition test (r : regex) (s : jsstring) : bool :=
  match exec r s with Some _ => true | None => false end.

Definition last_cu (prev : option cu) (m : jsstring) : option cu :=
  match rev m with c :: _ => Some c | [] => prev end.

(** [s.match(re)] with the [g] flag: every match, left to right; after an
    empty match the position advances by one code unit.  [null] (no match)
    is the empty list. *)
Fixpoint match_all_from (fuel : nat) (r : regex) (prev : option cu) (s : jsstring)
  : list jsstring :=
  match fuel with
  | O => []
  | S f =>
      match match_here r prev s with
      | Some (_, rest) =>
          let m := matched_text s rest in
          match m, s with
          | [], c :: s' => m :: match_all_from f r (Some c) s'
          | [], [] => [m]
          | _ :: _, _ => m :: match_all_from f r (last_cu prev m) rest
          end
      | None =>
          match s with
          | [] => []
          | c :: s' => match_all_from f r (Some c) s'
          end
      end
  end.

Definition match_all (r : regex) (s : jsstring) : list jsstring :=
  match_all_from (S (length s)) r None s.

(** [s.replace(re, '')] with the [g] flag. *)
Fixpoint remove_all_from (fuel : nat) (r : regex) (prev : option cu) (s : jsstring)
  : jsstring :=
  match fuel with
  | O => s
  | S f =>
      match match_here r prev s with
      | Some (_, rest) =>
          let m := matched_text s rest in
          match m, s with
          | [], c :: s' => c :: remove_all_from f r (Some c) s'
          | [], [] => []
          | _ :: _, _ => remove_all_from f r (last_cu prev m) rest
          end
      | None =>
          match s with
          | [] => []
          | c :: s' => c :: remove_all_from f r (Some c) s'
          end
      end
  end.

Definition remove_all (r : regex) (s : jsstring) : jsstring :=
  remove_all_from (S (length s)) r None s.

(** [s.replace(re, by)] with the [g] flag, for a regex of one class. *)
Definition replace_chars (p : cu -> bool) (by_ : jsstring) (s : jsstring) : jsstring :=
  flat_map (fun c => if p c then by_ else [c]) s.

(** [s.replace(pat, '')] for a string pattern: the first occurrence only. *)
Fixpoint remove_first (pat : jsstring) (s : jsstring) : jsstring :=
  if startsWith s pat then skipn (length pat) s
  else match s with
       | [] => []
       | c :: s' => c :: remove_first pat s'
       end.

(** Character classes. *)
Definition only (c : cu) : cu -> bool := N.eqb c.
Definition one_of (l : jsstring) (c : cu) : bool := existsb (N.eqb c) l.
Definition none_of (l : jsstring) (c : cu) : bool := negb (one_of l c).
Definition isHex (c : cu) : bool :=
  ((N.leb 48 c && N.leb c 57) || (N.leb 65 c && N.leb c 70)
   || (N.leb 97 c && N.leb c 102))%N.
Definition isDigit (c : cu) : bool := (N.leb 48 c && N.leb c 57)%N.
Definition dot (c : cu) : bool := negb (isLineTerminator c).

(** A literal under the [i] flag (ASCII letters). *)
Definition ci (c : cu) (x : cu) : bool :=
  N.eqb c x
  || ((N.leb 97 c && N.leb c 122) && N.eqb x (c - 32))%N
  || ((N.leb 65 c && N.leb c 90) && N.eqb x (c + 32))%N.

Fixpoint LitCI (l : jsstring) : regex :=
  match l with
  | [] => Lit []
  | c :: l' => Seq (Chr (ci c)) (LitCI l')
  end.

(** [parseInt(s)] without a radix: leading white space, an optional sign,
    then hexadecimal digits after [0x] or [0X], decimal digits otherwise;
    [None] is [NaN]. *)
Definition hexval (c : cu) : Z :=
  if isDigit c then Z.of_N (c - 48)
  else if N.leb 97 c then Z.of_N (c - 87) else Z.of_N (c - 55).

Fixpoint parse_digits (radix : Z) (ok : cu -> bool) (s : jsstring) (acc : Z)
    (seen : bool) : option Z :=
  match s with
  | c :: s' =>
      if ok c then parse_digits radix ok s' (radix * acc + hexval c) true
      else if seen then Some acc else None
  | [] => if seen then Some acc else None
  end.

Definition parse_unsigned (s : jsstring) : option Z :=
  match s with
  | z :: x :: s' =>
      if N.eqb z 48 && (N.eqb x 120 || N.eqb x 88)
      then parse_digits 16 isHex s' 0 false
      else parse_digits 10 isDigit s 0 false
  | _ => parse_digits 10 isDigit s 0 false
  end.

Definition parseInt (s : jsstring) : option Z :=
  match trimStart s with
  | c :: s' =>
      if N.eqb c 45 then option_map Z.opp (parse_unsigned s')
      else if N.eqb c 43 then parse_unsigned s'
      else parse_unsigned (c :: s')
  | [] => None
  end.

End JS.

Import JS.

(* ================================================================== *)
(** ** Platform services *)
(* ================================================================== *)

(** A JavaScript completion: a returned value or a thrown [Error] with its
    message. *)
Inductive completion (A : Type) : Type :=
| Return (a : A)
| Throw (message : jsstring).

Arguments Return {A} a.
Arguments Throw {A} message.

Module DOM.

(** What the scraper reads of an element: its attributes, its text content
    and the [backgroundImage] of its inline style. *)
Record Element : Type := {
  attrs : list (jsstring * jsstring);
  textContent : jsstring;
  style_backgroundImage : jsstring;
  isHTMLElement : bool
}.

(** [el.getAttribute(name)], [None] is [null]. *)
Fixpoint lookup (name : jsstring) (l : list (jsstring * jsstring)) : option jsstring :=
  match l with
  | [] => None
  | (k, v) :: l' => if str_eqb k name then Some v else lookup name l'
  end.

Definition getAttribute (el : Element) (name : jsstring) : option jsstring :=
  lookup name (attrs el).

(** A parsed document answers selector queries in document order. *)
Record Document : Type := {
  querySelectorAll : jsstring -> list Element;
  baseURI : jsstring
}.

(** [doc.querySelector(sel)]: the first element of [querySelectorAll]. *)
Definition querySelector (doc : Document) (sel : jsstring) : option Element :=
  hd_error (querySelectorAll doc sel).

End DOM.
Import DOM.

(** The parts of a parsed [URL] object the sources read. *)
Record URL : Type := { href : jsstring; pathname : jsstring }.

(** The answer of the network to one [fetch]. *)
Inductive Response : Type :=
| NetworkFailure (message : jsstring)
| Http (status : N) (body : jsstring).

(** [response.ok] *)
Definition status_ok (status : N) : bool := (N.leb 200 status && N.leb status 299)%N.

(** The answer of the storage service to [supabase.storage.listBuckets()]:
    the call throws, or it returns [data], the names of the buckets ([None]
    is [null]). *)
Inductive ListBucketsAnswer : Type :=
| ListBucketsThrows
| ListBuckets (data : option (list jsstring)).

(** The answer to [supabase.storage.createBucket(...)]: the call throws, or
    it returns [error] ([None] is [null]). *)
Inductive CreateBucketAnswer : Type :=
| CreateBucketThrows
| CreateBucket (error : option jsstring).

(** What one call of [ensureStorageBucket()] meets: the answers of the
    storage service, and the time after which the call settles. *)
Record BucketCall : Type := {
  listBuckets : ListBucketsAnswer;
  createBucket : CreateBucketAnswer;
  settled_ms : N
}.

Record Platform : Type := {
  (** [new URL(u)] and [new URL(u, base)]; [None] when the constructor throws *)
  URL_new : jsstring -> option jsstring -> option URL;
  (** [s.toLowerCase()] *)
  toLowerCase : jsstring -> jsstring;
  (** [new DOMParser().parseFromString(html, 'text/html')] *)
  parseFromString : jsstring -> Document;
  (** the message of the exception [querySelector] throws for a selector
      that does not parse; [None] for a well-formed selector *)
  selector_error : jsstring -> option jsstring;
  (** [doc.documentElement.outerHTML] once the merged style block is appended
      to the head and the stylesheet links are removed *)
  outerHTML_inlined : Document -> jsstring -> jsstring;
  (** [import.meta.env.VITE_SCRAPINGBEE_API_KEY] *)
  SCRAPINGBEE_API_KEY : option jsstring;
  (** the proxy's answer for a page, by target, JS rendering flag and the
      number of earlier attempts *)
  fetch_page : jsstring -> bool -> nat -> Response;
  (** the proxy's answer for a stylesheet, by its absolute URL *)
  fetch_sheet : jsstring -> Response;
  (** what the calls of [ensureStorageBucket()] meet, by the number of
      earlier calls *)
  bucket_call : nat -> BucketCall;
  (** [Date.now() - startTime] at the time the log entry is built *)
  elapsed_ms : Z
}.

(** The platform [P] with a storage service that answers the calls of
    [ensureStorageBucket()] as [b] says. *)
Definition with_bucket (P : Platform) (b : nat -> BucketCall) : Platform :=
  {| URL_new := URL_new P;
     toLowerCase := toLowerCase P;
     parseFromString := parseFromString P;
     selector_error := selector_error P;
     outerHTML_inlined := outerHTML_inlined P;
     SCRAPINGBEE_API_KEY := SCRAPINGBEE_API_KEY P;
     fetch_page := fetch_page P;
     fetch_sheet := fetch_sheet P;
     bucket_call := b;
     elapsed_ms := elapsed_ms P |}.

(** The platform [P] as it is once [n] more calls of [ensureStorageBucket()]
    have been made. *)
Definition after_calls (n : nat) (P : Platform) : Platform :=
  with_bucket P (fun i => bucket_call P (n + i)).

(* ================================================================== *)
(** ** lib/types/database.ts *)
(* ================================================================== *)

Record Layout : Type := {
  maxWidth : jsstring; containerPadding : jsstring; gridGap : jsstring }.

Record ButtonStyle : Type := {
  btn_backgroundColor : jsstring; btn_color : jsstring;
  btn_padding : jsstring; btn_borderRadius : jsstring }.

Record HeaderStyle : Type := {
  hdr_fontFamily : jsstring; hdr_fontSize : jsstring;
  hdr_fontWeight : jsstring; hdr_color : jsstring }.

Record Styles : Type := {
  spacing : list jsstring;
  borderRadius : list jsstring;
  layout : Layout;
  buttonStyles : list ButtonStyle;
  headerStyles : list HeaderStyle;
  gradients : list jsstring;
  shadows : list jsstring
}.

Record WebsiteStyle : Type := {
  colors : option (list jsstring);
  fonts : option (list jsstring);
  images : option (list jsstring);
  logo : option jsstring;
  metaDescription : option jsstring;
  headings : option (list jsstring);
  styles : Styles
}.

Inductive AssetType : Type := asset_image | asset_font | asset_logo.

(** A row inserted in the [assets] table. *)
Record AssetRow : Type := {
  asset_project_id : jsstring;
  asset_type : AssetType;
  asset_url : jsstring
}.

(* ================================================================== *)
(** ** lib/storage.ts *)
(* ================================================================== *)

Module Storage.

Definition FALLBACK_IMAGES : list jsstring := [
  js "https://images.unsplash.com/photo-1606857521015-7f9fcf423740?w=1200&q=80";
  js "https://images.unsplash.com/photo-1618005182384-a83a8bd57fbe?w=1200&q=80"
].

Definition isValidImageUrl (P : Platform) (url : jsstring) : bool :=
  if startsWith url (js "data:") then false
  else if includes url (js "images.unsplash.com") then true
  else
    let validExtensions :=
      [js ".jpg"; js ".jpeg"; js ".png"; js ".gif"; js ".webp"; js ".svg"] in
    match URL_new P url None with
    | Some u =>
        let urlPath := toLowerCase P (pathname u) in
        existsb (fun ext => endsWith urlPath ext) validExtensions
    | None => false
    end.

(** [ensureStorageBucket()]: [true] when [listBuckets] reports the bucket
    [project-assets], or when it does not and [createBucket] reports no
    error; [false] when [createBucket] reports an error or one of the two
    calls throws. *)
Definition ensureStorageBucket (c : BucketCall) : bool :=
  match listBuckets c with
  | ListBuckets buckets =>
      let bucketName := js "project-assets" in
      if negb (match buckets with
               | Some l => existsb (fun b_name => str_eqb b_name bucketName) l
               | None => false
               end)
      then
        match createBucket c with
        | CreateBucket (Some error) => false
        | CreateBucket None => true
        | CreateBucketThrows => false
        end
      else true
  | ListBucketsThrows => false
  end.

(** [downloadAndStoreImage(url, projectId)], [None] is [null].  Its call of
    [ensureStorageBucket()] is the next one the platform answers. *)
Definition downloadAndStoreImage (P : Platform) (url projectId : jsstring)
  : option jsstring :=
  if startsWith url (js "data:") then None
  else if includes url (js "images.unsplash.com") then
    Some (if includes url (js "?") then url else url ++ js "?w=1200&q=80")
  else if negb (isValidImageUrl P url) then None
  else if negb (ensureStorageBucket (bucket_call P 0)) then None
  else Some url.

(** Whether [downloadAndStoreImage(url, projectId)] reaches its
    [await ensureStorageBucket()]: it returns before for a [data:] URL, an
    Unsplash URL and a URL [isValidImageUrl] rejects. *)
Definition awaits_bucket (P : Platform) (url : jsstring) : bool :=
  if startsWith url (js "data:") then false
  else if includes url (js "images.unsplash.com") then false
  else if negb (isValidImageUrl P url) then false
  else true.

(** [getImageExtension(url)]: the part of the path after its last dot, in
    lower case, when it is one of six extensions, and [jpg] otherwise, also
    when the [URL] constructor throws. *)
Definition getImageExtension (P : Platform) (url : jsstring) : jsstring :=
  match URL_new P url None with
  | Some u =>
      let ext := toLowerCase P (last (split 46%N (pathname u)) []) in
      if truthy ext
         && existsb (fun e => str_eqb e ext)
              [js "jpg"; js "jpeg"; js "png"; js "gif"; js "webp"; js "svg"]
      then ext
      else js "jpg"
  | None => js "jpg"
  end.

Record StoredAssets : Type := {
  stored_images : list jsstring;
  stored_logo : option jsstring
}.

(** The row of the [assets] table inserted for a stored URL; an empty
    string is not stored. *)
Definition asset_row (projectId : jsstring) (type : AssetType)
    (storedUrl : option jsstring) : list AssetRow :=
  match storedUrl with
  | Some (c :: s) =>
      [{| asset_project_id := projectId; asset_type := type; asset_url := c :: s |}]
  | _ => []
  end.

(** What the [if (storedUrl)] of a callback lets through. *)
Definition if_stored (storedUrl : option jsstring) : option jsstring :=
  match storedUrl with
  | Some (c :: s) => Some (c :: s)
  | _ => None
  end.

(** One callback of [assets.images.map(async (url) => ...)]: when its
    [downloadAndStoreImage] settles and what it returns. *)
Record ImageJob : Type := {
  (** [None]: without a call to the storage service, so before any call
      that waits for it; [Some t]: when its [ensureStorageBucket()]
      settles, [t] after the calls were started *)
  settles : option N;
  storedUrl : option jsstring
}.

(** The callbacks of [assets.images.map(...)], started one after the other
    in the same turn, [calls] being the number of calls of
    [ensureStorageBucket()] made before: each callback that reaches its
    [ensureStorageBucket()] makes the next call. *)
Fixpoint image_jobs (P : Platform) (projectId : jsstring) (urls : list jsstring)
    (calls : nat) : list ImageJob :=
  match urls with
  | [] => []
  | url :: rest =>
      if awaits_bucket P url then
        {| settles := Some (settled_ms (bucket_call P calls));
           storedUrl := if_stored (downloadAndStoreImage (after_calls calls P) url projectId) |}
        :: image_jobs P projectId rest (S calls)
      else
        {| settles := None;
           storedUrl := if_stored (downloadAndStoreImage P url projectId) |}
        :: image_jobs P projectId rest calls
  end.

Definition keep_stored (l : list (option jsstring)) : list jsstring :=
  flat_map (fun o => match o with Some u => [u] | None => [] end) l.

(** The jobs that wait for the storage service, in the order in which they
    settle; of two that settle at the same time, the one started first. *)
Fixpoint settle (j : N * option jsstring) (l : list (N * option jsstring))
  : list (N * option jsstring) :=
  match l with
  | [] => [j]
  | k :: l' => if (fst j <=? fst k)%N then j :: k :: l' else k :: settle j l'
  end.

Fixpoint settled_order (jobs : list ImageJob) : list (N * option jsstring) :=
  match jobs with
  | [] => []
  | job :: rest =>
      match settles job with
      | Some t => settle (t, storedUrl job) (settled_order rest)
      | None => settled_order rest
      end
  end.

(** The jobs that do not wait for the storage service, in the order in
    which they were started. *)
Definition immediate (jobs : list ImageJob) : list (option jsstring) :=
  flat_map (fun job => match settles job with
                       | None => [storedUrl job]
                       | Some _ => []
                       end) jobs.

(** The stored assets and the rows inserted in the [assets] table, in the
    order in which they are submitted.  The logo is awaited before the
    images are started.  The callbacks of the images run concurrently: each
    submits its row when its [downloadAndStoreImage] has settled, so the
    rows of the images that do not wait for the storage service come first;
    [Promise.all] returns the stored URLs in the order of [assets.images]. *)
Definition storeProjectAssets (P : Platform) (projectId : jsstring)
    (assets_images : list jsstring) (assets_logo : option jsstring)
  : StoredAssets * list AssetRow :=
  let '(storedLogo, calls) :=
    match assets_logo with
    | Some (c :: s) =>
        (if_stored (downloadAndStoreImage P (c :: s) projectId),
         if awaits_bucket P (c :: s) then 1 else 0)
    | _ => (None, 0)
    end in
  let logoRows := asset_row projectId asset_logo storedLogo in
  let jobs := image_jobs P projectId assets_images calls in
  let storedUrls := keep_stored (map storedUrl jobs) in
  let imageRows :=
    flat_map (asset_row projectId asset_image)
      (immediate jobs ++ map snd (settled_order jobs)) in
  let images :=
    match storedUrls with
    | [] => FALLBACK_IMAGES
    | _ => storedUrls
    end in
  ({| stored_images := images; stored_logo := storedLogo |},
   logoRows ++ imageRows).

End Storage.

(* ================================================================== *)
(** ** lib/scraper.ts *)
(* ================================================================== *)

Module Scraper.

Definition FALLBACK_IMAGES : list jsstring := [
  js "https://images.unsplash.com/photo-1606857521015-7f9fcf423740?w=1200&q=80";
  js "https://images.unsplash.com/photo-1618005182384-a83a8bd57fbe?w=1200&q=80";
  js "https://images.unsplash.com/photo-1551434678-e076c223a692?w=1200&q=80";
  js "https://images.unsplash.com/photo-1506765515384-028b60a970df?w=1200&q=80";
  js "https://images.unsplash.com/photo-1498050108023-c5249f4df085?w=1200&q=80"
].

Definition DEFAULT_STYLE : WebsiteStyle := {|
  colors := Some [js "#1a1a1a"; js "#ffffff"; js "#3b82f6"; js "#4F46E5"; js "#7C3AED"];
  fonts := Some [js "system-ui"; js "-apple-system"; js "sans-serif"];
  images := Some FALLBACK_IMAGES;
  logo := None;
  metaDescription := None;
  headings := None;
  styles := {|
    spacing := [js "0.5rem"; js "1rem"; js "1.5rem"; js "2rem"];
    borderRadius := [js "0.25rem"; js "0.5rem"; js "0.75rem"];
    shadows := [
      js "0 1px 3px rgba(0,0,0,0.1)";
      js "0 4px 6px rgba(0,0,0,0.1)";
      js "0 10px 15px rgba(0,0,0,0.1)"
    ];
    gradients := [
      js "linear-gradient(to right, #4F46E5, #7C3AED)";
      js "linear-gradient(to bottom, #F9FAFB, #F3F4F6)"
    ];
    buttonStyles := [{|
      btn_backgroundColor := js "#4F46E5";
      btn_color := js "#FFFFFF";
      btn_padding := js "0.75rem 1.5rem";
      btn_borderRadius := js "0.375rem"
    |}];
    headerStyles := [{|
      hdr_fontSize := js "2.25rem";
      hdr_fontWeight := js "700";
      hdr_color := js "#1F2937";
      hdr_fontFamily := js "system-ui"
    |}];
    layout := {|
      maxWidth := js "1200px";
      containerPadding := js "2rem";
      gridGap := js "2rem"
    |}
  |}
|}.

Definition default_colors : list jsstring :=
  match colors DEFAULT_STYLE with Some l => l | None => [] end.
Definition default_fonts : list jsstring :=
  match fonts DEFAULT_STYLE with Some l => l | None => [] end.

Record AssetsFound : Type := {
  found_colors : nat;
  found_fonts : nat;
  found_images : nat;
  found_logo : bool;
  found_styles : bool
}.

(** The row [logScrapingResult] inserts in [scraping_logs]. *)
Record ScrapingLog : Type := {
  log_project_id : jsstring;
  log_url : jsstring;
  success : bool;
  assets_found : AssetsFound;
  errors : option (list jsstring);
  duration_ms : Z;
  retries : nat;
  using_default_styles : bool
}.

Definition validateUrl (P : Platform) (url : jsstring) : bool :=
  match URL_new P url None with Some _ => true | None => false end.

(** [resolveUrl(baseUrl, url)]; the [catch] turns a throwing [URL]
    constructor into the empty string. *)
Definition resolveUrl (P : Platform) (baseUrl url : jsstring) : jsstring :=
  if negb (truthy url) then []
  else if startsWith url (js "data:") then []
  else if includes url (js "local-credentialless.webcontainer-api.io") then
    let urlParts := split 47%N url in
    let assetPath := join (js "/") (slice_from (indexOf urlParts (js "assets")) urlParts) in
    match URL_new P assetPath (Some baseUrl) with
    | Some u => href u
    | None => []
    end
  else if startsWith url (js "http://") || startsWith url (js "https://") then url
  else if startsWith url (js "//") then js "https:" ++ url
  else
    match URL_new P url (Some baseUrl) with
    | Some u => href u
    | None => []
    end.

(* ------------------------------------------------------------------ *)
(** *** Stylesheet resolver *)

Definition quote : cu -> bool := one_of [34; 39]%N.

(** [@import\s+(?:url\(['dq]?([^'dq)]+)['dq]?\)|['dq]([^'dq]+)['dq]);]
    where [dq] stands for the double quote. *)
Definition re_import : regex :=
  Seq (Lit (js "@import"))
 (Seq (Rep isWhiteSpace 1 None)
 (Seq (Alt
        (Seq (Lit (js "url("))
        (Seq (Opt (Chr quote))
        (Seq (Rep (none_of [39; 34; 41]%N) 1 None)
        (Seq (Opt (Chr quote))
             (Lit (js ")"))))))
        (Seq (Chr quote)
        (Seq (Rep (none_of [39; 34]%N) 1 None)
             (Chr quote))))
      (Lit (js ";")))).

(** [['dq]([^'dq]+)['dq]] *)
Definition re_quoted : regex :=
  Seq (Chr quote) (Seq (Grp (Rep (none_of [39; 34]%N) 1 None)) (Chr quote)).

(** The URLs of the [@import] rules of a stylesheet, as
    [fetchExternalStylesheet] extracts them. *)
Definition importUrls (css : jsstring) : list jsstring :=
  flat_map
    (fun rule =>
       match exec re_quoted rule with
       | Some (_, [u]) => if truthy u then [u] else []
       | _ => []
       end)
    (match_all re_import css).

(** [Promise.all(l.map(f))] for a computation that may not return. *)
Fixpoint all {A B} (f : A -> option B) (l : list A) : option (list B) :=
  match l with
  | [] => Some []
  | x :: l' =>
      match f x, all f l' with
      | Some y, Some ys => Some (y :: ys)
      | _, _ => None
      end
  end.

(** The first half of [fetchExternalStylesheet]: the text of the stylesheet,
    or [None] when the [catch] block is reached (the URL does not resolve,
    the fetch fails, or the status is not a success). *)
Definition stylesheet_text (P : Platform) (styleUrl baseUrl : jsstring)
  : option jsstring :=
  let fullUrl :=
    if startsWith styleUrl (js "http") then Some styleUrl
    else option_map href (URL_new P styleUrl (Some baseUrl)) in
  match fullUrl with
  | None => None
  | Some fullUrl =>
      match fetch_sheet P fullUrl with
      | NetworkFailure _ => None
      | Http status css => if negb (status_ok status) then None else Some css
      end
  end.

(** [fetchExternalStylesheet(styleUrl, baseUrl)].  The source recursion has
    no bound of its own: [fuel] bounds the depth of the calls and [None]
    says that it did not suffice. *)
Fixpoint fetchExternalStylesheet (fuel : nat) (P : Platform)
    (styleUrl baseUrl : jsstring) : option jsstring :=
  match fuel with
  | O => None
  | S f =>
      match stylesheet_text P styleUrl baseUrl with
      | None => Some []
      | Some css =>
          match importUrls css with
          | [] => Some css
          | urls =>
              match all (fun importUrl => fetchExternalStylesheet f P importUrl baseUrl) urls with
              | Some importedStyles => Some (join nl (css :: importedStyles))
              | None => None
              end
          end
      end
  end.

(* ------------------------------------------------------------------ *)
(** *** Rendering proxy client *)

Inductive Event : Type :=
| EvFetch (retryCount : nat)
| EvSleep (ms : Z).

Definition API_LIMIT_REACHED : jsstring := js "API_LIMIT_REACHED".

Definition sel_stylesheet_links : jsstring :=
  js "link[rel=" ++ dq ++ js "stylesheet" ++ dq ++ js "]".

(** The fetch and the status test of [makeScrapingBeeRequest]: the text of
    the response, or the error thrown. *)
Definition fetch_text (P : Platform) (cleanUrl : jsstring) (withJs : bool)
    (retryCount : nat) : completion jsstring :=
  match fetch_page P cleanUrl withJs retryCount with
  | NetworkFailure message => Throw message
  | Http status body =>
      if negb (status_ok status) then
        if N.eqb status 401 && includes body (js "API calls limit reached")
        then Throw API_LIMIT_REACHED
        else Throw (js "ScrapingBee API error: " ++ decimal status
                      ++ js " - " ++ body)
      else Return body
  end.

(** The body of the [try] block of [makeScrapingBeeRequest]. *)
Definition request_once (fuel : nat) (P : Platform) (cleanUrl : jsstring)
    (withJs : bool) (retryCount : nat) : option (completion jsstring) :=
  match fetch_text P cleanUrl withJs retryCount with
  | Throw message => Some (Throw message)
  | Return html =>
      let doc := parseFromString P html in
      let cssLinks := querySelectorAll doc sel_stylesheet_links in
      match all (fun link =>
                   match getAttribute link (js "href") with
                   | Some (c :: h) =>
                       fetchExternalStylesheet fuel P
                         (resolveUrl P cleanUrl (c :: h)) cleanUrl
                   | _ => Some []
                   end) cssLinks with
      | None => None
      | Some stylesheets =>
          let styleContent := join nl (filter truthy stylesheets) in
          if truthy styleContent
          then Some (Return (outerHTML_inlined P doc styleContent))
          else Some (Return html)
      end
  end.

(** [makeScrapingBeeRequest(url, withJs, retryCount)] with the trace of its
    page fetches and back-off delays. *)
Fixpoint makeScrapingBeeRequest (fuel : nat) (P : Platform) (url : jsstring)
    (withJs : bool) (retryCount : nat)
  : option (completion jsstring * list Event) :=
  match fuel with
  | O => None
  | S f =>
      if negb (otruthy (SCRAPINGBEE_API_KEY P)) then
        Some (Throw (js "ScrapingBee API key is not configured"), [])
      else
        let cleanUrl := trim url in
        if negb (validateUrl P cleanUrl) then
          Some (Throw (js "Invalid URL format. Please use http:// or https://"), [])
        else
          match request_once f P cleanUrl withJs retryCount with
          | None => None
          | Some (Return html) => Some (Return html, [EvFetch retryCount])
          | Some (Throw message) =>
              if str_eqb message API_LIMIT_REACHED then
                Some (Throw message, [EvFetch retryCount])
              else if retryCount <? 2 then
                match makeScrapingBeeRequest f P url withJs (retryCount + 1) with
                | None => None
                | Some (c, evs) =>
                    Some (c, EvFetch retryCount
                               :: EvSleep (2000 * (Z.of_nat retryCount + 1)) :: evs)
                end
              else Some (Throw message, [EvFetch retryCount])
          end
  end.

(* ------------------------------------------------------------------ *)
(** *** Asset extractor *)

(** [pre + dq + v + dq + post]: a selector with a quoted attribute value. *)
Definition quoted (pre : jsstring) (v : jsstring) (post : jsstring) : jsstring :=
  pre ++ dq ++ v ++ dq ++ post.

(** [img.getAttribute('src') || img.getAttribute('data-src')] *)
Definition src_or_data_src (img : Element) : option jsstring :=
  match getAttribute img (js "src") with
  | Some (c :: s) => Some (c :: s)
  | _ => getAttribute img (js "data-src")
  end.

(** The loop over a list of selectors: the source of the first selected
    image that has one. *)
Fixpoint first_logo_src (doc : Document) (selectors : list jsstring) : option jsstring :=
  match selectors with
  | [] => None
  | selector :: rest =>
      match querySelector doc selector with
      | Some img =>
          match src_or_data_src img with
          | Some (c :: s) => Some (c :: s)
          | _ => first_logo_src doc rest
          end
      | None => first_logo_src doc rest
      end
  end.

(** The same loop over the selectors built from the brand: the brand is
    user input, and [querySelector] throws when a selector built from it
    does not parse. *)
Fixpoint first_brand_logo_src (P : Platform) (doc : Document)
    (selectors : list jsstring) : completion (option jsstring) :=
  match selectors with
  | [] => Return None
  | selector :: rest =>
      match selector_error P selector with
      | Some message => Throw message
      | None =>
          match querySelector doc selector with
          | Some img =>
              match src_or_data_src img with
              | Some (c :: s) => Return (Some (c :: s))
              | _ => first_brand_logo_src P doc rest
              end
          | None => first_brand_logo_src P doc rest
          end
      end
  end.

Definition brandSelectors (brandLower : jsstring) : list jsstring := [
  quoted (js "img[src*=") (brandLower ++ js "-logo") (js "]");
  quoted (js "img[src*=") (js "logo-" ++ brandLower) (js "]");
  quoted (js "img[src*=") (brandLower ++ js "_logo") (js "]");
  quoted (js "img[src*=") (js "logo_" ++ brandLower) (js "]");
  quoted (js "img[alt*=") (brandLower ++ js " logo") (js "]");
  quoted (js "header img[src*=") brandLower (js "]");
  quoted (js "nav img[src*=") brandLower (js "]");
  quoted (js "img[src*=") brandLower (quoted (js "][width=") (js "32") (js "]"));
  quoted (js "img[src*=") brandLower (quoted (js "][width=") (js "64") (js "]"));
  quoted (js "img[src*=") brandLower (quoted (js "][width=") (js "100") (js "]"));
  quoted (js "img[src*=") brandLower (quoted (js "][width=") (js "128") (js "]"));
  quoted (js "img[src*=") brandLower (quoted (js "][width=") (js "200") (js "]"))
].

Definition genericLogoSelectors : list jsstring := [
  quoted (js "header img[src*=") (js "logo") (js "]");
  quoted (js "header img[alt*=") (js "logo") (js "]");
  quoted (js "nav img[src*=") (js "logo") (js "]");
  quoted (js "nav img[alt*=") (js "logo") (js "]");
  js ".logo img";
  js "img.logo";
  quoted (js "img[src*=") (js "logo") (js "]");
  quoted (js "img[alt*=") (js "logo") (js "]")
].

(** [parseInt(img.getAttribute(name) || '0')] *)
Definition int_attr (img : Element) (name : jsstring) : option Z :=
  parseInt (or_else (getAttribute img name) (js "0")).

Definition square_icon (img : Element) : bool :=
  match int_attr img (js "width"), int_attr img (js "height") with
  | Some width, Some height =>
      (width =? height)%Z && ((32 <=? width)%Z && (width <=? 200)%Z)
  | _, _ => false
  end.

(** The generic selectors and the last resort of [findLogo]. *)
Definition findLogo_generic (P : Platform) (doc : Document) : option jsstring :=
  match first_logo_src doc genericLogoSelectors with
  | Some src => Some (resolveUrl P (baseURI doc) src)
  | None =>
      match filter square_icon (querySelectorAll doc (js "header img, nav img")) with
      | img :: _ =>
          match getAttribute img (js "src") with
          | Some (c :: s) => Some (resolveUrl P (baseURI doc) (c :: s))
          | _ => None
          end
      | [] => None
      end
  end.

(** [findLogo(doc, brand)], [None] is [undefined]. *)
Definition findLogo (P : Platform) (doc : Document) (brand : option jsstring)
  : completion (option jsstring) :=
  match brand with
  | Some (c :: b) =>
      match first_brand_logo_src P doc (brandSelectors (toLowerCase P (c :: b))) with
      | Throw message => Throw message
      | Return (Some src) => Return (Some (resolveUrl P (baseURI doc) src))
      | Return None => Return (findLogo_generic P doc)
      end
  | _ => Return (findLogo_generic P doc)
  end.

(** The extension test of the source, with the [i] flag: a dot, one of
    [jpg], [jpeg], [png], [webp], an optional query (a question mark and any
    run without line terminator), and the end of the input. *)
Definition re_image_ext : regex :=
  Seq (Lit (js "."))
 (Seq (Alt (LitCI (js "jpg")) (Alt (LitCI (js "jpeg"))
      (Alt (LitCI (js "png")) (LitCI (js "webp")))))
 (Seq (Opt (Seq (Lit (js "?")) (Rep dot 0 None)))
      (Eol false))).

(** [url\(['dq]?([^'dq)]+)['dq]?\)] *)
Definition re_css_url : regex :=
  Seq (Lit (js "url("))
 (Seq (Opt (Chr quote))
 (Seq (Grp (Rep (none_of [39; 34; 41]%N) 1 None))
 (Seq (Opt (Chr quote))
      (Lit (js ")"))))).

Definition heroSelectors : list jsstring := [
  js ".hero img";
  quoted (js "[class*=") (js "hero") (js "] img");
  quoted (js "header img:not([src*=") (js "logo") (js "])");
  js "main > section:first-child img"
].

Definition contentSelectors : list jsstring := [
  js ".features img";
  js ".products img";
  js ".gallery img";
  js "article img";
  js "section img"
].

Definition is_large (img : Element) : bool :=
  let width := int_attr img (js "width") in
  let height := int_attr img (js "height") in
  let src := or_else (getAttribute img (js "src")) [] in
  let ge (o : option Z) (n : Z) :=
    match o with Some v => (n <=? v)%Z | None => false end in
  (ge width 600%Z || ge height 400%Z)
  && negb (includes src (js "logo"))
  && test re_image_ext src.

(** The sources added to the [images] set, in the order of the additions. *)
Definition image_candidates (P : Platform) (doc : Document) : list jsstring :=
  let hero :=
    flat_map (fun selector =>
                match querySelector doc selector with
                | Some img =>
                    match getAttribute img (js "src") with
                    | Some (c :: s) => [resolveUrl P (baseURI doc) (c :: s)]
                    | _ => []
                    end
                | None => []
                end) heroSelectors in
  let largeImages :=
    flat_map (fun img =>
                match getAttribute img (js "src") with
                | Some (c :: s) => [resolveUrl P (baseURI doc) (c :: s)]
                | _ => []
                end)
             (filter is_large (querySelectorAll doc (js "img"))) in
  let content :=
    flat_map (fun selector =>
                flat_map (fun img =>
                            match getAttribute img (js "src") with
                            | Some (c :: s) =>
                                if test re_image_ext (c :: s)
                                then [resolveUrl P (baseURI doc) (c :: s)]
                                else []
                            | _ => []
                            end)
                         (querySelectorAll doc selector)) contentSelectors in
  let elementsWithBackground :=
    filter (fun el =>
              let bg := style_backgroundImage el in
              truthy bg && negb (str_eqb bg (js "none")))
           (filter isHTMLElement (querySelectorAll doc (js "*"))) in
  let backgrounds :=
    flat_map (fun el =>
                match exec re_css_url (style_backgroundImage el) with
                | Some (_, [u]) =>
                    if truthy u then [resolveUrl P (baseURI doc) u] else []
                | _ => []
                end) elementsWithBackground in
  hero ++ largeImages ++ content ++ backgrounds.

(** [findImages(doc)] *)
Definition findImages (P : Platform) (doc : Document) : list jsstring :=
  let images := set_add_all (image_candidates P doc) [] in
  slice0 5 (filter (fun src => negb (includes src (js "logo"))) images).

(** [(#[0-9A-Fa-f]{3,6}|rgb\([^)]+\)|rgba\([^)]+\))] *)
Definition re_color : regex :=
  Alt (Seq (Lit (js "#")) (Rep isHex 3 (Some 6)))
 (Alt (Seq (Lit (js "rgb(")) (Seq (Rep (none_of [41]%N) 1 None) (Lit (js ")"))))
      (Seq (Lit (js "rgba(")) (Seq (Rep (none_of [41]%N) 1 None) (Lit (js ")"))))).

Definition color_literals (text : jsstring) : list jsstring :=
  filter (fun color =>
            negb (includes color (js "var("))
            && negb (existsb (str_eqb color)
                       [js "inherit"; js "transparent"; js "currentColor"]))
         (match_all re_color text).

(** [a || b] on arrays: an array is truthy, also when it is empty, so the
    right operand is never taken. *)
Definition array_or {A} (a b : list A) : list A := a.

(** [extractColors(doc)] *)
Definition extractColors (doc : Document) : list jsstring :=
  let from_attributes :=
    flat_map (fun el =>
                match getAttribute el (js "style") with
                | Some (c :: s) => color_literals (c :: s)
                | _ => []
                end)
             (querySelectorAll doc (js "[style], [class]")) in
  let from_style_tags :=
    flat_map (fun styleEl => color_literals (textContent styleEl))
             (querySelectorAll doc (js "style")) in
  let colors := set_add_all (from_attributes ++ from_style_tags) [] in
  array_or (slice0 5 colors) default_colors.

(** [font-family:\s*([^;}dq']+)] *)
Definition re_font_family : regex :=
  Seq (Lit (js "font-family:"))
 (Seq (Rep isWhiteSpace 0 None)
      (Rep (none_of [59; 125; 34; 39]%N) 1 None)).

(** [family=([^&:]+)] *)
Definition re_family : regex :=
  Seq (Lit (js "family=")) (Grp (Rep (none_of [38; 58]%N) 1 None)).

Definition firstFont (font : jsstring) : jsstring :=
  let fontFamily := trim (remove_first (js "font-family:") font) in
  trim (replace_chars quote [] (hd [] (split 44%N fontFamily))).

Definition css_fonts (css : jsstring) : list jsstring :=
  flat_map (fun font =>
              let f := firstFont font in
              if negb (includes f (js "var("))
                 && negb (existsb (str_eqb f)
                            [js "inherit"; js "system-ui"; js "-apple-system";
                             js "sans-serif"; js "serif"; js "monospace"])
              then [f] else [])
           (match_all re_font_family css).

(** [extractFonts(doc)] *)
Definition extractFonts (doc : Document) : list jsstring :=
  let from_style_tags :=
    flat_map (fun styleEl => css_fonts (textContent styleEl))
             (querySelectorAll doc (js "style")) in
  let from_google :=
    flat_map (fun link =>
                let href := or_else (getAttribute link (js "href")) [] in
                match exec re_family href with
                | Some (_, [family]) => [replace_chars (only 43%N) (js " ") family]
                | _ => []
                end)
             (querySelectorAll doc
                (quoted (js "link[href*=") (js "fonts.googleapis.com") (js "]"))) in
  let fonts := set_add_all (from_style_tags ++ from_google) [] in
  array_or (slice0 3 fonts) default_fonts.

(* ------------------------------------------------------------------ *)
(** *** Scrape orchestrator *)

(** The local constant [logo] of [scrapeWebsite], from the result of
    [findLogo]. *)
Definition scraped_logo (P : Platform) (url : jsstring) (logoUrl : option jsstring)
  : option jsstring :=
  match logoUrl with
  | Some (c :: s) => Some (resolveUrl P url (c :: s))
  | _ => None
  end.

(** The local constant [images] of [scrapeWebsite]. *)
Definition scraped_images (P : Platform) (url : jsstring) (doc : Document)
  : list jsstring :=
  filter truthy (map (fun imgUrl => resolveUrl P url imgUrl) (findImages P doc)).

(** The local constant [finalImages] of [scrapeWebsite]. *)
Definition finalImages (P : Platform) (url : jsstring) (doc : Document)
  : list jsstring :=
  let images := scraped_images P url doc in
  slice0 5 (images ++ skipn (length images) FALLBACK_IMAGES).

(** What a call of [scrapeWebsite] leaves behind: the profile it returns,
    the rows it submits to [scraping_logs] and to [assets], and the trace of
    the proxy client. *)
Record Run : Type := {
  profile : WebsiteStyle;
  logs : list ScrapingLog;
  asset_rows : list AssetRow;
  trace : list Event
}.

Definition sel_meta_description : jsstring :=
  quoted (js "meta[name=") (js "description") (js "]").

(** The [try] block of [scrapeWebsite]: it returns the profile with the log
    row and the asset rows it has submitted, or throws. *)
Definition scrape_try (fuel : nat) (P : Platform) (url projectId : jsstring)
    (brand : option jsstring)
  : option (completion (WebsiteStyle * ScrapingLog * list AssetRow) * list Event) :=
  let retries := 0 in
  let usingDefaultStyles := false in
  match makeScrapingBeeRequest fuel P url true 0 with
  | None => None
  | Some (Throw message, evs) => Some (Throw message, evs)
  | Some (Return html, evs) =>
      let doc := parseFromString P html in
      let extractedColors := extractColors doc in
      let extractedFonts := extractFonts doc in
      let metaDescription :=
        match querySelector doc sel_meta_description with
        | Some meta => getAttribute meta (js "content")
        | None => None
        end in
      match findLogo P doc brand with
      | Throw message => Some (Throw message, evs)
      | Return logoUrl =>
          let logo := scraped_logo P url logoUrl in
          let finalImages := finalImages P url doc in
          let '(processedAssets, rows) :=
            Storage.storeProjectAssets P projectId finalImages logo in
          let log := {|
            log_project_id := projectId;
            log_url := url;
            success := true;
            assets_found := {|
              found_colors := length extractedColors;
              found_fonts := length extractedFonts;
              found_images := length (Storage.stored_images processedAssets);
              found_logo := otruthy (Storage.stored_logo processedAssets);
              found_styles := true
            |};
            errors := None;
            duration_ms := elapsed_ms P;
            retries := retries;
            using_default_styles := usingDefaultStyles
          |} in
          let result := {|
            colors := match extractedColors with
                      | [] => colors DEFAULT_STYLE
                      | _ => Some extractedColors
                      end;
            fonts := match extractedFonts with
                     | [] => fonts DEFAULT_STYLE
                     | _ => Some extractedFonts
                     end;
            images := Some finalImages;
            logo := logo;
            metaDescription := metaDescription;
            headings := headings DEFAULT_STYLE;
            styles := styles DEFAULT_STYLE
          |} in
          Some (Return (result, log, rows), evs)
      end
  end.

(** The [catch] block of [scrapeWebsite]: the row it logs. *)
Definition failure_log (P : Platform) (url projectId errorMessage : jsstring)
  : ScrapingLog :=
  let retries := 0 in
  let usingDefaultStyles := true in
  if str_eqb errorMessage API_LIMIT_REACHED then
    {| log_project_id := projectId;
       log_url := url;
       success := false;
       assets_found := {|
         found_colors := length default_colors;
         found_fonts := length default_fonts;
         found_images := length FALLBACK_IMAGES;
         found_logo := false;
         found_styles := true
       |};
       errors := Some [js "API calls limit reached - using default styles"];
       duration_ms := elapsed_ms P;
       retries := retries;
       using_default_styles := usingDefaultStyles |}
  else
    {| log_project_id := projectId;
       log_url := url;
       success := false;
       assets_found := {|
         found_colors := 0;
         found_fonts := 0;
         found_images := 0;
         found_logo := false;
         found_styles := false
       |};
       errors := Some [errorMessage];
       duration_ms := elapsed_ms P;
       retries := retries;
       using_default_styles := usingDefaultStyles |}.

(** [scrapeWebsite(url, projectId, brand)]; [None] when the stylesheet
    resolver does not return within [fuel]. *)
Definition scrapeWebsite (fuel : nat) (P : Platform) (url projectId : jsstring)
    (brand : option jsstring) : option Run :=
  match scrape_try fuel P url projectId brand with
  | None => None
  | Some (Return (result, log, rows), evs) =>
      Some {| profile := result; logs := [log]; asset_rows := rows; trace := evs |}
  | Some (Throw errorMessage, evs) =>
      Some {| profile := DEFAULT_STYLE;
              logs := [failure_log P url projectId errorMessage];
              asset_rows := [];
              trace := evs |}
  end.

End Scraper.

(* ================================================================== *)
(** ** lib/ai.ts *)
(* ================================================================== *)

(** The generation client.  The repository holds two variants of this
    file.  [AI] is the one with [cleanGeneratedCode], whose
    [getFallbackTemplate] takes the style alone; [AICss] is the one whose
    response has a [css] field.  The constants, the rate limiter and the
    text of the fallback template are the same in both. *)

Module AI.

Definition MIN_REQUEST_INTERVAL : Z := 20000.
Definition MAX_RETRIES : nat := 3.
Definition RETRY_DELAY : Z := 5000.

(** The outcome of [openai.chat.completions.create]: a rejection with the
    message of its error, or a completion with the content of its first
    choice ([None] is [null]). *)
Inductive ProviderAnswer : Type :=
| Rejected (message : jsstring)
| Completed (content : option jsstring).

(** The environment of the client: the API key, the answer and the duration
    of the n-th request the process issues, and by how much the n-th timer
    fires late (a timer never fires early). *)
Record Provider : Type := {
  OPENAI_API_KEY : option jsstring;
  answer : nat -> ProviderAnswer;
  latency : nat -> N;
  lateness : nat -> N
}.

(** The module state [lastRequestTime], with the clock [Date.now()], the
    number of timers set so far, and the times at which the provider
    requests were issued, oldest first. *)
Record State : Type := {
  lastRequestTime : Z;
  now : Z;
  timers : nat;
  issued : list Z
}.

(** [await new Promise(resolve => setTimeout(resolve, ms))] *)
Definition delay (E : Provider) (ms : Z) (s : State) : State :=
  {| lastRequestTime := lastRequestTime s;
     now := now s + Z.max ms 0 + Z.of_N (lateness E (timers s));
     timers := S (timers s);
     issued := issued s |}.

(** [waitForRateLimit()] *)
Definition waitForRateLimit (E : Provider) (s : State) : State :=
  let timeSinceLastRequest := (now s - lastRequestTime s)%Z in
  let s1 :=
    if (timeSinceLastRequest <? MIN_REQUEST_INTERVAL)%Z
    then delay E (MIN_REQUEST_INTERVAL - timeSinceLastRequest) s
    else s in
  {| lastRequestTime := now s1;
     now := now s1;
     timers := timers s1;
     issued := issued s1 |}.

(** The opening fence at the start of a line: three backticks and an
    optional [html], flags [g] and [m]. *)
Definition re_open_fence : regex :=
  Seq (Bol true) (Seq (Lit [backtick; backtick; backtick]) (Opt (Lit (js "html")))).

(** The closing fence at the end of a line, flags [g] and [m]. *)
Definition re_close_fence : regex :=
  Seq (Lit [backtick; backtick; backtick]) (Eol true).

(** One backtick at the start or at the end of the input, flag [g]. *)
Definition re_edge_backtick : regex :=
  Alt (Seq (Bol false) (Lit [backtick])) (Seq (Lit [backtick]) (Eol false)).

(** [cleanGeneratedCode(code)] *)
Definition cleanGeneratedCode (code : jsstring) : jsstring :=
  trim (remove_all re_edge_backtick
          (remove_all re_close_fence
             (remove_all re_open_fence code))).

Record AIPromptResponse : Type := {
  html : jsstring;
  error : option jsstring
}.

(** The body of the [try] block up to the generated text: the rate limiter,
    the client, the request.  The payload of the request is built from the
    prompt and the style; the provider answers as [answer E] says.  The code
    between the rate limiter and the request does not wait, so the request
    is issued at the time the rate limiter has recorded; the clock advances
    while the request is pending. *)
Definition request (E : Provider) (errorText : jsstring) (s : State)
  : State * completion jsstring :=
  let s1 := waitForRateLimit E s in
  if negb (otruthy (OPENAI_API_KEY E)) then
    (s1, Throw (js "OpenAI API key is not configured"))
  else
    let n := length (issued s1) in
    let s2 := {| lastRequestTime := lastRequestTime s1;
                 now := now s1 + Z.of_N (latency E n);
                 timers := timers s1;
                 issued := issued s1 ++ [now s1] |} in
    match answer E n with
    | Rejected message => (s2, Throw message)
    | Completed (Some (c :: generatedCode)) => (s2, Return (c :: generatedCode))
    | Completed _ => (s2, Throw errorText)
    end.

Definition isRetryable (message : jsstring) : bool :=
  includes message (js "rate_limit")
  || includes message (js "timeout")
  || includes message (js "network")
  || includes message (js "internal_error").

(** How the [while] loop ends: a [return] from the [try] block, or the end
    of the loop with [lastError]. *)
Inductive LoopEnd : Type :=
| Generated (generatedCode : jsstring)
| Failed (lastError : option jsstring).

(** The [while (retries < MAX_RETRIES)] loop of [generateLandingPage]. *)
Fixpoint generate_loop (fuel : nat) (E : Provider) (retries : nat)
    (lastError : option jsstring) (s : State) : State * LoopEnd :=
  match fuel with
  | O => (s, Failed lastError)
  | S f =>
      if MAX_RETRIES <=? retries then (s, Failed lastError)
      else
        match request E (js "Failed to generate landing page content") s with
        | (s1, Return generatedCode) => (s1, Generated generatedCode)
        | (s1, Throw message) =>
            if negb (isRetryable message) then (s1, Failed (Some message))
            else
              let retries := retries + 1 in
              if retries <? MAX_RETRIES
              then generate_loop f E retries (Some message)
                     (delay E (RETRY_DELAY * Z.of_nat retries) s1)
              else generate_loop f E retries (Some message) s1
        end
  end.

(** [generateLandingPage(prompt, style)] of the variant with
    [cleanGeneratedCode]. *)
Definition generateLandingPage (E : Provider) (prompt : jsstring)
    (style : option WebsiteStyle) (s : State) : State * AIPromptResponse :=
  match generate_loop (S MAX_RETRIES) E 0 None s with
  | (s', Generated generatedCode) =>
      (s', {| html := cleanGeneratedCode generatedCode; error := None |})
  | (s', Failed lastError) =>
      (s', {| html := [];
              error := Some (or_else lastError (js "Failed to generate content")) |})
  end.

(** The [while (retries < MAX_RETRIES)] loop of [updateLandingPage]: of the
    errors, only a rate-limit error is tried again. *)
Fixpoint update_loop (fuel : nat) (E : Provider) (retries : nat)
    (lastError : option jsstring) (s : State) : State * LoopEnd :=
  match fuel with
  | O => (s, Failed lastError)
  | S f =>
      if MAX_RETRIES <=? retries then (s, Failed lastError)
      else
        match request E (js "Failed to update landing page content") s with
        | (s1, Return generatedCode) => (s1, Generated generatedCode)
        | (s1, Throw message) =>
            if negb (includes message (js "rate_limit")) then (s1, Failed (Some message))
            else
              let retries := retries + 1 in
              if retries <? MAX_RETRIES
              then update_loop f E retries (Some message)
                     (delay E (RETRY_DELAY * Z.of_nat retries) s1)
              else update_loop f E retries (Some message) s1
        end
  end.

(** [updateLandingPage(prompt, style, currentHtml)] *)
Definition updateLandingPage (E : Provider) (prompt : jsstring)
    (style : option WebsiteStyle) (currentHtml : option jsstring) (s : State)
  : State * AIPromptResponse :=
  match update_loop (S MAX_RETRIES) E 0 None s with
  | (s', Generated generatedCode) =>
      (s', {| html := cleanGeneratedCode generatedCode; error := None |})
  | (s', Failed lastError) =>
      (s', {| html := [];
              error := Some (or_else lastError (js "Failed to update content")) |})
  end.

(** *** Calls in flight together

    [generateLandingPage] is an [async] function.  Between two [await]s it
    runs without interruption; at an [await] of a timer or of the provider
    it is suspended, and other calls run.  The event loop resumes the
    suspended call whose timer or answer is due first. *)

(** Where a call is suspended, with its variables [retries] and
    [lastError]: in [waitForRateLimit] at the [await] of its timer, at the
    [await] of the answer to request [n], or at [await delay(...)]. *)
Inductive Suspended : Type :=
| InRateLimit (retries : nat) (lastError : option jsstring)
| InRequest (retries : nat) (lastError : option jsstring) (n : nat)
| InRetryDelay (retries : nat) (lastError : option jsstring).

(** A suspended call: when it is due, which call it is, and where it
    waits. *)
Record Pending : Type := {
  due : Z;
  caller : nat;
  point : Suspended
}.

(** The event loop: the module state and the clock, the suspended calls in
    the order in which they were suspended, and what the calls have
    returned, in the order of their returns. *)
Record Loop : Type := {
  state : State;
  pending : list Pending;
  returned : list (nat * AIPromptResponse)
}.

(** A call is suspended, leaving the state [s]. *)
Definition suspend (p : Pending) (s : State) (L : Loop) : Loop :=
  {| state := s; pending := pending L ++ [p]; returned := returned L |}.

Definition set_state (s : State) (L : Loop) : Loop :=
  {| state := s; pending := pending L; returned := returned L |}.

(** The call [id] returns [r]. *)
Definition return_ (id : nat) (r : AIPromptResponse) (L : Loop) : Loop :=
  {| state := state L; pending := pending L; returned := returned L ++ [(id, r)] |}.

(** The [return] after the loop. *)
Definition return_failure (id : nat) (lastError : option jsstring) (L : Loop) : Loop :=
  return_ id {| html := [];
                error := Some (or_else lastError (js "Failed to generate content")) |} L.

(** [await new Promise(resolve => setTimeout(resolve, ms))], up to the
    suspension. *)
Definition set_timer (E : Provider) (ms : Z) (id : nat) (k : Suspended) (L : Loop)
  : Loop :=
  let s := state L in
  suspend {| due := now s + Z.max ms 0 + Z.of_N (lateness E (timers s));
             caller := id; point := k |}
    {| lastRequestTime := lastRequestTime s; now := now s;
       timers := S (timers s); issued := issued s |} L.

(** The [catch] block, and the loop test after it. *)
Definition caught (E : Provider) (id : nat) (retries : nat) (message : jsstring)
    (L : Loop) : Loop :=
  if negb (isRetryable message) then return_failure id (Some message) L
  else
    let retries := retries + 1 in
    if retries <? MAX_RETRIES
    then set_timer E (RETRY_DELAY * Z.of_nat retries) id
           (InRetryDelay retries (Some message)) L
    else return_failure id (Some message) L.

(** The [try] block after [await waitForRateLimit()], up to the [await] of
    the provider. *)
Definition send (E : Provider) (id : nat) (retries : nat)
    (lastError : option jsstring) (L : Loop) : Loop :=
  if negb (otruthy (OPENAI_API_KEY E)) then
    caught E id retries (js "OpenAI API key is not configured") L
  else
    let s := state L in
    let n := length (issued s) in
    suspend {| due := now s + Z.of_N (latency E n); caller := id;
               point := InRequest retries lastError n |}
      {| lastRequestTime := lastRequestTime s; now := now s;
         timers := timers s; issued := issued s ++ [now s] |} L.

(** The last statement of [waitForRateLimit]. *)
Definition record_time (L : Loop) : Loop :=
  let s := state L in
  set_state {| lastRequestTime := now s; now := now s;
               timers := timers s; issued := issued s |} L.

(** The loop test and the [try] block up to the first suspension:
    [waitForRateLimit] reads the clock and [lastRequestTime], and either
    sets its timer or records the time at once.  In the second case the
    call goes on to its request in the same turn: the [await] of a
    [waitForRateLimit()] that has not waited resumes before any timer or
    answer, and a call that starts in between finds the time just recorded
    and sets its timer. *)
Definition enter (E : Provider) (id : nat) (retries : nat)
    (lastError : option jsstring) (L : Loop) : Loop :=
  if MAX_RETRIES <=? retries then return_failure id lastError L
  else
    let s := state L in
    let timeSinceLastRequest := (now s - lastRequestTime s)%Z in
    if (timeSinceLastRequest <? MIN_REQUEST_INTERVAL)%Z
    then set_timer E (MIN_REQUEST_INTERVAL - timeSinceLastRequest) id
           (InRateLimit retries lastError) L
    else send E id retries lastError (record_time L).

(** A suspended call runs on, up to its next suspension or its return. *)
Definition resume (E : Provider) (p : Pending) (L : Loop) : Loop :=
  match point p with
  | InRateLimit retries lastError =>
      send E (caller p) retries lastError (record_time L)
  | InRequest retries lastError n =>
      match answer E n with
      | Rejected message => caught E (caller p) retries message L
      | Completed (Some (c :: generatedCode)) =>
          return_ (caller p)
            {| html := cleanGeneratedCode (c :: generatedCode); error := None |} L
      | Completed _ =>
          caught E (caller p) retries (js "Failed to generate landing page content") L
      end
  | InRetryDelay retries lastError => enter E (caller p) retries lastError L
  end.

(** The suspended call that is due first, of those due at the same time
    the one suspended first, and the others. *)
Fixpoint next_due (l : list Pending) : option (Pending * list Pending) :=
  match l with
  | [] => None
  | p :: l' =>
      match next_due l' with
      | Some (q, rest) =>
          if (due q <? due p)%Z then Some (q, p :: rest) else Some (p, l')
      | None => Some (p, [])
      end
  end.

(** The event loop runs until no call is suspended; [fuel] bounds the
    number of resumptions. *)
Fixpoint run (fuel : nat) (E : Provider) (L : Loop) : Loop :=
  match fuel with
  | O => L
  | S f =>
      match next_due (pending L) with
      | None => L
      | Some (p, rest) =>
          let s := state L in
          run f E
            (resume E p
               {| state := {| lastRequestTime := lastRequestTime s;
                              now := Z.max (now s) (due p);
                              timers := timers s; issued := issued s |};
                  pending := rest;
                  returned := returned L |})
      end
  end.

(** Calls of [generateLandingPage] made one after the other in the same
    turn, none awaited before the next is made: every call runs up to its
    first suspension, then the event loop runs, long enough for every call
    to return. *)
Definition generateLandingPage_together (E : Provider)
    (calls : list (jsstring * option WebsiteStyle)) (s : State) : Loop :=
  run (4 * MAX_RETRIES * length calls) E
    (fold_left (fun L id => enter E id 0 None L) (seq 0 (length calls))
       {| state := s; pending := []; returned := [] |}).

(** [style?.f] *)
Definition field {A} (style : option WebsiteStyle) (f : WebsiteStyle -> option A)
  : option A :=
  match style with Some s => f s | None => None end.

(** [l?.[i]] *)
Definition item {A} (l : option (list A)) (i : nat) : option A :=
  match l with Some l => nth_error l i | None => None end.

Definition logo_tag (logo : option jsstring) : jsstring :=
  match logo with
  | Some (c :: l) =>
      js "<img src=" ++ dq ++ (c :: l) ++ dq ++ js " alt=" ++ dq ++ js "Logo" ++ dq
      ++ js " class=" ++ dq ++ js "logo" ++ dq ++ js ">"
  | _ => []
  end.

(** [l.map((x, i) => f i x)] *)
Definition mapi {A B} (f : nat -> A -> B) (l : list A) : list B :=
  map (fun p => f (fst p) (snd p)) (combine (seq 0 (length l)) l).

(** One entry of the features grid of the fallback template. *)
Definition feature_card (style : option WebsiteStyle) (i : nat) (img : jsstring)
  : jsstring :=
    nl ++
    js "            <div class=" ++ dq ++ js "feature" ++ dq ++ js ">" ++ nl ++
    js "                <img src=" ++ dq ++ img ++ dq ++ js " alt=" ++ dq ++ js "Feature " ++ (decimal (N.of_nat (i + 1))) ++ dq ++ js " loading=" ++ dq ++ js "lazy" ++ dq ++ js ">" ++ nl ++
    js "                <h3>" ++ (or_else (item (field style headings) (i + 2)) (js "Feature " ++ decimal (N.of_nat (i + 1)))) ++ js "</h3>" ++ nl ++
    js "                <p>Experience the power of innovation with our cutting-edge solutions.</p>" ++ nl ++
    js "            </div>" ++ nl ++
    js "            ".

(** [getFallbackTemplate(style)] *)
Definition getFallbackTemplate (style : option WebsiteStyle) : jsstring :=
  let primaryColor := or_else (item (field style colors) 0) (js "#4F46E5") in
  let textColor := or_else (item (field style colors) 1) (js "#1F2937") in
  let backgroundColor := or_else (item (field style colors) 2) (js "#F9FAFB") in
  let fontFamily :=
    or_else (item (field style fonts) 0) (js "system-ui, -apple-system, sans-serif") in
  let logo := field style logo in
  let images := match field style images with Some l => l | None => [] end in
  let headerStyle :=
    match option_map (fun s => headerStyles (styles s)) style with
    | Some (h :: _) => h
    | _ => {| hdr_fontSize := js "2.25rem"; hdr_fontWeight := js "700";
              hdr_color := js "#1F2937"; hdr_fontFamily := js "system-ui" |}
    end in
  let buttonStyle :=
    match option_map (fun s => buttonStyles (styles s)) style with
    | Some (b :: _) => b
    | _ => {| btn_backgroundColor := js "#4F46E5"; btn_color := js "#FFFFFF";
              btn_padding := js "0.75rem 1.5rem"; btn_borderRadius := js "0.375rem" |}
    end in
  let features := concat (mapi (feature_card style) (slice0 3 images)) in
  nl ++
  js "<!DOCTYPE html>" ++ nl ++
  js "<html lang=" ++ dq ++ js "en" ++ dq ++ js ">" ++ nl ++
  js "<head>" ++ nl ++
  js "    <meta charset=" ++ dq ++ js "UTF-8" ++ dq ++ js ">" ++ nl ++
  js "    <meta name=" ++ dq ++ js "viewport" ++ dq ++ js " content=" ++ dq ++ js "width=device-width, initial-scale=1.0" ++ dq ++ js ">" ++ nl ++
  js "    <meta name=" ++ dq ++ js "description" ++ dq ++ js " content=" ++ dq ++ (or_else (field style metaDescription) (js "Transform your business with our powerful solution")) ++ dq ++ js ">" ++ nl ++
  js "    <title>Welcome | Landing Page</title>" ++ nl ++
  js "    <style>" ++ nl ++
  js "        :root {" ++ nl ++
  js "            --primary-color: " ++ primaryColor ++ js ";" ++ nl ++
  js "            --text-color: " ++ textColor ++ js ";" ++ nl ++
  js "            --bg-color: " ++ backgroundColor ++ js ";" ++ nl ++
  js "        }" ++ nl ++
  js "        " ++ nl ++
  js "        * {" ++ nl ++
  js "            margin: 0;" ++ nl ++
  js "            padding: 0;" ++ nl ++
  js "            box-sizing: border-box;" ++ nl ++
  js "        }" ++ nl ++
  js "        " ++ nl ++
  js "        html {" ++ nl ++
  js "            scroll-behavior: smooth;" ++ nl ++
  js "        }" ++ nl ++
  js "        " ++ nl ++
  js "        body {" ++ nl ++
  js "            margin: 0;" ++ nl ++
  js "            font-family: " ++ fontFamily ++ js ";" ++ nl ++
  js "            color: var(--text-color);" ++ nl ++
  js "            background-color: var(--bg-color);" ++ nl ++
  js "            line-height: 1.5;" ++ nl ++
  js "        }" ++ nl ++
  js "        " ++ nl ++
  js "        .container {" ++ nl ++
  js "            max-width: " ++ (or_else (option_map (fun s => maxWidth (layout (styles s))) style) (js "1200px")) ++ js ";" ++ nl ++
  js "            margin: 0 auto;" ++ nl ++
  js "            padding: " ++ (or_else (option_map (fun s => containerPadding (layout (styles s))) style) (js "2rem")) ++ js ";" ++ nl ++
  js "        }" ++ nl ++
  js "        " ++ nl ++
  js "        .hero {" ++ nl ++
  js "            min-height: 80vh;" ++ nl ++
  js "            display: flex;" ++ nl ++
  js "            align-items: center;" ++ nl ++
  js "            text-align: center;" ++ nl ++
  js "            padding: 4rem 2rem;" ++ nl ++
  js "            background: " ++ (or_else (item (option_map (fun s => gradients (styles s)) style) 0) (js "transparent")) ++ js ";" ++ nl ++
  js "        }" ++ nl ++
  js "        " ++ nl ++
  js "        .hero h1 {" ++ nl ++
  js "            font-size: clamp(2rem, 5vw, " ++ (hdr_fontSize headerStyle) ++ js ");" ++ nl ++
  js "            font-weight: " ++ (hdr_fontWeight headerStyle) ++ js ";" ++ nl ++
  js "            color: " ++ (hdr_color headerStyle) ++ js ";" ++ nl ++
  js "            margin-bottom: 1.5rem;" ++ nl ++
  js "            line-height: 1.2;" ++ nl ++
  js "        }" ++ nl ++
  js "        " ++ nl ++
  js "        .hero p {" ++ nl ++
  js "            font-size: clamp(1rem, 2.5vw, 1.25rem);" ++ nl ++
  js "            margin-bottom: 2rem;" ++ nl ++
  js "            max-width: 600px;" ++ nl ++
  js "            margin-left: auto;" ++ nl ++
  js "            margin-right: auto;" ++ nl ++
  js "        }" ++ nl ++
  js "        " ++ nl ++
  js "        .button {" ++ nl ++
  js "            display: inline-block;" ++ nl ++
  js "            background-color: " ++ (btn_backgroundColor buttonStyle) ++ js ";" ++ nl ++
  js "            color: " ++ (btn_color buttonStyle) ++ js ";" ++ nl ++
  js "            padding: " ++ (btn_padding buttonStyle) ++ js ";" ++ nl ++
  js "            border-radius: " ++ (btn_borderRadius buttonStyle) ++ js ";" ++ nl ++
  js "            text-decoration: none;" ++ nl ++
  js "            transition: all 0.3s ease;" ++ nl ++
  js "            box-shadow: " ++ (or_else (item (option_map (fun s => shadows (styles s)) style) 0) (js "0 1px 3px rgba(0,0,0,0.1)")) ++ js ";" ++ nl ++
  js "        }" ++ nl ++
  js "        " ++ nl ++
  js "        .button:hover {" ++ nl ++
  js "            transform: translateY(-2px);" ++ nl ++
  js "            box-shadow: " ++ (or_else (item (option_map (fun s => shadows (styles s)) style) 1) (js "0 4px 6px rgba(0,0,0,0.1)")) ++ js ";" ++ nl ++
  js "        }" ++ nl ++
  js "        " ++ nl ++
  js "        .logo {" ++ nl ++
  js "            max-width: 200px;" ++ nl ++
  js "            margin-bottom: 2rem;" ++ nl ++
  js "            animation: fadeIn 1s ease-out;" ++ nl ++
  js "        }" ++ nl ++
  js "        " ++ nl ++
  js "        .features {" ++ nl ++
  js "            display: grid;" ++ nl ++
  js "            grid-template-columns: repeat(auto-fit, minmax(300px, 1fr));" ++ nl ++
  js "            gap: " ++ (or_else (option_map (fun s => gridGap (layout (styles s))) style) (js "2rem")) ++ js ";" ++ nl ++
  js "            padding: 4rem 0;" ++ nl ++
  js "        }" ++ nl ++
  js "        " ++ nl ++
  js "        .feature {" ++ nl ++
  js "            text-align: center;" ++ nl ++
  js "            padding: 2rem;" ++ nl ++
  js "            background: white;" ++ nl ++
  js "            border-radius: " ++ (or_else (item (option_map (fun s => borderRadius (styles s)) style) 0) (js "0.5rem")) ++ js ";" ++ nl ++
  js "            box-shadow: " ++ (or_else (item (option_map (fun s => shadows (styles s)) style) 0) (js "0 1px 3px rgba(0,0,0,0.1)")) ++ js ";" ++ nl ++
  js "            transition: transform 0.3s ease;" ++ nl ++
  js "        }" ++ nl ++
  js "        " ++ nl ++
  js "        .feature:hover {" ++ nl ++
  js "            transform: translateY(-5px);" ++ nl ++
  js "        }" ++ nl ++
  js "        " ++ nl ++
  js "        .feature img {" ++ nl ++
  js "            width: 100%;" ++ nl ++
  js "            max-width: 300px;" ++ nl ++
  js "            height: 200px;" ++ nl ++
  js "            object-fit: cover;" ++ nl ++
  js "            border-radius: " ++ (or_else (item (option_map (fun s => borderRadius (styles s)) style) 0) (js "0.5rem")) ++ js ";" ++ nl ++
  js "            margin-bottom: 1.5rem;" ++ nl ++
  js "        }" ++ nl ++
  js "        " ++ nl ++
  js "        @keyframes fadeIn {" ++ nl ++
  js "            from { opacity: 0; transform: translateY(20px); }" ++ nl ++
  js "            to { opacity: 1; transform: translateY(0); }" ++ nl ++
  js "        }" ++ nl ++
  js "        " ++ nl ++
  js "        @media (max-width: 768px) {" ++ nl ++
  js "            .hero {" ++ nl ++
  js "                min-height: 60vh;" ++ nl ++
  js "                padding: 2rem 1rem;" ++ nl ++
  js "            }" ++ nl ++
  js "            .features {" ++ nl ++
  js "                grid-template-columns: 1fr;" ++ nl ++
  js "                gap: 1.5rem;" ++ nl ++
  js "                padding: 2rem 0;" ++ nl ++
  js "            }" ++ nl ++
  js "        }" ++ nl ++
  js "    </style>" ++ nl ++
  js "</head>" ++ nl ++
  js "<body>" ++ nl ++
  js "    <div class=" ++ dq ++ js "hero" ++ dq ++ js ">" ++ nl ++
  js "        <div class=" ++ dq ++ js "container" ++ dq ++ js ">" ++ nl ++
  js "            " ++ (logo_tag logo) ++ nl ++
  js "            <h1>" ++ (or_else (item (field style headings) 0) (js "Transform Your Business Today")) ++ js "</h1>" ++ nl ++
  js "            <p>" ++ (or_else (item (field style headings) 1) (js "We're crafting the perfect solution to help your business grow. Stay tuned for our exciting launch.")) ++ js "</p>" ++ nl ++
  js "            <a href=" ++ dq ++ js "#contact" ++ dq ++ js " class=" ++ dq ++ js "button" ++ dq ++ js ">Get Started</a>" ++ nl ++
  js "        </div>" ++ nl ++
  js "    </div>" ++ nl ++
  js "    " ++ nl ++
  js "    <div class=" ++ dq ++ js "container" ++ dq ++ js ">" ++ nl ++
  js "        <div class=" ++ dq ++ js "features" ++ dq ++ js ">" ++ nl ++
  js "            " ++ features ++ nl ++
  js "        </div>" ++ nl ++
  js "    </div>" ++ nl ++
  js "</body>" ++ nl ++
  js "</html>".

End AI.

Module AICss.

Record AIPromptResponse : Type := {
  html : jsstring;
  css : jsstring;
  error : option jsstring
}.

(** [getFallbackTemplate(prompt, style)]: the prompt is not used. *)
Definition getFallbackTemplate (prompt : jsstring) (style : option WebsiteStyle)
  : jsstring :=
  AI.getFallbackTemplate style.

(** [generateLandingPage(prompt, style)] of the variant with the [css]
    field: the same loop, the generated text as it is, and the fallback
    template when the loop ends without one. *)
Definition generateLandingPage (E : AI.Provider) (prompt : jsstring)
    (style : option WebsiteStyle) (s : AI.State) : AI.State * AIPromptResponse :=
  match AI.generate_loop (S AI.MAX_RETRIES) E 0 None s with
  | (s', AI.Generated generatedCode) =>
      (s', {| html := generatedCode; css := []; error := None |})
  | (s', AI.Failed lastError) =>
      (s', {| html := getFallbackTemplate prompt style;
              css := [];
              error := Some (or_else lastError (js "Failed to generate content")) |})
  end.

End AICss.

(* ================================================================== *)
(** ** Predicates of the statements *)
(* ================================================================== *)

(** An absolute URL string starts with a scheme: a letter, then letters,
    digits, [+], [-] or [.], then a colon. *)
Definition isAlpha (c : cu) : bool :=
  ((N.leb 65 c && N.leb c 90) || (N.leb 97 c && N.leb c 122))%N.

Definition isSchemeChar (c : cu) : bool :=
  isAlpha c || isDigit c || one_of [43; 45; 46]%N c.

Fixpoint scheme_rest (s : jsstring) : bool :=
  match s with
  | [] => false
  | c :: s' => if N.eqb c 58 then true
               else if isSchemeChar c then scheme_rest s' else false
  end.

Definition hasScheme (s : jsstring) : bool :=
  match s with
  | c :: s' => isAlpha c && scheme_rest s'
  | [] => false
  end.

(** An absolute [http:] or [https:] URL string. *)
Definition isHttpUrl (s : jsstring) : bool :=
  startsWith s (js "http://") || startsWith s (js "https://").

(** A [data:] URL string. *)
Definition isDataUrl (s : jsstring) : bool := startsWith s (js "data:").

(** Consecutive times of a list are at least [gap] apart. *)
Fixpoint spaced (gap : Z) (l : list Z) : Prop :=
  match l with
  | a :: ((b :: _) as l') => (a + gap <= b)%Z /\ spaced gap l'
  | _ => True
  end.

(** The number of page fetches of a trace. *)
Definition fetches (evs : list Scraper.Event) : nat :=
  length (filter (fun e => match e with Scraper.EvFetch _ => true | _ => false end) evs).

(** The trace of a request that fails [k] times and stops at attempt [k]:
    before the retry number [n] a delay of [2000 * n] milliseconds. *)
Fixpoint schedule (k : nat) : list Scraper.Event :=
  match k with
  | O => [Scraper.EvFetch 0]
  | S j => schedule j ++ [Scraper.EvSleep (2000 * Z.of_nat (S j)); Scraper.EvFetch (S j)]
  end.

(** A string is clean at its start when it does not begin with white
    space. *)
Definition clean_start (s : jsstring) : Prop :=
  match s with
  | [] => True
  | c :: _ => isWhiteSpace c = false
  end.






(** A URL of the Unsplash image host, as the adapter tests it. *)
Definition isUnsplashUrl (u : jsstring) : bool := includes u (js "images.unsplash.com").

(** The number of calls of [ensureStorageBucket()] the logo takes. *)
Definition logo_calls (P : Platform) (logo : option jsstring) : nat :=
  match logo with
  | Some (c :: s) => if Storage.awaits_bucket P (c :: s) then 1 else 0
  | _ => 0
  end.

(** The jobs that wait for the storage service, in the order in which they
    were started. *)
Definition awaited (jobs : list Storage.ImageJob) : list (N * option jsstring) :=
  flat_map (fun job => match Storage.settles job with
                       | Some t => [(t, Storage.storedUrl job)]
                       | None => []
                       end) jobs.

(** What a job returns: nothing, or a non-empty URL that its
    [downloadAndStoreImage] returned for one of the images; an Unsplash URL
    exactly when the job does not wait for the storage service. *)
Definition job_of (P : Platform) (projectId : jsstring) (urls : list jsstring)
    (job : Storage.ImageJob) : Prop :=
  Storage.storedUrl job = None
  \/ exists v Q url,
       Storage.storedUrl job = Some v /\ v <> []
       /\ In url urls
       /\ Storage.downloadAndStoreImage Q url projectId = Some v
       /\ (forall b, with_bucket Q b = with_bucket P b)
       /\ isUnsplashUrl v = match Storage.settles job with None => true | Some _ => false end.

(** What holds of a URL the adapter has returned. *)
Definition kept_url (P : Platform) (v : jsstring) : Prop :=
  v <> [] /\ isDataUrl v = false
  /\ (forall b projectId',
        isUnsplashUrl v = true \/ Storage.ensureStorageBucket (b 0) = true ->
        Storage.downloadAndStoreImage (with_bucket P b) v projectId' = Some v)
  /\ (forall b projectId' r,
        Storage.downloadAndStoreImage (with_bucket P b) v projectId' = Some r -> r = v).

(** The array of an optional array field, empty when it is absent. *)
Definition entries {A} (o : option (list A)) : list A :=
  match o with Some l => l | None => [] end.


(** Time passes while no generation call is in progress. *)
Definition idle (d : N) (s : AI.State) : AI.State :=
  {| AI.lastRequestTime := AI.lastRequestTime s;
     AI.now := AI.now s + Z.of_N d;
     AI.timers := AI.timers s;
     AI.issued := AI.issued s |}.

(** The requests a run adds to the record: they are [MIN_REQUEST_INTERVAL]
    apart, the first of them that long after the time recorded before the
    run, and none is later than the time recorded at its end. *)
Definition adds (s s' : AI.State) (l : list Z) : Prop :=
  AI.issued s' = AI.issued s ++ l
  /\ spaced AI.MIN_REQUEST_INTERVAL l
  /\ Forall (fun t => (AI.lastRequestTime s + AI.MIN_REQUEST_INTERVAL <= t
                       /\ t <= AI.lastRequestTime s')%Z) l
  /\ (AI.lastRequestTime s <= AI.lastRequestTime s')%Z.

Section EventLoopPredicates.
Import AI.

(** The response of a call whose loop ended. *)
Definition response (e : LoopEnd) : AIPromptResponse :=
  match e with
  | Generated generatedCode =>
      {| html := cleanGeneratedCode generatedCode; error := None |}
  | Failed lastError =>
      {| html := []; error := Some (or_else lastError (js "Failed to generate content")) |}
  end.

(** [request] after its pass through the rate limiter. *)
Definition request_after (E : Provider) (errorText : jsstring) (s1 : State)
  : State * completion jsstring :=
  if negb (otruthy (OPENAI_API_KEY E)) then
    (s1, Throw (js "OpenAI API key is not configured"))
  else
    let n := length (issued s1) in
    let s2 := {| lastRequestTime := lastRequestTime s1;
                 now := now s1 + Z.of_N (latency E n);
                 timers := timers s1;
                 issued := issued s1 ++ [now s1] |} in
    match answer E n with
    | Rejected message => (s2, Throw message)
    | Completed (Some (c :: generatedCode)) => (s2, Return (c :: generatedCode))
    | Completed _ => (s2, Throw errorText)
    end.

(** A pass of the loop after the rate limiter. *)
Definition pass_after (f : nat) (E : Provider) (retries : nat) (s1 : State)
  : State * LoopEnd :=
  match request_after E (js "Failed to generate landing page content") s1 with
  | (s2, Return generatedCode) => (s2, Generated generatedCode)
  | (s2, Throw message) =>
      if negb (isRetryable message) then (s2, Failed (Some message))
      else if retries + 1 <? MAX_RETRIES
           then generate_loop f E (retries + 1) (Some message)
                  (delay E (RETRY_DELAY * Z.of_nat (retries + 1)) s2)
           else generate_loop f E (retries + 1) (Some message) s2
  end.

(** A call that is alone in the event loop does what the loop of
    [generateLandingPage] does, with fuel for [f] passes. *)
Definition alone (E : Provider) (id : nat) (f : nat) : Prop :=
  forall fuel retries lastError s r0,
    MAX_RETRIES - retries <= f -> 3 * f <= fuel ->
    run fuel E (enter E id retries lastError
                  {| state := s; pending := []; returned := r0 |})
    = {| state := fst (generate_loop (S f) E retries lastError s);
         pending := [];
         returned := r0 ++ [(id, response (snd (generate_loop (S f) E retries lastError s)))] |}.

(** No step of the event loop takes a request back. *)
Definition extends (L L' : Loop) : Prop :=
  exists rest, issued (state L') = issued (state L) ++ rest.

(** A bound on the number of times a suspended call is resumed before it
    returns. *)
Definition resumptions (k : Suspended) : nat :=
  match k with
  | InRateLimit retries _ => 3 * (MAX_RETRIES - retries) + 3
  | InRequest retries _ _ => 3 * (MAX_RETRIES - retries) + 2
  | InRetryDelay retries _ => 3 * (MAX_RETRIES - retries) + 4
  end.

Definition resumptions_left (l : list Pending) : nat :=
  list_sum (map (fun p => resumptions (point p)) l).

(** A step of a call: it is suspended again, nearer to its return, or it
    returns. *)
Definition advances (id bound : nat) (L L' : Loop) : Prop :=
  (exists q, pending L' = pending L ++ [q] /\ resumptions (point q) < bound
             /\ caller q = id /\ returned L' = returned L)
  \/ (exists r, pending L' = pending L /\ returned L' = returned L ++ [(id, r)]).

End EventLoopPredicates.

(** A continuation is reached on a rest of the input only. *)
Definition reaches (k : kont) (s : jsstring) (res : mres) : Prop :=
  exists prev' s' caps', k prev' s' caps' = Some res /\ length s' <= length s.

(** The stylesheets a call of [fetchExternalStylesheet] on [styleUrl]
    recurses into. *)
Definition sheet_imports (P : Platform) (styleUrl baseUrl : jsstring) : list jsstring :=
  match Scraper.stylesheet_text P styleUrl baseUrl with
  | Some css => Scraper.importUrls css
  | None => []
  end.

(** The stylesheets reached from a stylesheet through its imports, itself
    included. *)
Inductive imports_from (P : Platform) (baseUrl : jsstring)
  : jsstring -> jsstring -> Prop :=
| imports_self (u : jsstring) : imports_from P baseUrl u u
| imports_step (u v w : jsstring) :
    In v (sheet_imports P u baseUrl) ->
    imports_from P baseUrl v w ->
    imports_from P baseUrl u w.

(** What a call returns, when it returns. *)
Definition resolved_sheet (P : Platform) (baseUrl styleUrl r : jsstring) : Prop :=
  match Scraper.stylesheet_text P styleUrl baseUrl with
  | None => r = []
  | Some css =>
      startsWith r css = true
      /\ (Scraper.importUrls css = [] -> r = css)
      /\ exists importedStyles,
           length importedStyles = length (Scraper.importUrls css)
           /\ (Scraper.importUrls css <> [] -> r = join nl (css :: importedStyles))
  end
  /\ forall w css,
       imports_from P baseUrl styleUrl w ->
       Scraper.stylesheet_text P w baseUrl = Some css ->
       includes r css = true.

(** [a] is [b] with some code units left out. *)
Inductive subsequence : jsstring -> jsstring -> Prop :=
| sub_nil : subsequence [] []
| sub_keep (c : cu) (a b : jsstring) : subsequence a b -> subsequence (c :: a) (c :: b)
| sub_drop (c : cu) (a b : jsstring) : subsequence a b -> subsequence a (c :: b).

(** A continuation is reached on a suffix of the input. *)
Definition reaches_suffix (k : kont) (s : jsstring) (res : mres) : Prop :=
  exists prev' s' caps' pre, k prev' s' caps' = Some res /\ s = pre ++ s'.

(** A hexadecimal color: [#] and three to six hexadecimal digits. *)
Definition isHexColor (c : jsstring) : bool :=
  match c with
  | h :: ds =>
      N.eqb h 35 && forallb isHex ds && (3 <=? length ds) && (length ds <=? 6)
  | [] => false
  end.

(** A call [name(args)] with arguments that are not empty and hold no closing
    parenthesis. *)
Definition isCall (name c : jsstring) : bool :=
  startsWith c (name ++ js "(")
  && match rev (skipn (length (name ++ js "(")) c) with
     | close :: args =>
         N.eqb close 41 && truthy args && forallb (none_of [41]%N) args
     | [] => false
     end.

(** A color literal of the kinds [extractColors] looks for. *)
Definition isColorLiteral (c : jsstring) : bool :=
  isHexColor c || isCall (js "rgb") c || isCall (js "rgba") c.

(** The host of the web container [resolveUrl] looks for. *)
Definition webcontainer_host : jsstring := js "local-credentialless.webcontainer-api.io".

(** A font name as the style blocks give it: no quote, no comma. *)
Definition isPlainName (f : jsstring) : bool :=
  forallb (fun c => negb (Scraper.quote c) && negb (N.eqb c 44)) f.

(** The generic families [extractFonts] leaves out. *)
Definition genericFamilies : list jsstring :=
  [js "inherit"; js "system-ui"; js "-apple-system"; js "sans-serif"; js "serif";
   js "monospace"].

(** The rows of the [assets] table by their type. *)
Definition is_image_row (r : AssetRow) : bool :=
  match asset_type r with asset_image => true | _ => false end.

Definition is_logo_row (r : AssetRow) : bool :=
  match asset_type r with asset_logo => true | _ => false end.

(** The time a trace spends in back-off delays, in milliseconds. *)
Definition backoff (evs : list Scraper.Event) : Z :=
  fold_right (fun e acc => match e with
                           | Scraper.EvSleep ms => (ms + acc)%Z
                           | Scraper.EvFetch _ => acc
                           end) 0%Z evs.

(** The trace of a request that starts at attempt [r] and stops [k] attempts
    later. *)
Fixpoint schedule_from (r k : nat) : list Scraper.Event :=
  match k with
  | O => [Scraper.EvFetch r]
  | S j => Scraper.EvFetch r :: Scraper.EvSleep (2000 * (Z.of_nat r + 1))
             :: schedule_from (S r) j
  end.

(* ================================================================== *)
(** ** Example platforms and documents *)
(* ================================================================== *)

Module Fixtures.

(** A storage service that lists the bucket [project-assets], and one that
    cannot be reached. *)
Definition bucket_found : BucketCall :=
  {| listBuckets := ListBuckets (Some [js "avatars"; js "project-assets"]);
     createBucket := CreateBucket None;
     settled_ms := 120 |}.

Definition bucket_unreachable : BucketCall :=
  {| listBuckets := ListBucketsThrows;
     createBucket := CreateBucketThrows;
     settled_ms := 120 |}.

Definition lower_ascii (s : jsstring) : jsstring :=
  map (fun c => if (N.leb 65 c && N.leb c 90)%N then (c + 32)%N else c) s.

Fixpoint take_until (p : cu -> bool) (s : jsstring) : jsstring :=
  match s with
  | c :: s' => if p c then [] else c :: take_until p s'
  | [] => []
  end.

Fixpoint drop_until (p : cu -> bool) (s : jsstring) : jsstring :=
  match s with
  | c :: s' => if p c then s else drop_until p s'
  | [] => []
  end.

(** The directory of a path: the path up to its last slash. *)
Definition dirname (path : jsstring) : jsstring :=
  rev (drop_until (only 47%N) (rev path)).

(** An absolute URL string in its parts: scheme, host (after [//]) and the
    rest; the path is [/] when it is empty. *)
Definition parse_absolute (u : jsstring) : jsstring * option jsstring * jsstring :=
  let scheme := take_until (only 58%N) u in
  let rest := skipn 1 (drop_until (only 58%N) u) in
  if startsWith rest (js "//") then
    let hostpath := skipn 2 rest in
    let host := take_until (only 47%N) hostpath in
    let path := drop_until (only 47%N) hostpath in
    (scheme, Some host, match path with [] => js "/" | _ => path end)
  else (scheme, None, rest).

Definition serialize (parts : jsstring * option jsstring * jsstring) : URL :=
  let '(scheme, host, path) := parts in
  {| href := scheme ++ js ":"
             ++ match host with Some h => js "//" ++ h | None => [] end ++ path;
     pathname := take_until (one_of [63; 35]%N) path |}.

(** A reference [URL] constructor for the examples.  It is exact on the
    URLs the examples use: absolute URLs of the form [scheme://host/path]
    and [scheme:path] with scheme and host in lower case, and relative paths
    without dot segments, resolved against the directory of the base
    (against its root when they start with a slash). *)
Definition URL_model (u : jsstring) (base : option jsstring) : option URL :=
  if hasScheme u then Some (serialize (parse_absolute u))
  else
    match base with
    | Some b =>
        if hasScheme b then
          match parse_absolute b with
          | (scheme, Some host, path) =>
              let dir := dirname (take_until (one_of [63; 35]%N) path) in
              match u with
              | [] => Some (serialize (scheme, Some host, path))
              | c :: _ =>
                  if N.eqb c 47 then Some (serialize (scheme, Some host, u))
                  else Some (serialize (scheme, Some host, dir ++ u))
              end
          | _ => None
          end
        else None
    | None => None
    end.

(** A document given by the table of its selector queries. *)
Definition document (table : list (jsstring * list Element)) (base : jsstring)
  : Document :=
  {| querySelectorAll := fun sel =>
       match find (fun row => str_eqb (fst row) sel) table with
       | Some row => snd row
       | None => []
       end;
     baseURI := base |}.

Definition element (attributes : list (jsstring * jsstring)) : Element :=
  {| attrs := attributes; textContent := []; style_backgroundImage := [];
     isHTMLElement := true |}.

(** A platform whose proxy answers every page request with [page], parses
    every page as [doc] and answers stylesheet requests as [sheets] says. *)
Definition platform (page : nat -> Response) (doc : Document)
    (sheets : jsstring -> Response) : Platform :=
  {| URL_new := URL_model;
     toLowerCase := lower_ascii;
     parseFromString := fun _ => doc;
     selector_error := fun _ => None;
     outerHTML_inlined := fun _ styleContent => js "<style>" ++ styleContent ++ js "</style>";
     SCRAPINGBEE_API_KEY := Some (js "test-key");
     fetch_page := fun _ _ n => page n;
     fetch_sheet := sheets;
     bucket_call := fun _ => bucket_found;
     elapsed_ms := 1200 |}.

Definition app_base : jsstring := js "http://localhost:5173/".
Definition site : jsstring := js "https://example.com".
Definition project : jsstring := js "p1".

Definition no_sheets : jsstring -> Response := fun _ => Http 404 [].

(** A page without any style: [<p class=note style=margin:0>hello</p>]. *)
Definition plain_doc : Document :=
  document
    [ (js "[style], [class]",
       [element [(js "class", js "note"); (js "style", js "margin: 0")]]);
      (js "*", [element []; element []; element [];
                element [(js "class", js "note"); (js "style", js "margin: 0")]]) ]
    app_base.

(** The proxy reports an exhausted quota. *)
Definition quota_platform : Platform :=
  platform (fun _ => Http 401 (js "API calls limit reached")) plain_doc no_sheets.

(** The proxy fails twice with a server error, then reports the quota. *)
Definition flaky_platform : Platform :=
  platform (fun n => if n <? 2 then Http 500 (js "upstream")
                     else Http 401 (js "API calls limit reached"))
           plain_doc no_sheets.

(** A page whose hero image is served over [ftp:]:
    [<div class=hero><img src=ftp://files.example.com/hero.png></div>]. *)
Definition ftp_img : Element :=
  element [(js "src", js "ftp://files.example.com/hero.png")].

Definition ftp_doc : Document :=
  document
    [ (js ".hero img", [ftp_img]);
      (Scraper.quoted (js "[class*=") (js "hero") (js "] img"), [ftp_img]);
      (js "img", [ftp_img]);
      (js "[style], [class]", [element [(js "class", js "hero")]]);
      (js "*", [element []; element []; element [];
                element [(js "class", js "hero")]; ftp_img]) ]
    app_base.

Definition ftp_platform : Platform :=
  platform (fun _ => Http 200 (js "<html>...</html>")) ftp_doc no_sheets.





(** A page with a logo and five images,
    [<header><img src=https://example.com/brand-logo.svg></header>] and
    [<section><img src=https://example.com/photo/N.jpg?size=large></section>],
    the first of them in the hero region; the platform below has no storage
    bucket, so that the persistence adapter rejects them all. *)
Definition logo_img : Element :=
  element [(js "src", js "https://example.com/brand-logo.svg")].

Definition jpg (n : string) : Element :=
  element [(js "src", js "https://example.com/photo/" ++ js n ++ js ".jpg?size=large")].

Definition jpg_doc : Document :=
  document
    [ (js ".hero img", [jpg "1"]);
      (js "section img", [jpg "1"; jpg "2"; jpg "3"; jpg "4"; jpg "5"]);
      (Scraper.quoted (js "header img[src*=") (js "logo") (js "]"), [logo_img]);
      (js "img", [logo_img; jpg "1"; jpg "2"; jpg "3"; jpg "4"; jpg "5"]) ]
    app_base.

Definition gallery_platform : Platform :=
  {| URL_new := URL_model;
     toLowerCase := lower_ascii;
     parseFromString := fun _ => jpg_doc;
     selector_error := fun _ => None;
     outerHTML_inlined := fun _ styleContent => styleContent;
     SCRAPINGBEE_API_KEY := Some (js "test-key");
     fetch_page := fun _ _ _ => Http 200 (js "<html>...</html>");
     fetch_sheet := no_sheets;
     bucket_call := fun _ => bucket_unreachable;
     elapsed_ms := 1200 |}.





(** A chain of eight stylesheets: [0.css] imports [1.css], and so on up to
    [7.css], which imports nothing. *)
Definition chain_url (n : N) : jsstring :=
  js "http://cdn.example.com/" ++ decimal n ++ js ".css".

Definition chain_css (n : N) : jsstring :=
  if N.ltb n 7
  then js "@import " ++ dq ++ chain_url (n + 1) ++ dq ++ js ";"
  else js "body{margin:0}".

Definition chain_platform : Platform :=
  platform (fun _ => Http 200 (js "<html>...</html>")) plain_doc
    (fun u =>
       match find (fun n => str_eqb u (chain_url n)) [0; 1; 2; 3; 4; 5; 6; 7]%N with
       | Some n => Http 200 (chain_css n)
       | None => Http 404 []
       end).

(** The absolute URL [fetchExternalStylesheet] requests for [styleUrl],
    with the application as base. *)
Definition chain_full (styleUrl : jsstring) : jsstring :=
  if startsWith styleUrl (js "http") then styleUrl
  else match URL_model styleUrl (Some app_base) with
       | Some r => href r
       | None => []
       end.

(** How far a stylesheet is from the end of the chain. *)
Definition chain_rank (styleUrl : jsstring) : nat :=
  match find (fun n => str_eqb (chain_full styleUrl) (chain_url n))
             [0; 1; 2; 3; 4; 5; 6; 7]%N with
  | Some n => 7 - N.to_nat n
  | None => 0
  end.

(** A provider that answers every request with a rate-limit error. *)
Definition busy_provider : AI.Provider :=
  {| AI.OPENAI_API_KEY := Some (js "test-key");
     AI.answer := fun _ => AI.Rejected (js "429 rate_limit_exceeded");
     AI.latency := fun _ => 300%N;
     AI.lateness := fun _ => 2%N |}.

(** A provider that answers every request with a page. *)
Definition ready_provider : AI.Provider :=
  {| AI.OPENAI_API_KEY := Some (js "test-key");
     AI.answer := fun _ => AI.Completed (Some (js "<p>x</p>"));
     AI.latency := fun _ => 300%N;
     AI.lateness := fun _ => 2%N |}.

(** The state of the module when it is loaded, at time [t]. *)
Definition start (t : Z) : AI.State :=
  {| AI.lastRequestTime := 0; AI.now := t; AI.timers := 0; AI.issued := [] |}.

(** The state of the module five seconds after a request. *)
Definition after_request : AI.State :=
  {| AI.lastRequestTime := 1000000; AI.now := 1005000;
     AI.timers := 0; AI.issued := [1000000%Z] |}.

Definition fence : jsstring := [backtick; backtick; backtick].

(** The fenced answer of the specification's example. *)
Definition fenced_page : jsstring :=
  fence ++ js "html" ++ nl ++ js "<p>x</p>" ++ nl ++ fence.

(** A provider without API key. *)
Definition keyless_provider : AI.Provider :=
  {| AI.OPENAI_API_KEY := None;
     AI.answer := fun _ => AI.Completed (Some (js "<p>x</p>"));
     AI.latency := fun _ => 300%N;
     AI.lateness := fun _ => 2%N |}.

(** A provider that rejects every request for its key. *)
Definition refusing_provider : AI.Provider :=
  {| AI.OPENAI_API_KEY := Some (js "test-key");
     AI.answer := fun _ => AI.Rejected (js "401 invalid_api_key");
     AI.latency := fun _ => 300%N;
     AI.lateness := fun _ => 2%N |}.

(** A provider that completes every request without content. *)
Definition silent_provider : AI.Provider :=
  {| AI.OPENAI_API_KEY := Some (js "test-key");
     AI.answer := fun _ => AI.Completed None;
     AI.latency := fun _ => 300%N;
     AI.lateness := fun _ => 2%N |}.

(** A provider that answers with a time-out, then with a rate-limit error,
    then with a fenced page. *)
Definition recovering_provider : AI.Provider :=
  {| AI.OPENAI_API_KEY := Some (js "test-key");
     AI.answer := fun n =>
       match n with
       | 0 => AI.Rejected (js "Request timeout")
       | 1 => AI.Rejected (js "429 rate_limit_exceeded")
       | _ => AI.Completed (Some fenced_page)
       end;
     AI.latency := fun _ => 300%N;
     AI.lateness := fun _ => 2%N |}.

(** A page with the logo of the brand in its header and the logo of a partner
    in an element of class [logo]. *)
Definition brand_doc : Document :=
  document
    [ (Scraper.quoted (js "header img[src*=") (js "acme") (js "]"),
       [element [(js "src", js "https://example.com/acme.svg")]]);
      (js ".logo img",
       [element [(js "src", js "https://example.com/partner-logo.png")]]) ]
    app_base.

(** A platform whose selector parser rejects a selector in which a double
    quote stands between an [a] and a [b], the way a quoted attribute value
    that holds a double quote is rejected. *)
Definition strict_platform : Platform :=
  {| URL_new := URL_model;
     toLowerCase := lower_ascii;
     parseFromString := fun _ => brand_doc;
     selector_error := fun sel =>
       if includes sel (js "a" ++ dq ++ js "b")
       then Some (js "Failed to execute 'querySelector' on 'Document'")
       else None;
     outerHTML_inlined := fun _ styleContent => styleContent;
     SCRAPINGBEE_API_KEY := Some (js "test-key");
     fetch_page := fun _ _ _ => Http 200 (js "<html>...</html>");
     fetch_sheet := no_sheets;
     bucket_call := fun _ => bucket_found;
     elapsed_ms := 1200 |}.

(** A platform without an API key for the proxy. *)
Definition keyless_platform : Platform :=
  {| URL_new := URL_model;
     toLowerCase := lower_ascii;
     parseFromString := fun _ => plain_doc;
     selector_error := fun _ => None;
     outerHTML_inlined := fun _ styleContent => styleContent;
     SCRAPINGBEE_API_KEY := None;
     fetch_page := fun _ _ _ => Http 200 (js "<html>...</html>");
     fetch_sheet := no_sheets;
     bucket_call := fun _ => bucket_found;
     elapsed_ms := 1200 |}.

(** A page that links a stylesheet the server does not have. *)
Definition unstyled_doc : Document :=
  document
    [ (Scraper.sel_stylesheet_links,
       [element [(js "href", js "/missing.css")]]) ]
    app_base.

(** The proxy answers with that page; no stylesheet can be loaded. *)
Definition unstyled_platform : Platform :=
  platform (fun _ => Http 200 (js "<html>...</html>")) unstyled_doc
    no_sheets.

End Fixtures.

(* ================================================================== *)
(** ** Properties *)
(* ================================================================== *)

Unset Implicit Arguments.

(** *** Strings *)

Lemma startsWith_app (p s : jsstring) : startsWith (p ++ s) p = true.
Proof.
  induction p as [|c p IH]; simpl; [reflexivity|].
  now rewrite N.eqb_refl, IH.
Qed.

Lemma trimStart_app_clean (a b : jsstring) (c : cu) :
  isWhiteSpace c = false -> trimStart (a ++ c :: b) = trimStart a ++ c :: b.
Proof.
  intros Hc. induction a as [|x a IH]; simpl.
  - now rewrite Hc.
  - destruct (isWhiteSpace x); [exact IH | reflexivity].
Qed.

Lemma trimStart_idem (s : jsstring) : trimStart (trimStart s) = trimStart s.
Proof.
  induction s as [|c s IH]; simpl; [reflexivity|].
  destruct (isWhiteSpace c) eqn:E; [exact IH|].
  simpl. now rewrite E.
Qed.

Lemma clean_start_trimStart (s : jsstring) : clean_start (trimStart s).
Proof.
  induction s as [|c s IH]; simpl; [exact I|].
  destruct (isWhiteSpace c) eqn:E; [exact IH | exact E].
Qed.

Lemma trimStart_clean (s : jsstring) : clean_start s -> trimStart s = s.
Proof.
  destruct s as [|c s]; simpl; [reflexivity|]. now intros ->.
Qed.

Lemma clean_start_trimEnd (s : jsstring) : clean_start s -> clean_start (trimEnd s).
Proof.
  destruct s as [|c s]; simpl; intros Hc; [exact I|].
  unfold trimEnd. simpl rev.
  rewrite (trimStart_app_clean (rev s) [] c Hc), rev_app_distr. simpl. exact Hc.
Qed.

Lemma trimEnd_idem (s : jsstring) : trimEnd (trimEnd s) = trimEnd s.
Proof.
  unfold trimEnd. now rewrite rev_involutive, trimStart_idem.
Qed.

Lemma trim_idem (s : jsstring) : trim (trim s) = trim s.
Proof.
  unfold trim.
  rewrite (trimStart_clean (trimEnd (trimStart s))).
  - apply trimEnd_idem.
  - apply clean_start_trimEnd, clean_start_trimStart.
Qed.

(** *** The matcher consumes its input *)

Lemma lit_match_length (l : jsstring) :
  forall prev s prev' s',
    lit_match l prev s = Some (prev', s') -> length s' <= length s.
Proof.
  induction l as [|x l IH]; intros prev s prev' s'; cbn [lit_match].
  - intros H. injection H as _ <-. lia.
  - destruct s as [|y s]; [discriminate|].
    destruct (N.eqb x y); [|discriminate].
    intros H. apply IH in H. cbn [length]. lia.
Qed.

Lemma rep_match_length (p : cu -> bool) (k : kont) (res : mres) :
  forall s min max prev caps,
    rep_match p min max prev s caps k = Some res -> reaches k s res.
Proof.
  induction s as [|c s IH]; intros min max prev caps; cbn [rep_match].
  - destruct min; [|discriminate]. intros H.
    exists prev, [], caps. split; [exact H | lia].
  - assert (Hstop : match min with
                    | 0 => k prev (c :: s) caps
                    | S _ => None
                    end = Some res -> reaches k (c :: s) res).
    { destruct min; [|discriminate]. intros H.
      exists prev, (c :: s), caps. split; [exact H | lia]. }
    destruct (p c && max_allows max); [|exact Hstop].
    destruct (rep_match p (pred min) (option_map pred max) (Some c) s caps k) eqn:E;
      [|exact Hstop].
    intros H. injection H as <-.
    destruct (IH _ _ _ _ E) as [prev' [s' [caps' [Hk Hl]]]].
    exists prev', s', caps'. split; [exact Hk | cbn [length]; lia].
Qed.

Lemma rmatch_length (r : regex) :
  forall prev s caps k res,
    rmatch r prev s caps k = Some res -> reaches k s res.
Proof.
  induction r as [p|l|r1 IH1 r2 IH2|r1 IH1 r2 IH2|p min max|r1 IH1|r1 IH1|m|m];
    intros prev s caps k res; cbn [rmatch].
  - destruct s as [|c s]; [discriminate|].
    destruct (p c); [|discriminate]. intros H.
    exists (Some c), s, caps. split; [exact H | cbn [length]; lia].
  - destruct (lit_match l prev s) as [[prev' s']|] eqn:E; [|discriminate].
    intros H. exists prev', s', caps. split; [exact H|].
    exact (lit_match_length l prev s prev' s' E).
  - intros H. apply IH1 in H. destruct H as [prev1 [s1 [caps1 [H Hl1]]]].
    apply IH2 in H. destruct H as [prev2 [s2 [caps2 [H Hl2]]]].
    exists prev2, s2, caps2. split; [exact H | lia].
  - destruct (rmatch r1 prev s caps k) eqn:E.
    + intros H. injection H as <-. exact (IH1 _ _ _ _ _ E).
    + apply IH2.
  - apply rep_match_length.
  - destruct (rmatch r1 prev s caps k) eqn:E.
    + intros H. injection H as <-. exact (IH1 _ _ _ _ _ E).
    + intros H. exists prev, s, caps. split; [exact H | lia].
  - intros H. apply IH1 in H. destruct H as [prev1 [s1 [caps1 [H Hl1]]]].
    exists prev1, s1, (caps1 ++ [firstn (length s - length s1) s]).
    split; [exact H | exact Hl1].
  - destruct prev as [c|].
    + destruct (m && isLineTerminator c); [|discriminate].
      intros H. exists (Some c), s, caps. split; [exact H | lia].
    + intros H. exists None, s, caps. split; [exact H | lia].
  - destruct s as [|c s].
    + intros H. exists prev, [], caps. split; [exact H | lia].
    + destruct (m && isLineTerminator c); [|discriminate].
      intros H. exists prev, (c :: s), caps. split; [exact H | lia].
Qed.

Lemma match_here_length (r : regex) (prev : option cu) (s : jsstring)
    (caps : list jsstring) (rest : jsstring) :
  match_here r prev s = Some (caps, rest) -> length rest <= length s.
Proof.
  unfold match_here. intros H. apply rmatch_length in H.
  destruct H as [prev' [s' [caps' [H Hl]]]]. now injection H as _ <-.
Qed.

Lemma matched_text_nonempty (s rest : jsstring) (c : cu) (m : jsstring) :
  matched_text s rest = c :: m -> length rest < length s.
Proof.
  unfold matched_text. intros H.
  destruct (length s - length rest) eqn:E; [discriminate | lia].
Qed.

(** The bound on the number of steps of a global removal is never reached:
    with [length s + 1] steps or more the result is the same. *)
Lemma remove_all_from_enough (r : regex) :
  forall fuel1 fuel2 prev s,
    length s < fuel1 -> length s < fuel2 ->
    remove_all_from fuel1 r prev s = remove_all_from fuel2 r prev s.
Proof.
  induction fuel1 as [|f1 IH]; intros fuel2 prev s H1 H2; [lia|].
  destruct fuel2 as [|f2]; [lia|].
  cbn [remove_all_from].
  destruct (match_here r prev s) as [[caps rest]|] eqn:E.
  - cbv zeta. destruct (matched_text s rest) as [|c m] eqn:Em.
    + destruct s as [|x s]; [reflexivity|].
      f_equal. apply IH; cbn [length] in *; lia.
    + apply matched_text_nonempty in Em. apply IH; lia.
  - destruct s as [|x s]; [reflexivity|].
    f_equal. apply IH; cbn [length] in *; lia.
Qed.

Lemma match_all_from_enough (r : regex) :
  forall fuel1 fuel2 prev s,
    length s < fuel1 -> length s < fuel2 ->
    match_all_from fuel1 r prev s = match_all_from fuel2 r prev s.
Proof.
  induction fuel1 as [|f1 IH]; intros fuel2 prev s H1 H2; [lia|].
  destruct fuel2 as [|f2]; [lia|].
  cbn [match_all_from].
  destruct (match_here r prev s) as [[caps rest]|] eqn:E.
  - cbv zeta. destruct (matched_text s rest) as [|c m] eqn:Em.
    + destruct s as [|x s]; [reflexivity|].
      f_equal. apply IH; cbn [length] in *; lia.
    + apply matched_text_nonempty in Em. f_equal. apply IH; lia.
  - destruct s as [|x s]; [reflexivity|].
    apply IH; cbn [length] in *; lia.
Qed.

(** *** The embedding on small inputs *)

Example colors_of_a_declaration :
  Scraper.color_literals
    (js "color: #fff; background: rgba(0, 0, 0, 0.5); border-color: #1234567")
  = [js "#fff"; js "rgba(0, 0, 0, 0.5)"; js "#123456"].
Proof. vm_compute. reflexivity. Qed.

Example fonts_of_a_stylesheet :
  Scraper.css_fonts (js "body{font-family: Inter, sans-serif} code{font-family:monospace}")
  = [js "Inter"].
Proof. vm_compute. reflexivity. Qed.

Example imports_of_a_stylesheet :
  Scraper.importUrls (js "@import 'a.css'; @import url(b.css); @import url('c.css');")
  = [js "a.css"; js "c.css"].
Proof. vm_compute. reflexivity. Qed.

Example image_extension_test :
  test Scraper.re_image_ext (js "hero.JPEG?w=800") = true
  /\ test Scraper.re_image_ext (js "hero.jpg.txt") = false.
Proof. vm_compute. split; reflexivity. Qed.

Example parseInt_of_a_width :
  parseInt (js " 600px") = Some 600%Z /\ parseInt (js "wide") = None.
Proof. vm_compute. split; reflexivity. Qed.

Example inline_code_is_unwrapped :
  AI.cleanGeneratedCode (backtick :: js "<p>x</p>" ++ [backtick]) = js "<p>x</p>".
Proof. vm_compute. reflexivity. Qed.

Example a_generated_page_is_returned :
  snd (AI.generateLandingPage Fixtures.ready_provider (js "a bakery") None
         (Fixtures.start 1700000000000))
  = {| AI.html := js "<p>x</p>"; AI.error := None |}.
Proof. vm_compute. reflexivity. Qed.

(** *** Regular expressions that begin with a literal *)










(** *** C9 *)

(** C9. For every base URL, [resolveUrl] turns the protocol-relative URL
    [//cdn.x.com/a.png] into [https://cdn.x.com/a.png], and it returns the
    empty string for every input that starts with [data:]. *)
Theorem resolveUrl_protocol_relative_and_data (P : Platform) (base : jsstring) :
  Scraper.resolveUrl P base (js "//cdn.x.com/a.png") = js "https://cdn.x.com/a.png"
  /\ (forall rest, Scraper.resolveUrl P base (js "data:" ++ rest) = []).
Proof.
  split.
  - reflexivity.
  - intros rest. unfold Scraper.resolveUrl.
    change (js "data:" ++ rest) with (100 :: 97 :: 116 :: 97 :: 58 :: rest)%N.
    reflexivity.
Qed.

(** *** C5 *)




(** *** C6 *)

(** C6. On a document without any color literal [extractColors] returns
    the empty list, not the default palette: the right operand of [||] is
    never taken, because an empty array is truthy. *)
Theorem extractColors_without_colors_is_empty :
  Scraper.extractColors Fixtures.plain_doc = []
  /\ Scraper.default_colors <> [].
Proof.
  split; [vm_compute; reflexivity | discriminate].
Qed.

Lemma flat_map_nil {A B} (f : A -> list B) (l : list A) :
  (forall x, In x l -> f x = []) -> flat_map f l = [].
Proof.
  induction l as [|x l IH]; intros H; [reflexivity|].
  cbn [flat_map]. rewrite (H x (or_introl eq_refl)), IH; [reflexivity|].
  intros y Hy. apply H. now right.
Qed.

(** The same on every document: when neither a [style] attribute nor a
    style block holds a color literal, [extractColors] returns the empty
    list. *)
Lemma extractColors_empty_without_literal (doc : Document) :
  (forall el style,
     In el (querySelectorAll doc (js "[style], [class]")) ->
     getAttribute el (js "style") = Some style ->
     Scraper.color_literals style = []) ->
  (forall styleEl,
     In styleEl (querySelectorAll doc (js "style")) ->
     Scraper.color_literals (textContent styleEl) = []) ->
  Scraper.extractColors doc = [].
Proof.
  intros Ha Hs. unfold Scraper.extractColors, Scraper.array_or.
  rewrite (flat_map_nil _ (querySelectorAll doc (js "[style], [class]"))).
  - rewrite (flat_map_nil _ (querySelectorAll doc (js "style")) Hs). reflexivity.
  - intros el Hel. destruct (getAttribute el (js "style")) as [[|c st]|] eqn:E;
      try reflexivity.
    exact (Ha el (c :: st) Hel E).
Qed.

(** On the page without color literal the orchestrator puts the default
    palette in the profile it returns, while the log row counts no color:
    the merge in [scrapeWebsite] tests the length of what [extractColors]
    returned. *)
Lemma scrapeWebsite_merges_default_colors :
  let P := Fixtures.platform (fun _ => Http 200 (js "<html>...</html>"))
             Fixtures.plain_doc Fixtures.no_sheets in
  exists run log,
    Scraper.scrapeWebsite 1 P Fixtures.site Fixtures.project None = Some run
    /\ Scraper.logs run = [log]
    /\ colors (Scraper.profile run) = Some Scraper.default_colors
    /\ Scraper.found_colors (Scraper.assets_found log) = 0.
Proof.
  eexists. eexists. split; [vm_compute; reflexivity|]. repeat split.
Qed.

(** *** The rendering proxy client *)

Lemma str_eqb_eq (a b : jsstring) : str_eqb a b = true <-> a = b.
Proof.
  revert b. induction a as [|x a IH]; intros [|y b]; simpl; split;
    try reflexivity; try discriminate.
  - intros H. apply andb_true_iff in H. destruct H as [H1 H2].
    apply N.eqb_eq in H1. apply IH in H2. now subst.
  - intros H. injection H as -> ->. rewrite N.eqb_refl. simpl. now apply IH.
Qed.

Lemma str_eqb_neq (a b : jsstring) : a <> b -> str_eqb a b = false.
Proof.
  intros H. destruct (str_eqb a b) eqn:E; [|reflexivity].
  apply str_eqb_eq in E. contradiction.
Qed.

Lemma str_eqb_refl (a : jsstring) : str_eqb a a = true.
Proof. now apply str_eqb_eq. Qed.

Section ProxyClient.

Variable P : Platform.
Variables (url : jsstring) (withJs : bool).
Hypothesis key_configured : otruthy (SCRAPINGBEE_API_KEY P) = true.
Hypothesis url_valid : Scraper.validateUrl P (trim url) = true.

Local Abbreviation attempt := (Scraper.fetch_text P (trim url) withJs).

Lemma request_once_throw (f k : nat) (m : jsstring) :
  attempt k = Throw m ->
  Scraper.request_once f P (trim url) withJs k = Some (Throw m).
Proof.
  unfold Scraper.request_once. now intros ->.
Qed.

Lemma request_unfold (f r : nat) :
  Scraper.makeScrapingBeeRequest (S f) P url withJs r =
  match Scraper.request_once f P (trim url) withJs r with
  | None => None
  | Some (Return html) => Some (Return html, [Scraper.EvFetch r])
  | Some (Throw message) =>
      if str_eqb message Scraper.API_LIMIT_REACHED then
        Some (Throw message, [Scraper.EvFetch r])
      else if r <? 2 then
        match Scraper.makeScrapingBeeRequest f P url withJs (r + 1) with
        | None => None
        | Some (c, evs) =>
            Some (c, Scraper.EvFetch r
                       :: Scraper.EvSleep (2000 * (Z.of_nat r + 1)) :: evs)
        end
      else Some (Throw message, [Scraper.EvFetch r])
  end.
Proof.
  cbn [Scraper.makeScrapingBeeRequest].
  now rewrite key_configured, url_valid.
Qed.

(** The quota error leaves at once. *)
Lemma quota_step (f r : nat) :
  attempt r = Throw Scraper.API_LIMIT_REACHED ->
  Scraper.makeScrapingBeeRequest (S f) P url withJs r
  = Some (Throw Scraper.API_LIMIT_REACHED, [Scraper.EvFetch r]).
Proof.
  intros H. rewrite request_unfold, (request_once_throw f r _ H).
  now rewrite str_eqb_refl.
Qed.

(** Another error before the second retry: a delay, then the next
    attempt. *)
Lemma retry_step (f r : nat) (m : jsstring) :
  attempt r = Throw m -> m <> Scraper.API_LIMIT_REACHED -> r < 2 ->
  Scraper.makeScrapingBeeRequest (S f) P url withJs r =
  match Scraper.makeScrapingBeeRequest f P url withJs (S r) with
  | None => None
  | Some (c, evs) =>
      Some (c, Scraper.EvFetch r :: Scraper.EvSleep (2000 * (Z.of_nat r + 1)) :: evs)
  end.
Proof.
  intros H Hm Hr. rewrite request_unfold, (request_once_throw f r _ H).
  rewrite (str_eqb_neq _ _ Hm).
  apply Nat.ltb_lt in Hr. now rewrite Hr, Nat.add_1_r.
Qed.

(** An error at the last attempt leaves. *)
Lemma last_step (f r : nat) (m : jsstring) :
  attempt r = Throw m -> 2 <= r ->
  Scraper.makeScrapingBeeRequest (S f) P url withJs r
  = Some (Throw m, [Scraper.EvFetch r]).
Proof.
  intros H Hr. rewrite request_unfold, (request_once_throw f r _ H).
  destruct (str_eqb m Scraper.API_LIMIT_REACHED); [reflexivity|].
  apply Nat.ltb_ge in Hr. now rewrite Hr.
Qed.

Lemma quota_after_failures (k fuel : nat) :
  k <= 2 -> k < fuel ->
  (forall j, j < k ->
     exists m, attempt j = Throw m /\ m <> Scraper.API_LIMIT_REACHED) ->
  attempt k = Throw Scraper.API_LIMIT_REACHED ->
  Scraper.makeScrapingBeeRequest fuel P url withJs 0
  = Some (Throw Scraper.API_LIMIT_REACHED, schedule k).
Proof.
  intros Hk Hf Hbefore Hq.
  destruct k as [|[|[|k]]]; [| | |lia].
  - destruct fuel as [|f]; [lia|]. now rewrite (quota_step f 0 Hq).
  - destruct fuel as [|[|f]]; try lia.
    destruct (Hbefore 0) as [m0 [H0 N0]]; [lia|].
    rewrite (retry_step _ 0 m0 H0 N0); [|lia].
    now rewrite (quota_step f 1 Hq).
  - destruct fuel as [|[|[|f]]]; try lia.
    destruct (Hbefore 0) as [m0 [H0 N0]]; [lia|].
    destruct (Hbefore 1) as [m1 [H1 N1]]; [lia|].
    rewrite (retry_step _ 0 m0 H0 N0); [|lia].
    rewrite (retry_step _ 1 m1 H1 N1); [|lia].
    now rewrite (quota_step f 2 Hq).
Qed.

Lemma three_failures (m0 m1 m2 : jsstring) (fuel : nat) :
  3 <= fuel ->
  attempt 0 = Throw m0 -> attempt 1 = Throw m1 -> attempt 2 = Throw m2 ->
  m0 <> Scraper.API_LIMIT_REACHED -> m1 <> Scraper.API_LIMIT_REACHED ->
  Scraper.makeScrapingBeeRequest fuel P url withJs 0
  = Some (Throw m2, schedule 2).
Proof.
  intros Hf H0 H1 H2 N0 N1.
  destruct fuel as [|[|[|f]]]; try lia.
  rewrite (retry_step _ 0 m0 H0 N0); [|lia].
  rewrite (retry_step _ 1 m1 H1 N1); [|lia].
  now rewrite (last_step f 2 m2 H2).
Qed.

End ProxyClient.

Lemma fetches_bound (P : Platform) (url : jsstring) (withJs : bool) :
  forall fuel r res evs,
    Scraper.makeScrapingBeeRequest fuel P url withJs r = Some (res, evs) ->
    fetches evs <= Nat.max 1 (3 - r).
Proof.
  induction fuel as [|f IH]; intros r res evs; [discriminate|].
  cbn [Scraper.makeScrapingBeeRequest].
  destruct (negb (otruthy (SCRAPINGBEE_API_KEY P))).
  { intros H. injection H as <- <-. unfold fetches; cbn [filter length]. lia. }
  destruct (negb (Scraper.validateUrl P (trim url))).
  { intros H. injection H as <- <-. unfold fetches; cbn [filter length]. lia. }
  destruct (Scraper.request_once f P (trim url) withJs r) as [[html|m]|]; [| |discriminate].
  { intros H. injection H as <- <-. unfold fetches; cbn [filter length]. lia. }
  destruct (str_eqb m Scraper.API_LIMIT_REACHED).
  { intros H. injection H as <- <-. unfold fetches; cbn [filter length]. lia. }
  destruct (r <? 2) eqn:Hr.
  - destruct (Scraper.makeScrapingBeeRequest f P url withJs (r + 1)) as [[c evs']|] eqn:E;
      [|discriminate].
    intros H. injection H as <- <-.
    apply IH in E. apply Nat.ltb_lt in Hr.
    unfold fetches in *. cbn [filter length]. lia.
  - intros H. injection H as <- <-. unfold fetches; cbn [filter length]. lia.
Qed.

(** *** C4 *)

(** C4. With a configured key and a well-formed URL: the quota error is
    thrown at the attempt where it occurs, whatever failed before, and no
    fetch follows it; three other failures in a row end with the third error
    after the delays of 2000 and 4000 milliseconds ([2000] times the number
    of the retry); no request fetches the page more than three times. *)
Theorem makeScrapingBeeRequest_retry_policy (P : Platform) (url : jsstring)
    (withJs : bool) :
  otruthy (SCRAPINGBEE_API_KEY P) = true ->
  Scraper.validateUrl P (trim url) = true ->
  let attempt k := Scraper.fetch_text P (trim url) withJs k in
  (forall k fuel,
     k <= 2 -> k < fuel ->
     (forall j, j < k ->
        exists m, attempt j = Throw m /\ m <> Scraper.API_LIMIT_REACHED) ->
     attempt k = Throw Scraper.API_LIMIT_REACHED ->
     Scraper.makeScrapingBeeRequest fuel P url withJs 0
     = Some (Throw Scraper.API_LIMIT_REACHED, schedule k))
  /\ (forall m0 m1 m2 fuel,
        3 <= fuel ->
        attempt 0 = Throw m0 -> attempt 1 = Throw m1 -> attempt 2 = Throw m2 ->
        m0 <> Scraper.API_LIMIT_REACHED -> m1 <> Scraper.API_LIMIT_REACHED ->
        Scraper.makeScrapingBeeRequest fuel P url withJs 0
        = Some (Throw m2,
                [Scraper.EvFetch 0; Scraper.EvSleep 2000; Scraper.EvFetch 1;
                 Scraper.EvSleep 4000; Scraper.EvFetch 2]))
  /\ (forall fuel res evs,
        Scraper.makeScrapingBeeRequest fuel P url withJs 0 = Some (res, evs) ->
        fetches evs <= 3).
Proof.
  intros Hkey Hurl attempt. repeat split.
  - intros k fuel. apply quota_after_failures; assumption.
  - intros m0 m1 m2 fuel. apply three_failures; assumption.
  - intros fuel res evs H. exact (fetches_bound P url withJs fuel 0 res evs H).
Qed.

(** A proxy that fails twice and then reports the quota: the third fetch is
    the last. *)
Lemma makeScrapingBeeRequest_retry_policy_witness :
  otruthy (SCRAPINGBEE_API_KEY Fixtures.flaky_platform) = true
  /\ Scraper.validateUrl Fixtures.flaky_platform (trim Fixtures.site) = true
  /\ Scraper.makeScrapingBeeRequest 3 Fixtures.flaky_platform Fixtures.site true 0
     = Some (Throw Scraper.API_LIMIT_REACHED, schedule 2).
Proof.
  split; [reflexivity|]. split; [reflexivity|].
  apply (proj1 (makeScrapingBeeRequest_retry_policy
                  Fixtures.flaky_platform Fixtures.site true eq_refl eq_refl) 2 3).
  - lia.
  - lia.
  - intros j Hj. destruct j as [|[|j]]; [| |lia].
    + eexists. split; [vm_compute; reflexivity | discriminate].
    + eexists. split; [vm_compute; reflexivity | discriminate].
  - reflexivity.
Defined.

(** *** The scrape orchestrator *)

Lemma scrapeWebsite_cases (P : Platform) (url projectId : jsstring)
    (brand : option jsstring) (fuel : nat) :
  Scraper.scrapeWebsite fuel P url projectId brand =
  match Scraper.scrape_try fuel P url projectId brand with
  | None => None
  | Some (Return (result, log, rows), evs) =>
      Some {| Scraper.profile := result; Scraper.logs := [log];
              Scraper.asset_rows := rows; Scraper.trace := evs |}
  | Some (Throw errorMessage, evs) =>
      Some {| Scraper.profile := Scraper.DEFAULT_STYLE;
              Scraper.logs := [Scraper.failure_log P url projectId errorMessage];
              Scraper.asset_rows := [];
              Scraper.trace := evs |}
  end.
Proof. reflexivity. Qed.

(** The [try] block throws exactly what the proxy client or [findLogo]
    throws. *)
Lemma scrape_try_request_throw (P : Platform) (url projectId : jsstring)
    (brand : option jsstring) (fuel : nat) (m : jsstring) (evs : list Scraper.Event) :
  Scraper.makeScrapingBeeRequest fuel P url true 0 = Some (Throw m, evs) ->
  Scraper.scrape_try fuel P url projectId brand = Some (Throw m, evs).
Proof. unfold Scraper.scrape_try. now intros ->. Qed.

Lemma failure_log_flags (P : Platform) (url projectId m : jsstring) :
  Scraper.success (Scraper.failure_log P url projectId m) = false
  /\ Scraper.using_default_styles (Scraper.failure_log P url projectId m) = true.
Proof.
  unfold Scraper.failure_log.
  destruct (str_eqb m Scraper.API_LIMIT_REACHED); split; reflexivity.
Qed.

(** The [catch] block on the quota error. *)
Lemma scrapeWebsite_when_limit_thrown (P : Platform) (url projectId : jsstring)
    (brand : option jsstring) (fuel : nat) (evs : list Scraper.Event) :
  Scraper.makeScrapingBeeRequest fuel P url true 0
    = Some (Throw Scraper.API_LIMIT_REACHED, evs) ->
  exists log,
    Scraper.scrapeWebsite fuel P url projectId brand
    = Some {| Scraper.profile := Scraper.DEFAULT_STYLE;
              Scraper.logs := [log];
              Scraper.asset_rows := [];
              Scraper.trace := evs |}
    /\ Scraper.success log = false
    /\ Scraper.using_default_styles log = true
    /\ Scraper.errors log
       = Some [js "API calls limit reached - using default styles"].
Proof.
  intros H.
  exists (Scraper.failure_log P url projectId Scraper.API_LIMIT_REACHED).
  rewrite scrapeWebsite_cases,
    (scrape_try_request_throw P url projectId brand fuel _ evs H).
  repeat split.
Qed.

(** The same in terms of the answers of the proxy. *)
Lemma scrapeWebsite_on_quota_answer (P : Platform) (url projectId : jsstring)
    (brand : option jsstring) (k fuel : nat) (body : jsstring) :
  otruthy (SCRAPINGBEE_API_KEY P) = true ->
  Scraper.validateUrl P (trim url) = true ->
  k <= 2 -> k < fuel ->
  (forall j, j < k ->
     exists m, Scraper.fetch_text P (trim url) true j = Throw m
               /\ m <> Scraper.API_LIMIT_REACHED) ->
  fetch_page P (trim url) true k = Http 401 body ->
  includes body (js "API calls limit reached") = true ->
  exists log,
    Scraper.scrapeWebsite fuel P url projectId brand
    = Some {| Scraper.profile := Scraper.DEFAULT_STYLE;
              Scraper.logs := [log];
              Scraper.asset_rows := [];
              Scraper.trace := schedule k |}
    /\ Scraper.success log = false
    /\ Scraper.using_default_styles log = true
    /\ Scraper.errors log
       = Some [js "API calls limit reached - using default styles"].
Proof.
  intros Hk Hv Hle Hlt Hbefore Hpage Hbody.
  assert (Hq : Scraper.fetch_text P (trim url) true k = Throw Scraper.API_LIMIT_REACHED).
  { unfold Scraper.fetch_text. rewrite Hpage, Hbody. reflexivity. }
  exact (scrapeWebsite_when_limit_thrown P url projectId brand fuel (schedule k)
           (quota_after_failures P url true Hk Hv k fuel Hle Hlt Hbefore Hq)).
Qed.

(** *** C2 *)

(** C2. When the rendering fetch fails with the quota condition,
    [scrapeWebsite] returns [DEFAULT_STYLE] itself and submits one log row,
    with [success = false] and [using_default_styles = true].  This holds
    whenever the proxy client throws [API_LIMIT_REACHED]; and it does, with
    a configured key and a well-formed URL, when the proxy answers an attempt
    with the status 401 and the quota message, at once or after other
    failures. *)
Theorem scrapeWebsite_quota_exhausted (P : Platform) (url projectId : jsstring)
    (brand : option jsstring) (fuel : nat) :
  (forall evs,
     Scraper.makeScrapingBeeRequest fuel P url true 0
       = Some (Throw Scraper.API_LIMIT_REACHED, evs) ->
     exists log,
       Scraper.scrapeWebsite fuel P url projectId brand
       = Some {| Scraper.profile := Scraper.DEFAULT_STYLE;
                 Scraper.logs := [log];
                 Scraper.asset_rows := [];
                 Scraper.trace := evs |}
       /\ Scraper.success log = false
       /\ Scraper.using_default_styles log = true
       /\ Scraper.errors log
          = Some [js "API calls limit reached - using default styles"])
  /\ (forall k body,
        otruthy (SCRAPINGBEE_API_KEY P) = true ->
        Scraper.validateUrl P (trim url) = true ->
        k <= 2 -> k < fuel ->
        (forall j, j < k ->
           exists m, Scraper.fetch_text P (trim url) true j = Throw m
                     /\ m <> Scraper.API_LIMIT_REACHED) ->
        fetch_page P (trim url) true k = Http 401 body ->
        includes body (js "API calls limit reached") = true ->
        exists log,
          Scraper.scrapeWebsite fuel P url projectId brand
          = Some {| Scraper.profile := Scraper.DEFAULT_STYLE;
                    Scraper.logs := [log];
                    Scraper.asset_rows := [];
                    Scraper.trace := schedule k |}
          /\ Scraper.success log = false
          /\ Scraper.using_default_styles log = true
          /\ Scraper.errors log
             = Some [js "API calls limit reached - using default styles"]).
Proof.
  split.
  - intros evs. apply scrapeWebsite_when_limit_thrown.
  - intros k body. apply scrapeWebsite_on_quota_answer.
Qed.

(** A proxy that reports the quota at once. *)
Lemma scrapeWebsite_quota_exhausted_witness :
  otruthy (SCRAPINGBEE_API_KEY Fixtures.quota_platform) = true
  /\ Scraper.validateUrl Fixtures.quota_platform (trim Fixtures.site) = true
  /\ fetch_page Fixtures.quota_platform (trim Fixtures.site) true 0
     = Http 401 (js "API calls limit reached")
  /\ exists log,
       Scraper.scrapeWebsite 1 Fixtures.quota_platform Fixtures.site
         Fixtures.project None
       = Some {| Scraper.profile := Scraper.DEFAULT_STYLE;
                 Scraper.logs := [log];
                 Scraper.asset_rows := [];
                 Scraper.trace := [Scraper.EvFetch 0] |}
       /\ Scraper.success log = false
       /\ Scraper.using_default_styles log = true
       /\ Scraper.errors log
          = Some [js "API calls limit reached - using default styles"].
Proof.
  split; [reflexivity|]. split; [reflexivity|]. split; [reflexivity|].
  apply (proj2 (scrapeWebsite_quota_exhausted Fixtures.quota_platform Fixtures.site
                  Fixtures.project None 1) 0 (js "API calls limit reached"));
    try reflexivity; try lia.
Defined.

(** *** Bounds and URL fields *)

Lemma In_firstn {A} (n : nat) (l : list A) (x : A) : In x (firstn n l) -> In x l.
Proof.
  revert l. induction n as [|n IH]; intros [|y l]; simpl; try tauto.
  intros [H|H]; [now left | right; now apply IH].
Qed.


Lemma startsWith_prefix (p s : jsstring) :
  startsWith s p = true -> exists rest, s = p ++ rest.
Proof.
  revert s. induction p as [|x p IH]; intros s H.
  - now exists s.
  - destruct s as [|y s]; [discriminate|]. simpl in H.
    apply andb_true_iff in H. destruct H as [H1 H2].
    apply N.eqb_eq in H1. subst y.
    destruct (IH s H2) as [rest ->]. now exists rest.
Qed.


Lemma protocol_relative_is_https (u : jsstring) :
  startsWith u (js "//") = true -> isHttpUrl (js "https:" ++ u) = true.
Proof.
  intros H. apply startsWith_prefix in H. destruct H as [rest ->]. reflexivity.
Qed.


Lemma findImages_length (P : Platform) (doc : Document) :
  length (Scraper.findImages P doc) <= 5.
Proof. unfold Scraper.findImages, slice0. apply firstn_le_length. Qed.

Lemma scraped_images_length (P : Platform) (url : jsstring) (doc : Document) :
  length (Scraper.scraped_images P url doc) <= 5.
Proof.
  unfold Scraper.scraped_images.
  eapply Nat.le_trans; [apply filter_length_le|].
  rewrite length_map. apply findImages_length.
Qed.

Lemma finalImages_length (P : Platform) (url : jsstring) (doc : Document) :
  length (Scraper.finalImages P url doc) = 5.
Proof.
  unfold Scraper.finalImages, slice0.
  pose proof (scraped_images_length P url doc) as H.
  rewrite length_firstn, length_app, length_skipn.
  change (length Scraper.FALLBACK_IMAGES) with 5. lia.
Qed.





Lemma extractColors_length (doc : Document) : length (Scraper.extractColors doc) <= 5.
Proof. unfold Scraper.extractColors, Scraper.array_or, slice0. apply firstn_le_length. Qed.

Lemma extractFonts_length (doc : Document) : length (Scraper.extractFonts doc) <= 3.
Proof. unfold Scraper.extractFonts, Scraper.array_or, slice0. apply firstn_le_length. Qed.


(** The profile of the success path. *)
Lemma scrape_try_success (P : Platform) (url projectId : jsstring)
    (brand : option jsstring) (fuel : nat) (result : WebsiteStyle)
    (log : Scraper.ScrapingLog) (rows : list AssetRow) (evs : list Scraper.Event) :
  Scraper.scrape_try fuel P url projectId brand = Some (Return (result, log, rows), evs) ->
  exists html logoUrl,
    Scraper.makeScrapingBeeRequest fuel P url true 0 = Some (Return html, evs)
    /\ Scraper.findLogo P (parseFromString P html) brand = Return logoUrl
    /\ let doc := parseFromString P html in
       let logo := Scraper.scraped_logo P url logoUrl in
       let final := Scraper.finalImages P url doc in
       let stored := Storage.storeProjectAssets P projectId final logo in
       result = {|
         colors := match Scraper.extractColors doc with
                   | [] => colors Scraper.DEFAULT_STYLE
                   | _ => Some (Scraper.extractColors doc)
                   end;
         fonts := match Scraper.extractFonts doc with
                  | [] => fonts Scraper.DEFAULT_STYLE
                  | _ => Some (Scraper.extractFonts doc)
                  end;
         images := Some final;
         logo := logo;
         metaDescription :=
           match querySelector doc Scraper.sel_meta_description with
           | Some meta => getAttribute meta (js "content")
           | None => None
           end;
         headings := headings Scraper.DEFAULT_STYLE;
         styles := styles Scraper.DEFAULT_STYLE |}
       /\ rows = snd stored
       /\ Scraper.success log = true
       /\ Scraper.using_default_styles log = false
       /\ Scraper.found_images (Scraper.assets_found log)
          = length (Storage.stored_images (fst stored))
       /\ Scraper.found_logo (Scraper.assets_found log)
          = otruthy (Storage.stored_logo (fst stored)).
Proof.
  unfold Scraper.scrape_try.
  destruct (Scraper.makeScrapingBeeRequest fuel P url true 0) as [[[html|m] evs']|];
    try discriminate.
  destruct (Scraper.findLogo P (parseFromString P html) brand) as [logoUrl|m] eqn:El;
    try discriminate.
  destruct (Storage.storeProjectAssets P projectId
              (Scraper.finalImages P url (parseFromString P html))
              (Scraper.scraped_logo P url logoUrl)) as [stored rows'] eqn:Es.
  intros H. injection H as <- <- <- <-.
  exists html, logoUrl. cbv zeta. rewrite Es. repeat split. exact El.
Qed.


(** *** The storage bucket does not reach the profile *)

Lemma all_ext {A B} (f g : A -> option B) (l : list A) :
  (forall x, f x = g x) -> Scraper.all f l = Scraper.all g l.
Proof.
  intros H. induction l as [|x l IH]; simpl; [reflexivity|].
  now rewrite H, IH.
Qed.

Lemma fetchExternalStylesheet_with_bucket (P : Platform) (b : nat -> BucketCall) :
  forall fuel styleUrl baseUrl,
    Scraper.fetchExternalStylesheet fuel (with_bucket P b) styleUrl baseUrl
    = Scraper.fetchExternalStylesheet fuel P styleUrl baseUrl.
Proof.
  induction fuel as [|f IH]; intros styleUrl baseUrl; [reflexivity|].
  cbn [Scraper.fetchExternalStylesheet].
  change (Scraper.stylesheet_text (with_bucket P b) styleUrl baseUrl)
    with (Scraper.stylesheet_text P styleUrl baseUrl).
  destruct (Scraper.stylesheet_text P styleUrl baseUrl) as [css|]; [|reflexivity].
  destruct (Scraper.importUrls css) as [|u urls]; [reflexivity|].
  now rewrite (all_ext _ _ (u :: urls) (fun x => IH x baseUrl)).
Qed.

Lemma request_once_with_bucket (P : Platform) (b : nat -> BucketCall) (fuel : nat)
    (cleanUrl : jsstring) (withJs : bool) (retryCount : nat) :
  Scraper.request_once fuel (with_bucket P b) cleanUrl withJs retryCount
  = Scraper.request_once fuel P cleanUrl withJs retryCount.
Proof.
  unfold Scraper.request_once.
  change (Scraper.fetch_text (with_bucket P b)) with (Scraper.fetch_text P).
  destruct (Scraper.fetch_text P cleanUrl withJs retryCount) as [html|m]; [|reflexivity].
  change (parseFromString (with_bucket P b)) with (parseFromString P).
  change (outerHTML_inlined (with_bucket P b)) with (outerHTML_inlined P).
  change (Scraper.resolveUrl (with_bucket P b)) with (Scraper.resolveUrl P).
  rewrite (all_ext _
             (fun link =>
                match getAttribute link (js "href") with
                | Some (c :: h) =>
                    Scraper.fetchExternalStylesheet fuel P
                      (Scraper.resolveUrl P cleanUrl (c :: h)) cleanUrl
                | _ => Some []
                end)).
  - reflexivity.
  - intros link. destruct (getAttribute link (js "href")) as [[|c h]|]; try reflexivity.
    apply fetchExternalStylesheet_with_bucket.
Qed.

Lemma makeScrapingBeeRequest_with_bucket (P : Platform) (b : nat -> BucketCall)
    (url : jsstring) (withJs : bool) :
  forall fuel retryCount,
    Scraper.makeScrapingBeeRequest fuel (with_bucket P b) url withJs retryCount
    = Scraper.makeScrapingBeeRequest fuel P url withJs retryCount.
Proof.
  induction fuel as [|f IH]; intros retryCount; [reflexivity|].
  cbn [Scraper.makeScrapingBeeRequest].
  change (SCRAPINGBEE_API_KEY (with_bucket P b)) with (SCRAPINGBEE_API_KEY P).
  change (Scraper.validateUrl (with_bucket P b)) with (Scraper.validateUrl P).
  now rewrite request_once_with_bucket, IH.
Qed.

Lemma first_brand_logo_src_with_bucket (P : Platform) (b : nat -> BucketCall)
    (doc : Document)
    (selectors : list jsstring) :
  Scraper.first_brand_logo_src (with_bucket P b) doc selectors
  = Scraper.first_brand_logo_src P doc selectors.
Proof.
  induction selectors as [|sel rest IH]; [reflexivity|].
  cbn [Scraper.first_brand_logo_src].
  change (selector_error (with_bucket P b)) with (selector_error P).
  now rewrite IH.
Qed.

Lemma findLogo_with_bucket (P : Platform) (b : nat -> BucketCall) (doc : Document)
    (brand : option jsstring) :
  Scraper.findLogo (with_bucket P b) doc brand = Scraper.findLogo P doc brand.
Proof.
  unfold Scraper.findLogo.
  change (Scraper.findLogo_generic (with_bucket P b)) with (Scraper.findLogo_generic P).
  change (Scraper.resolveUrl (with_bucket P b)) with (Scraper.resolveUrl P).
  change (toLowerCase (with_bucket P b)) with (toLowerCase P).
  destruct brand as [[|c br]|]; [reflexivity| |reflexivity].
  now rewrite first_brand_logo_src_with_bucket.
Qed.

(** The profile of the [try] block, whatever the state of the bucket. *)
Lemma scrape_try_profile_with_bucket (P : Platform) (b : nat -> BucketCall)
    (url projectId : jsstring) (brand : option jsstring) (fuel : nat)
    (result : WebsiteStyle) (log : Scraper.ScrapingLog) (rows : list AssetRow)
    (evs : list Scraper.Event) :
  Scraper.scrape_try fuel P url projectId brand = Some (Return (result, log, rows), evs) ->
  exists log' rows',
    Scraper.scrape_try fuel (with_bucket P b) url projectId brand
    = Some (Return (result, log', rows'), evs).
Proof.
  unfold Scraper.scrape_try.
  rewrite makeScrapingBeeRequest_with_bucket.
  destruct (Scraper.makeScrapingBeeRequest fuel P url true 0) as [[[html|m] evs']|];
    try discriminate.
  change (parseFromString (with_bucket P b)) with (parseFromString P).
  rewrite findLogo_with_bucket.
  destruct (Scraper.findLogo P (parseFromString P html) brand) as [logoUrl|m];
    try discriminate.
  change (Scraper.scraped_logo (with_bucket P b)) with (Scraper.scraped_logo P).
  change (Scraper.finalImages (with_bucket P b)) with (Scraper.finalImages P).
  destruct (Storage.storeProjectAssets P projectId _ _) as [stored rows0].
  destruct (Storage.storeProjectAssets (with_bucket P b) projectId _ _) as [stored' rows0'].
  intros H. injection H as <- <- <- <-.
  eexists. eexists. reflexivity.
Qed.

(** *** C10 *)

(** C10. On a run of [scrapeWebsite] that logs a success, the [images] and
    [logo] of the returned profile are [finalImages] and [logo] as computed
    before the persistence adapter runs; [finalImages] has five entries, so
    it is never the two-entry list the adapter substitutes; what the adapter
    returns is read for the [images] and [logo] counts of the log row only;
    and the returned profile is the same whatever the state of the storage
    bucket, on which the adapter's rejections depend. *)
Theorem scrapeWebsite_profile_before_adapter (P : Platform)
    (url projectId : jsstring) (brand : option jsstring) (fuel : nat)
    (run : Scraper.Run) (log : Scraper.ScrapingLog) :
  Scraper.scrapeWebsite fuel P url projectId brand = Some run ->
  Scraper.logs run = [log] ->
  Scraper.success log = true ->
  exists html logoUrl,
    Scraper.makeScrapingBeeRequest fuel P url true 0
      = Some (Return html, Scraper.trace run)
    /\ Scraper.findLogo P (parseFromString P html) brand = Return logoUrl
    /\ let doc := parseFromString P html in
       let logo_before := Scraper.scraped_logo P url logoUrl in
       let images_before := Scraper.finalImages P url doc in
       let stored := fst (Storage.storeProjectAssets P projectId images_before logo_before) in
       images (Scraper.profile run) = Some images_before
       /\ logo (Scraper.profile run) = logo_before
       /\ length images_before = 5
       /\ images_before <> Storage.FALLBACK_IMAGES
       /\ Scraper.found_images (Scraper.assets_found log)
          = length (Storage.stored_images stored)
       /\ Scraper.found_logo (Scraper.assets_found log)
          = otruthy (Storage.stored_logo stored)
       /\ (forall b,
             option_map Scraper.profile
               (Scraper.scrapeWebsite fuel (with_bucket P b) url projectId brand)
             = Some (Scraper.profile run)).
Proof.
  rewrite scrapeWebsite_cases.
  destruct (Scraper.scrape_try fuel P url projectId brand)
    as [[[[[result log0] rows]|m] evs]|] eqn:Et; try discriminate.
  - intros H Hl Hs. injection H as <-. cbn in Hl. injection Hl as ->.
    destruct (scrape_try_success P url projectId brand fuel result log rows evs Et)
      as [html [logoUrl [Hr [Hf H]]]].
    cbv zeta in H. destruct H as [Hres [_ [_ [_ [Hi Hg]]]]].
    exists html, logoUrl. cbv zeta. cbn [Scraper.profile Scraper.trace].
    split; [exact Hr|]. split; [exact Hf|].
    pose proof (finalImages_length P url (parseFromString P html)) as Hlen.
    repeat split.
    + now rewrite Hres.
    + now rewrite Hres.
    + exact Hlen.
    + intros E. rewrite E in Hlen. discriminate.
    + exact Hi.
    + exact Hg.
    + intros b. rewrite scrapeWebsite_cases.
      destruct (scrape_try_profile_with_bucket P b url projectId brand fuel
                  result log rows evs Et) as [log' [rows' ->]].
      reflexivity.
  - intros H Hl Hs. injection H as <-. cbn in Hl. injection Hl as <-.
    destruct (failure_log_flags P url projectId m) as [Hf _]. congruence.
Qed.

(** A page with five images and no storage bucket: the adapter rejects
    every image and counts its own two, the profile keeps the five. *)
Lemma scrapeWebsite_profile_before_adapter_witness :
  exists run log,
    Scraper.scrapeWebsite 1 Fixtures.gallery_platform Fixtures.site
      Fixtures.project None = Some run
    /\ Scraper.logs run = [log]
    /\ Scraper.success log = true
    /\ length (entries (images (Scraper.profile run))) = 5
    /\ Scraper.found_images (Scraper.assets_found log) = 2
    /\ (forall b,
          option_map Scraper.profile
            (Scraper.scrapeWebsite 1 (with_bucket Fixtures.gallery_platform b)
               Fixtures.site Fixtures.project None)
          = Some (Scraper.profile run)).
Proof.
  eexists. eexists.
  split; [vm_compute; reflexivity|].
  split; [reflexivity|].
  split; [reflexivity|].
  split; [reflexivity|].
  split; [reflexivity|].
  match goal with
  | |- forall b, _ = Some (Scraper.profile ?r) =>
      destruct (scrapeWebsite_profile_before_adapter Fixtures.gallery_platform
                  Fixtures.site Fixtures.project None 1 r
                  (hd (Scraper.failure_log Fixtures.gallery_platform [] [] [])
                      (Scraper.logs r)))
        as [html [logoUrl [_ [_ H]]]];
      [vm_compute; reflexivity | reflexivity | reflexivity |]
  end.
  cbv zeta in H. exact (proj2 (proj2 (proj2 (proj2 (proj2 (proj2 H)))))).
Defined.

(** *** C3 *)












(** *** C7 *)

Lemma all_total {A B} (f : A -> option B) (l : list A) :
  (forall x, In x l -> exists y, f x = Some y) ->
  exists ys, Scraper.all f l = Some ys.
Proof.
  induction l as [|x l IH]; intros H.
  - now exists [].
  - destruct (H x) as [y Hy]; [now left|].
    destruct IH as [ys Hys]; [intros z Hz; apply H; now right|].
    exists (y :: ys). simpl. now rewrite Hy, Hys.
Qed.

Lemma all_mono {A B} (f g : A -> option B) (l : list A) (ys : list B) :
  (forall x y, In x l -> f x = Some y -> g x = Some y) ->
  Scraper.all f l = Some ys -> Scraper.all g l = Some ys.
Proof.
  revert ys. induction l as [|x l IH]; intros ys H; simpl; [tauto|].
  destruct (f x) as [y|] eqn:Ef; [|discriminate].
  destruct (Scraper.all f l) as [zs|] eqn:El; [|discriminate].
  intros E. injection E as <-.
  rewrite (H x y (or_introl eq_refl) Ef).
  rewrite (IH zs); [reflexivity | | reflexivity].
  intros z w Hz. apply H. now right.
Qed.

(** More fuel does not change what a call returns. *)
Lemma fetchExternalStylesheet_mono (P : Platform) (baseUrl : jsstring) :
  forall fuel fuel' styleUrl css,
    fuel <= fuel' ->
    Scraper.fetchExternalStylesheet fuel P styleUrl baseUrl = Some css ->
    Scraper.fetchExternalStylesheet fuel' P styleUrl baseUrl = Some css.
Proof.
  induction fuel as [|f IH]; intros fuel' styleUrl css Hle; [discriminate|].
  destruct fuel' as [|f']; [lia|].
  cbn [Scraper.fetchExternalStylesheet].
  destruct (Scraper.stylesheet_text P styleUrl baseUrl) as [text|]; [|tauto].
  destruct (Scraper.importUrls text) as [|u urls]; [tauto|].
  destruct (Scraper.all _ (u :: urls)) as [imported|] eqn:Ea; [|discriminate].
  intros H.
  rewrite (all_mono
             (fun importUrl => Scraper.fetchExternalStylesheet f P importUrl baseUrl)
             (fun importUrl => Scraper.fetchExternalStylesheet f' P importUrl baseUrl)
             (u :: urls) imported); [exact H | | exact Ea].
  intros x y _. apply IH. lia.
Qed.



(** Along the chain of the example the rank decreases. *)
Lemma chain_sheet_decreases (full v : jsstring) (n : N) :
  find (fun n => str_eqb full (Fixtures.chain_url n)) [0; 1; 2; 3; 4; 5; 6; 7]%N = Some n ->
  In v (Scraper.importUrls (Fixtures.chain_css n)) ->
  Fixtures.chain_rank v < 7 - N.to_nat n.
Proof.
  intros Ef Hv. apply find_some in Ef. destruct Ef as [Hn _].
  simpl in Hn.
  repeat (destruct Hn as [<-|Hn];
          [vm_compute in Hv; destruct Hv as [<-|[]]; vm_compute; lia|]);
    try contradiction.
  destruct Hn as [<-|[]]. vm_compute in Hv. contradiction.
Qed.

Lemma chain_imports_decrease (u v : jsstring) :
  In v (sheet_imports Fixtures.chain_platform u Fixtures.app_base) ->
  Fixtures.chain_rank v < Fixtures.chain_rank u.
Proof.
  unfold sheet_imports, Scraper.stylesheet_text, Fixtures.chain_rank at 2,
    Fixtures.chain_full.
  change (URL_new Fixtures.chain_platform) with Fixtures.URL_model.
  destruct (startsWith u (js "http")).
  - change (fetch_sheet Fixtures.chain_platform u)
      with (match find (fun n => str_eqb u (Fixtures.chain_url n))
                       [0; 1; 2; 3; 4; 5; 6; 7]%N with
            | Some n => Http 200 (Fixtures.chain_css n)
            | None => Http 404 []
            end).
    destruct (find _ _) as [n|] eqn:Ef; [|contradiction].
    apply (chain_sheet_decreases u v n Ef).
  - destruct (Fixtures.URL_model u (Some Fixtures.app_base)) as [r|]; [|contradiction].
    cbn [option_map].
    change (fetch_sheet Fixtures.chain_platform (href r))
      with (match find (fun n => str_eqb (href r) (Fixtures.chain_url n))
                       [0; 1; 2; 3; 4; 5; 6; 7]%N with
            | Some n => Http 200 (Fixtures.chain_css n)
            | None => Http 404 []
            end).
    destruct (find _ _) as [n|] eqn:Ef; [|contradiction].
    apply (chain_sheet_decreases (href r) v n Ef).
Qed.


(** *** The rate limiter *)

Lemma waitForRateLimit_spec (E : AI.Provider) (s : AI.State) :
  let s' := AI.waitForRateLimit E s in
  AI.lastRequestTime s' = AI.now s'
  /\ (AI.lastRequestTime s + AI.MIN_REQUEST_INTERVAL <= AI.now s')%Z
  /\ AI.issued s' = AI.issued s.
Proof.
  unfold AI.waitForRateLimit, AI.delay, AI.MIN_REQUEST_INTERVAL.
  destruct (Z.ltb_spec (AI.now s - AI.lastRequestTime s) 20000);
    cbn [AI.lastRequestTime AI.now AI.issued]; repeat split; lia.
Qed.

Lemma spaced_cons (gap a : Z) (l : list Z) :
  spaced gap l -> Forall (fun t => (a + gap <= t)%Z) l -> spaced gap (a :: l).
Proof.
  intros Hs Hf. destruct l as [|b l]; [exact I|].
  inversion Hf; subst. split; assumption.
Qed.

Lemma spaced_app (gap : Z) (l1 l2 : list Z) :
  spaced gap l1 -> spaced gap l2 ->
  (forall a b, In a l1 -> In b l2 -> (a + gap <= b)%Z) ->
  spaced gap (l1 ++ l2).
Proof.
  induction l1 as [|a l1 IH]; intros H1 H2 H; [exact H2|].
  assert (Htail : spaced gap (l1 ++ l2)).
  { apply IH; [destruct l1; [exact I | exact (proj2 H1)] | exact H2 |].
    intros x y Hx. apply H. now right. }
  destruct l1 as [|b l1].
  - destruct l2 as [|c l2]; [exact I|].
    split; [apply H; now left | exact Htail].
  - split; [exact (proj1 H1) | exact Htail].
Qed.

(** What one pass through the rate limiter and the provider does to the
    state: at most one request more, issued at the recorded time, which is
    [MIN_REQUEST_INTERVAL] after the time recorded before. *)
Lemma request_issued (E : AI.Provider) (errorText : jsstring) (s : AI.State) :
  let s' := fst (AI.request E errorText s) in
  (AI.lastRequestTime s + AI.MIN_REQUEST_INTERVAL <= AI.lastRequestTime s')%Z
  /\ (AI.issued s' = AI.issued s \/ AI.issued s' = AI.issued s ++ [AI.lastRequestTime s']).
Proof.
  unfold AI.request.
  destruct (waitForRateLimit_spec E s) as [H1 [H2 H3]]. cbv zeta in H1, H2, H3.
  destruct (negb (otruthy (AI.OPENAI_API_KEY E))).
  - cbn [fst]. split; [lia | now left].
  - destruct (AI.answer E _) as [m|[[|c g]|]];
      cbn [fst AI.lastRequestTime AI.issued]; (split; [lia | right; now rewrite H1, H3]).
Qed.

Lemma adds_nothing (s : AI.State) : adds s s [].
Proof.
  unfold adds. rewrite app_nil_r. repeat split; [constructor | lia].
Qed.

Lemma adds_step (s s1 s' : AI.State) (l : list Z) :
  (AI.lastRequestTime s + AI.MIN_REQUEST_INTERVAL <= AI.lastRequestTime s1)%Z ->
  (AI.issued s1 = AI.issued s \/ AI.issued s1 = AI.issued s ++ [AI.lastRequestTime s1]) ->
  (exists s2, AI.lastRequestTime s2 = AI.lastRequestTime s1
              /\ AI.issued s2 = AI.issued s1 /\ adds s2 s' l) ->
  exists l', adds s s' l'.
Proof.
  unfold adds, AI.MIN_REQUEST_INTERVAL.
  intros Hle Hiss [s2 [E1 [E2 [Hi [Hs [Hf Hm]]]]]].
  rewrite E1 in Hf, Hm. rewrite E2 in Hi.
  assert (Hf' : Forall (fun t => (AI.lastRequestTime s + 20000 <= t
                                  /\ t <= AI.lastRequestTime s')%Z) l).
  { eapply Forall_impl; [|exact Hf]. cbv beta. intros; lia. }
  destruct Hiss as [E|E].
  - exists l. rewrite Hi, E. repeat split; [exact Hs | exact Hf' | lia].
  - exists (AI.lastRequestTime s1 :: l). rewrite Hi, E, <- app_assoc.
    repeat split.
    + apply spaced_cons; [exact Hs|].
      eapply Forall_impl; [|exact Hf]. cbv beta. intros; lia.
    + constructor; [lia | exact Hf'].
    + lia.
Qed.

(** The loop keeps its requests apart, from every state. *)
Lemma generate_loop_adds (E : AI.Provider) :
  forall fuel retries lastError s,
    exists l, adds s (fst (AI.generate_loop fuel E retries lastError s)) l.
Proof.
  induction fuel as [|f IH]; intros retries lastError s.
  - exists []. apply adds_nothing.
  - cbn [AI.generate_loop].
    destruct (AI.MAX_RETRIES <=? retries); [exists []; apply adds_nothing|].
    pose proof (request_issued E (js "Failed to generate landing page content") s) as Hr.
    cbv zeta in Hr. destruct Hr as [Hle Hiss].
    destruct (AI.request E (js "Failed to generate landing page content") s)
      as [s1 [code|m]]; cbn [fst] in Hle, Hiss.
    + cbn [fst]. apply (adds_step s s1 s1 [] Hle Hiss).
      exists s1. split; [reflexivity|]. split; [reflexivity|]. apply adds_nothing.
    + destruct (negb (AI.isRetryable m)).
      { cbn [fst]. apply (adds_step s s1 s1 [] Hle Hiss).
        exists s1. split; [reflexivity|]. split; [reflexivity|]. apply adds_nothing. }
      destruct (retries + 1 <? AI.MAX_RETRIES).
      * destruct (IH (retries + 1) (Some m)
                    (AI.delay E (AI.RETRY_DELAY * Z.of_nat (retries + 1)) s1)) as [l Hl].
        apply (adds_step s s1 _ l Hle Hiss). eexists.
        split; [|split; [|exact Hl]]; reflexivity.
      * destruct (IH (retries + 1) (Some m) s1) as [l Hl].
        apply (adds_step s s1 _ l Hle Hiss). eexists.
        split; [|split; [|exact Hl]]; reflexivity.
Qed.

Lemma generateLandingPage_state (E : AI.Provider) (prompt : jsstring)
    (style : option WebsiteStyle) (s : AI.State) :
  fst (AI.generateLandingPage E prompt style s)
  = fst (AI.generate_loop (S AI.MAX_RETRIES) E 0 None s).
Proof.
  unfold AI.generateLandingPage.
  now destruct (AI.generate_loop (S AI.MAX_RETRIES) E 0 None s) as [s' [code|err]].
Qed.

(** With an API key, a pass of the loop sends a request. *)
Lemma generate_loop_sends (E : AI.Provider) (f retries : nat)
    (lastError : option jsstring) (s : AI.State) :
  otruthy (AI.OPENAI_API_KEY E) = true ->
  retries < AI.MAX_RETRIES ->
  exists t l,
    AI.issued (fst (AI.generate_loop (S f) E retries lastError s)) = AI.issued s ++ t :: l.
Proof.
  intros Hkey Hr. cbn [AI.generate_loop].
  replace (AI.MAX_RETRIES <=? retries) with false
    by (symmetry; apply Nat.leb_gt; exact Hr).
  assert (Hreq : AI.issued (fst (AI.request E (js "Failed to generate landing page content") s))
                 = AI.issued s ++ [AI.now (AI.waitForRateLimit E s)]).
  { unfold AI.request. rewrite Hkey. cbn [negb].
    destruct (waitForRateLimit_spec E s) as [_ [_ H3]]. cbv zeta in H3.
    destruct (AI.answer E _) as [m|[[|c g]|]]; cbn [fst AI.issued]; now rewrite H3. }
  destruct (AI.request E (js "Failed to generate landing page content") s)
    as [s1 [code|m]]; cbn [fst] in Hreq.
  - cbn [fst]. now exists (AI.now (AI.waitForRateLimit E s)), [].
  - destruct (negb (AI.isRetryable m)).
    { cbn [fst]. now exists (AI.now (AI.waitForRateLimit E s)), []. }
    destruct (retries + 1 <? AI.MAX_RETRIES).
    + destruct (generate_loop_adds E f (retries + 1) (Some m)
                  (AI.delay E (AI.RETRY_DELAY * Z.of_nat (retries + 1)) s1)) as [l [Hl _]].
      exists (AI.now (AI.waitForRateLimit E s)), l.
      rewrite Hl. cbn [AI.delay AI.issued]. rewrite Hreq, <- app_assoc. reflexivity.
    + destruct (generate_loop_adds E f (retries + 1) (Some m) s1) as [l [Hl _]].
      exists (AI.now (AI.waitForRateLimit E s)), l.
      rewrite Hl, Hreq, <- app_assoc. reflexivity.
Qed.

(** Two generation calls made one after the other, the second when the
    first has returned, from any state of the module and with any pause in
    between: the provider requests they issue, retries included, are at
    least [MIN_REQUEST_INTERVAL] (20 seconds) apart, and every request of
    the second call is issued 20 seconds or more after the time recorded for
    the last request before it.  With an API key each of the two calls
    issues a request. *)
Theorem generation_requests_spaced (E : AI.Provider) (prompt1 prompt2 : jsstring)
    (style1 style2 : option WebsiteStyle) (s : AI.State) (pause : N) :
  let s1 := fst (AI.generateLandingPage E prompt1 style1 s) in
  let s2 := fst (AI.generateLandingPage E prompt2 style2 (idle pause s1)) in
  AI.MIN_REQUEST_INTERVAL = 20000%Z
  /\ exists first second,
       AI.issued s1 = AI.issued s ++ first
       /\ AI.issued s2 = AI.issued s1 ++ second
       /\ spaced AI.MIN_REQUEST_INTERVAL (first ++ second)
       /\ Forall (fun t => (AI.lastRequestTime s1 + AI.MIN_REQUEST_INTERVAL <= t)%Z) second
       /\ (otruthy (AI.OPENAI_API_KEY E) = true -> first <> [] /\ second <> []).
Proof.
  cbv zeta. rewrite !generateLandingPage_state.
  destruct (generate_loop_adds E (S AI.MAX_RETRIES) 0 None s) as [l1 [E1 [S1 [F1 _]]]].
  set (s1 := fst (AI.generate_loop (S AI.MAX_RETRIES) E 0 None s)) in *.
  destruct (generate_loop_adds E (S AI.MAX_RETRIES) 0 None (idle pause s1))
    as [l2 [E2 [S2 [F2 _]]]].
  change (AI.issued (idle pause s1)) with (AI.issued s1) in E2.
  change (AI.lastRequestTime (idle pause s1)) with (AI.lastRequestTime s1) in F2.
  split; [reflexivity|]. exists l1, l2.
  split; [exact E1|]. split; [exact E2|]. split; [|split].
  - apply spaced_app; [exact S1 | exact S2|].
    intros a b Ha Hb.
    rewrite Forall_forall in F1, F2.
    specialize (F1 a Ha). specialize (F2 b Hb). cbv beta in F1, F2. lia.
  - eapply Forall_impl; [|exact F2]. cbv beta. intros; lia.
  - intros Hkey.
    assert (Hlt : 0 < AI.MAX_RETRIES) by (unfold AI.MAX_RETRIES; lia).
    destruct (generate_loop_sends E AI.MAX_RETRIES 0 None s Hkey Hlt) as [t1 [r1 H1]].
    destruct (generate_loop_sends E AI.MAX_RETRIES 0 None (idle pause s1) Hkey Hlt)
      as [t2 [r2 H2]].
    fold s1 in H1. rewrite E1 in H1. apply app_inv_head in H1.
    change (AI.issued (idle pause s1)) with (AI.issued s1) in H2.
    rewrite E2 in H2. apply app_inv_head in H2.
    split; congruence.
Qed.

(** *** C8 *)

Section EventLoop.
Import AI.

(** A call that is alone in the event loop. *)

Lemma run_idle (E : Provider) (fuel : nat) (L : Loop) :
  pending L = [] -> run fuel E L = L.
Proof. intros H. destruct fuel; cbn [run]; [reflexivity|]. now rewrite H. Qed.

Lemma run_one (E : Provider) (fuel : nat) (s : State) (p : Pending)
    (r : list (nat * AIPromptResponse)) :
  run (S fuel) E {| state := s; pending := [p]; returned := r |}
  = run fuel E
      (resume E p
         {| state := {| lastRequestTime := lastRequestTime s;
                        now := Z.max (now s) (due p);
                        timers := timers s; issued := issued s |};
            pending := []; returned := r |}).
Proof. reflexivity. Qed.

Lemma not_configured_not_retryable :
  isRetryable (js "OpenAI API key is not configured") = false.
Proof. vm_compute. reflexivity. Qed.

Lemma no_content_not_retryable :
  isRetryable (js "Failed to generate landing page content") = false.
Proof. vm_compute. reflexivity. Qed.

(** The end of a pass, from the [catch] block on, for a call that is alone. *)
Lemma caught_alone (E : Provider) (id : nat) :
  forall f,
    alone E id f ->
    forall fuel retries message s r0,
      MAX_RETRIES - retries <= S f -> S (3 * f) <= fuel ->
      run fuel E (caught E id retries message
                    {| state := s; pending := []; returned := r0 |})
      = (let e :=
           if negb (isRetryable message) then (s, Failed (Some message))
           else if retries + 1 <? MAX_RETRIES
                then generate_loop (S f) E (retries + 1) (Some message)
                       (delay E (RETRY_DELAY * Z.of_nat (retries + 1)) s)
                else generate_loop (S f) E (retries + 1) (Some message) s in
         {| state := fst e; pending := [];
            returned := r0 ++ [(id, response (snd e))] |}).
Proof.
  intros f IH fuel retries message s r0 Hr Hf. unfold alone in IH.
  unfold caught. cbv zeta.
  destruct (negb (isRetryable message)).
  - now rewrite run_idle.
  - destruct (retries + 1 <? MAX_RETRIES) eqn:El.
    + destruct fuel as [|fuel]; [lia|].
      unfold set_timer, suspend. cbn [state pending returned app].
      rewrite run_one. cbn [resume point caller due now lastRequestTime timers issued].
      rewrite Z.max_r by lia.
      rewrite IH by (unfold MAX_RETRIES in *; lia).
      reflexivity.
    + rewrite run_idle by reflexivity.
      cbn [generate_loop]. apply Nat.ltb_ge in El.
      replace (MAX_RETRIES <=? retries + 1) with true
        by (symmetry; apply Nat.leb_le; exact El).
      reflexivity.
Qed.

Lemma request_eq (E : Provider) (errorText : jsstring) (s : State) :
  request E errorText s = request_after E errorText (waitForRateLimit E s).
Proof. reflexivity. Qed.

Lemma generate_loop_pass (f : nat) (E : Provider) (retries : nat)
    (lastError : option jsstring) (s : State) :
  (MAX_RETRIES <=? retries) = false ->
  generate_loop (S f) E retries lastError s
  = pass_after f E retries (waitForRateLimit E s).
Proof.
  intros H. cbn [generate_loop]. rewrite H, request_eq. unfold pass_after.
  destruct (request_after E _ (waitForRateLimit E s)) as [s2 [code|m]]; reflexivity.
Qed.

Lemma send_alone (E : Provider) (id : nat) (f : nat) :
  alone E id f ->
  forall fuel retries lastError s1 r0,
    MAX_RETRIES - retries <= S f -> 3 * f + 2 <= fuel ->
    run fuel E (send E id retries lastError
                  {| state := s1; pending := []; returned := r0 |})
    = {| state := fst (pass_after (S f) E retries s1);
         pending := [];
         returned := r0 ++ [(id, response (snd (pass_after (S f) E retries s1)))] |}.
Proof.
  intros IH fuel retries lastError s1 r0 Hr Hf.
  unfold send, pass_after, request_after.
  destruct (negb (otruthy (OPENAI_API_KEY E))).
  - rewrite (caught_alone E id f IH) by lia. reflexivity.
  - cbv zeta. cbn [state pending returned]. unfold suspend. cbn [pending returned app].
    destruct fuel as [|fuel]; [lia|]. rewrite run_one.
    cbn [resume point caller due now lastRequestTime timers issued].
    rewrite Z.max_r by lia.
    destruct (answer E (length (issued s1))) as [m|[[|c code]|]].
    + rewrite (caught_alone E id f IH) by lia. reflexivity.
    + rewrite (caught_alone E id f IH) by lia. reflexivity.
    + now rewrite run_idle.
    + rewrite (caught_alone E id f IH) by lia. reflexivity.
Qed.

Lemma enter_alone (E : Provider) (id : nat) : forall f, alone E id f.
Proof.
  induction f as [|f IH]; intros fuel retries lastError s r0 Hr Hf.
  - unfold enter. cbn [generate_loop].
    replace (MAX_RETRIES <=? retries) with true
      by (symmetry; apply Nat.leb_le; lia).
    now rewrite run_idle.
  - unfold enter. destruct (MAX_RETRIES <=? retries) eqn:Em.
    + cbn [generate_loop]. rewrite Em. now rewrite run_idle.
    + rewrite (generate_loop_pass (S f) E retries lastError s Em).
      unfold waitForRateLimit. cbv zeta. cbn [state].
      destruct (now s - lastRequestTime s <? MIN_REQUEST_INTERVAL)%Z.
      * unfold set_timer, suspend. cbn [state pending returned app].
        destruct fuel as [|fuel]; [lia|]. rewrite run_one.
        cbn [resume point caller due now lastRequestTime timers issued].
        rewrite Z.max_r by lia.
        unfold record_time, set_state.
        cbn [state pending returned now lastRequestTime timers issued].
        rewrite (send_alone E id f IH) by lia. reflexivity.
      * unfold record_time, set_state.
        cbn [state pending returned now lastRequestTime timers issued].
        rewrite (send_alone E id f IH) by lia. reflexivity.
Qed.

(** A call that is alone in the event loop does what [generateLandingPage]
    does. *)
Lemma generateLandingPage_alone (E : Provider) (prompt : jsstring)
    (style : option WebsiteStyle) (s : State) :
  generateLandingPage_together E [(prompt, style)] s
  = {| state := fst (generateLandingPage E prompt style s);
       pending := [];
       returned := [(0, snd (generateLandingPage E prompt style s))] |}.
Proof.
  unfold generateLandingPage_together. cbn [length seq fold_left].
  rewrite (enter_alone E 0 MAX_RETRIES) by (unfold MAX_RETRIES; lia).
  unfold generateLandingPage.
  destruct (generate_loop (S MAX_RETRIES) E 0 None s) as [s' [code|err]]; reflexivity.
Qed.

(** The requests issued are only added to. *)

Lemma extends_refl (L : Loop) : extends L L.
Proof. exists []. now rewrite app_nil_r. Qed.

Lemma extends_trans (L1 L2 L3 : Loop) : extends L1 L2 -> extends L2 L3 -> extends L1 L3.
Proof.
  intros [r1 H1] [r2 H2]. exists (r1 ++ r2). now rewrite H2, H1, app_assoc.
Qed.

Lemma extends_same (L L' : Loop) :
  issued (state L') = issued (state L) -> extends L L'.
Proof. intros H. exists []. now rewrite app_nil_r. Qed.

Lemma caught_extends (E : Provider) (id retries : nat) (message : jsstring) (L : Loop) :
  extends L (caught E id retries message L).
Proof.
  unfold caught. destruct (negb (isRetryable message)); [now apply extends_same|].
  cbv zeta. destruct (retries + 1 <? MAX_RETRIES); now apply extends_same.
Qed.

Lemma send_extends (E : Provider) (id retries : nat) (lastError : option jsstring)
    (L : Loop) :
  extends L (send E id retries lastError L).
Proof.
  unfold send. destruct (negb (otruthy (OPENAI_API_KEY E))); [apply caught_extends|].
  now exists [now (state L)].
Qed.

Lemma enter_extends (E : Provider) (id retries : nat) (lastError : option jsstring)
    (L : Loop) :
  extends L (enter E id retries lastError L).
Proof.
  unfold enter. destruct (MAX_RETRIES <=? retries); [now apply extends_same|].
  cbv zeta. destruct (_ <? _)%Z; [now apply extends_same|].
  apply (extends_trans L (record_time L)); [now apply extends_same | apply send_extends].
Qed.

Lemma resume_extends (E : Provider) (p : Pending) (L : Loop) :
  extends L (resume E p L).
Proof.
  unfold resume. destruct (point p) as [retries lastError|retries lastError n|retries lastError].
  - apply (extends_trans L (record_time L)); [now apply extends_same | apply send_extends].
  - destruct (answer E n) as [m|[[|c code]|]];
      try apply caught_extends; now apply extends_same.
  - apply enter_extends.
Qed.

Lemma run_extends (E : Provider) : forall fuel L, extends L (run fuel E L).
Proof.
  induction fuel as [|f IH]; intros L; cbn [run]; [apply extends_refl|].
  destruct (next_due (pending L)) as [[p rest]|]; [|apply extends_refl].
  eapply extends_trans; [|apply IH].
  eapply extends_trans; [|apply resume_extends]. now apply extends_same.
Qed.

(** A call that finds the last request less than [MIN_REQUEST_INTERVAL]
    ago sets its timer and leaves [lastRequestTime] as it is. *)
Lemma enter_sets_timer (E : Provider) (id : nat) (L : Loop) :
  (now (state L) - lastRequestTime (state L) < MIN_REQUEST_INTERVAL)%Z ->
  enter E id 0 None L
  = {| state := {| lastRequestTime := lastRequestTime (state L);
                   now := now (state L);
                   timers := S (timers (state L));
                   issued := issued (state L) |};
       pending :=
         pending L
         ++ [{| due := lastRequestTime (state L) + MIN_REQUEST_INTERVAL
                       + Z.of_N (lateness E (timers (state L)));
                caller := id; point := InRateLimit 0 None |}];
       returned := returned L |}.
Proof.
  intros H. unfold enter. change (MAX_RETRIES <=? 0) with false. cbv iota zeta.
  apply Z.ltb_lt in H. rewrite H. unfold set_timer, suspend. cbv zeta.
  apply Z.ltb_lt in H. do 4 f_equal. lia.
Qed.

(** A call whose timer fires records the time and sends its request. *)
Lemma resume_sends (E : Provider) (p : Pending) (L : Loop) (retries : nat)
    (lastError : option jsstring) :
  otruthy (OPENAI_API_KEY E) = true ->
  point p = InRateLimit retries lastError ->
  resume E p L
  = {| state := {| lastRequestTime := now (state L);
                   now := now (state L);
                   timers := timers (state L);
                   issued := issued (state L) ++ [now (state L)] |};
       pending :=
         pending L
         ++ [{| due := now (state L)
                       + Z.of_N (latency E (length (issued (state L))));
                caller := caller p;
                point := InRequest retries lastError (length (issued (state L))) |}];
       returned := returned L |}.
Proof.
  intros Hkey Hp. unfold resume. rewrite Hp. unfold send. rewrite Hkey. reflexivity.
Qed.

Lemma run_step (E : Provider) (f : nat) (L : Loop) (p : Pending)
    (rest : list Pending) :
  next_due (pending L) = Some (p, rest) ->
  run (S f) E L
  = run f E
      (resume E p
         {| state := {| lastRequestTime := lastRequestTime (state L);
                        now := Z.max (now (state L)) (due p);
                        timers := timers (state L);
                        issued := issued (state L) |};
            pending := rest;
            returned := returned L |}).
Proof. intros H. cbn [run]. now rewrite H. Qed.

(** Of two suspended calls the second runs first only when it is due
    earlier. *)
Lemma next_due_first (p q : Pending) :
  (due p <= due q)%Z -> next_due [p; q] = Some (p, [q]).
Proof.
  intros H. cbn [next_due].
  now replace (due q <? due p)%Z with false by (symmetry; apply Z.ltb_ge; exact H).
Qed.

(** Every call returns. *)

Lemma caught_advances (E : Provider) (id retries : nat) (message : jsstring) (L : Loop) :
  advances id (3 * (MAX_RETRIES - retries) + 2) L (caught E id retries message L).
Proof.
  unfold caught. destruct (negb (isRetryable message)); [right; now eexists|].
  cbv zeta. destruct (retries + 1 <? MAX_RETRIES) eqn:El; [|right; now eexists].
  left. eexists. split; [reflexivity|]. apply Nat.ltb_lt in El.
  cbn [point resumptions caller]. repeat split. lia.
Qed.

Lemma send_advances (E : Provider) (id retries : nat) (lastError : option jsstring)
    (L : Loop) :
  advances id (3 * (MAX_RETRIES - retries) + 3) L (send E id retries lastError L).
Proof.
  unfold send. destruct (negb (otruthy (OPENAI_API_KEY E))).
  - destruct (caught_advances E id retries (js "OpenAI API key is not configured") L)
      as [[q [A [B [C D]]]]|H]; [left|now right].
    exists q. repeat split; try assumption. lia.
  - left. eexists. split; [reflexivity|]. cbn [point resumptions caller].
    repeat split. lia.
Qed.

Lemma enter_advances (E : Provider) (id retries : nat) (lastError : option jsstring)
    (L : Loop) :
  advances id (3 * (MAX_RETRIES - retries) + 4) L (enter E id retries lastError L).
Proof.
  unfold enter. destruct (MAX_RETRIES <=? retries); [right; now eexists|].
  cbv zeta. destruct (_ <? _)%Z.
  - left. eexists. split; [reflexivity|]. cbn [point resumptions caller].
    repeat split. lia.
  - destruct (send_advances E id retries lastError (record_time L))
      as [[q [A [B [C D]]]]|[r [A B]]]; [left|right].
    + exists q. repeat split; try assumption. lia.
    + exists r. now split.
Qed.

Lemma resume_advances (E : Provider) (p : Pending) (L : Loop) :
  advances (caller p) (resumptions (point p)) L (resume E p L).
Proof.
  unfold resume.
  destruct (point p) as [retries lastError|retries lastError n|retries lastError];
    cbn [resumptions].
  - destruct (send_advances E (caller p) retries lastError (record_time L))
      as [[q [A [B [C D]]]]|[r [A B]]]; [left|right].
    + exists q. repeat split; assumption.
    + exists r. now split.
  - destruct (answer E n) as [m|[[|c code]|]];
      try apply caught_advances. right. now eexists.
  - apply enter_advances.
Qed.

Lemma next_due_spec (l : list Pending) :
  match next_due l with
  | Some (p, rest) =>
      resumptions_left l = resumptions (point p) + resumptions_left rest
      /\ length l = S (length rest)
  | None => l = []
  end.
Proof.
  unfold resumptions_left. induction l as [|p l IH]; [reflexivity|].
  cbn [next_due]. destruct (next_due l) as [[q rest]|].
  - destruct IH as [IH1 IH2].
    destruct (due q <? due p)%Z; unfold list_sum in *;
      cbn [map fold_right length] in *; split; lia.
  - subst l. split; reflexivity.
Qed.

Lemma resumptions_left_app (l1 l2 : list Pending) :
  resumptions_left (l1 ++ l2) = resumptions_left l1 + resumptions_left l2.
Proof. unfold resumptions_left. now rewrite map_app, list_sum_app. Qed.

Lemma resumptions_left_one (q : Pending) :
  resumptions_left [q] = resumptions (point q).
Proof. unfold resumptions_left. cbn. lia. Qed.

Lemma resumptions_pos (k : Suspended) : 0 < resumptions k.
Proof. destruct k; cbn [resumptions]; lia. Qed.

Lemma resumptions_left_0 (l : list Pending) : resumptions_left l = 0 -> l = [].
Proof.
  destruct l as [|p l]; [reflexivity|]. unfold resumptions_left, list_sum.
  cbn [map fold_right]. destruct (point p); cbn [resumptions]; lia.
Qed.

(** With fuel for the resumptions that are left, every suspended call
    returns. *)
Lemma run_returns (E : Provider) :
  forall fuel L,
    resumptions_left (pending L) <= fuel ->
    pending (run fuel E L) = []
    /\ length (returned (run fuel E L)) = length (returned L) + length (pending L).
Proof.
  induction fuel as [|f IH]; intros L Hw.
  - cbn [run]. rewrite (resumptions_left_0 (pending L)) by lia. split; [reflexivity | cbn; lia].
  - cbn [run]. pose proof (next_due_spec (pending L)) as Hn.
    destruct (next_due (pending L)) as [[p rest]|].
    + destruct Hn as [Hsum Hlen].
      set (L1 := {| state := _; pending := rest; returned := returned L |}).
      destruct (resume_advances E p L1) as [[q [A [B [_ D]]]]|[r [A B]]].
      * destruct (IH (resume E p L1)) as [IH1 IH2].
        { rewrite A, resumptions_left_app, resumptions_left_one.
          unfold L1. cbn [pending]. lia. }
        split; [exact IH1|]. rewrite IH2, A, D, length_app. unfold L1. cbn [length pending returned]. lia.
      * destruct (IH (resume E p L1)) as [IH1 IH2].
        { rewrite A. unfold L1. cbn [pending].
          pose proof (resumptions_pos (point p)). lia. }
        split; [exact IH1|]. rewrite IH2, A, B, length_app. unfold L1. cbn [length pending returned]. lia.
    + rewrite Hn. split; [reflexivity | cbn; lia].
Qed.

(** The calls started in the same turn: each is suspended or has
    returned. *)
Lemma started_together (E : Provider) (ids : list nat) :
  forall L,
    let L' := fold_left (fun L id => enter E id 0 None L) ids L in
    resumptions_left (pending L')
    <= resumptions_left (pending L) + 4 * MAX_RETRIES * length ids
    /\ length (returned L') + length (pending L')
       = length (returned L) + length (pending L) + length ids.
Proof.
  induction ids as [|id ids IH]; intros L; cbn [fold_left length].
  - split; lia.
  - destruct (IH (enter E id 0 None L)) as [IH1 IH2]. cbv zeta in IH1, IH2.
    destruct (enter_advances E id 0 None L) as [[q [A [B [_ D]]]]|[r [A B]]].
    + rewrite A, resumptions_left_app, resumptions_left_one in IH1.
      rewrite A, D, length_app in IH2. cbn [length] in IH2.
      unfold MAX_RETRIES in *. split; lia.
    + rewrite A in IH1. rewrite A, B, length_app in IH2. cbn [length] in IH2.
      unfold MAX_RETRIES in *. split; lia.
Qed.

(** Every call made together with others returns. *)
Lemma generateLandingPage_together_returns (E : Provider)
    (calls : list (jsstring * option WebsiteStyle)) (s : State) :
  let L := generateLandingPage_together E calls s in
  pending L = [] /\ length (returned L) = length calls.
Proof.
  cbv zeta. unfold generateLandingPage_together.
  destruct (started_together E (seq 0 (length calls))
              {| state := s; pending := []; returned := [] |}) as [H1 H2].
  cbv zeta in H1, H2. rewrite length_seq in H1, H2.
  cbn [pending returned length] in H1, H2.
  change (resumptions_left []) with 0 in H1.
  destruct (run_returns E (4 * MAX_RETRIES * length calls) _ H1) as [R1 R2].
  split; [exact R1|]. rewrite R2. lia.
Qed.

(** C8.  The claim fails for calls that are in flight together.  Two calls
    of [generateLandingPage] made in the same turn, with an API key, less
    than [MIN_REQUEST_INTERVAL] after the last request and with timers that
    are equally late: both read [lastRequestTime] before either writes it,
    both set their timer for the same time [t], which is
    [MIN_REQUEST_INTERVAL] after the last request, and both send their
    request at [t], 0 and not 20000 milliseconds apart.  Both calls
    return. *)
Theorem generation_requests_together (E : Provider)
    (call1 call2 : jsstring * option WebsiteStyle) (s : State) :
  otruthy (OPENAI_API_KEY E) = true ->
  (now s - lastRequestTime s < MIN_REQUEST_INTERVAL)%Z ->
  lateness E (S (timers s)) = lateness E (timers s) ->
  let L := generateLandingPage_together E [call1; call2] s in
  pending L = []
  /\ length (returned L) = 2
  /\ exists t rest,
       issued (state L) = issued s ++ t :: t :: rest
       /\ t = (lastRequestTime s + MIN_REQUEST_INTERVAL
               + Z.of_N (lateness E (timers s)))%Z
       /\ ~ spaced MIN_REQUEST_INTERVAL (t :: t :: rest).
Proof.
  intros Hkey Hwait Hlate. cbv zeta.
  destruct (generateLandingPage_together_returns E [call1; call2] s) as [Hp Hr].
  split; [exact Hp|]. split; [exact Hr|]. clear Hp Hr.
  unfold generateLandingPage_together. cbn [length seq fold_left].
  change (4 * MAX_RETRIES * 2) with 24.
  set (t := (lastRequestTime s + MIN_REQUEST_INTERVAL + Z.of_N (lateness E (timers s)))%Z).
  assert (Hmax : Z.max (now s) t = t) by (unfold t; lia).
  (* both calls set their timers, for the same time *)
  rewrite (enter_sets_timer E 0) by exact Hwait.
  rewrite (enter_sets_timer E 1) by exact Hwait.
  cbn [state pending returned now lastRequestTime timers issued app].
  rewrite Hlate. fold t.
  (* the timer of the first call fires *)
  rewrite (run_step E 23 _
             {| due := t; caller := 0; point := InRateLimit 0 None |}
             [{| due := t; caller := 1; point := InRateLimit 0 None |}])
    by (apply next_due_first; cbn [due]; lia).
  cbn [state pending returned now lastRequestTime timers issued due].
  rewrite (resume_sends E {| due := t; caller := 0; point := InRateLimit 0 None |}
             _ 0 None Hkey eq_refl).
  cbn [state pending returned now lastRequestTime timers issued app caller].
  rewrite Hmax.
  (* the timer of the second call fires before the first request is answered *)
  rewrite (run_step E 22 _
             {| due := t; caller := 1; point := InRateLimit 0 None |}
             [{| due := t + Z.of_N (latency E (length (issued s))); caller := 0;
                 point := InRequest 0 None (length (issued s)) |}])
    by (apply next_due_first; cbn [due]; lia).
  cbn [state pending returned now lastRequestTime timers issued due].
  rewrite (resume_sends E {| due := t; caller := 1; point := InRateLimit 0 None |}
             _ 0 None Hkey eq_refl).
  cbn [state pending returned now lastRequestTime timers issued app caller].
  rewrite Z.max_id.
  (* the rest of the run *)
  match goal with
  | |- context [run 22 E ?L2] => destruct (run_extends E 22 L2) as [rest Hrest]
  end.
  cbn [state issued] in Hrest.
  exists t, rest. split.
  - rewrite Hrest, <- !app_assoc. reflexivity.
  - split; [reflexivity|]. cbn [spaced]. unfold MIN_REQUEST_INTERVAL. intros [H _]. lia.
Qed.

(** Two calls made in the same turn, five seconds after a request. *)
Lemma generation_requests_together_witness :
  otruthy (OPENAI_API_KEY Fixtures.ready_provider) = true
  /\ (now Fixtures.after_request - lastRequestTime Fixtures.after_request
      < MIN_REQUEST_INTERVAL)%Z
  /\ lateness Fixtures.ready_provider (S (timers Fixtures.after_request))
     = lateness Fixtures.ready_provider (timers Fixtures.after_request)
  /\ let L := generateLandingPage_together Fixtures.ready_provider
                [(js "a bakery", None); (js "a florist", None)]
                Fixtures.after_request in
     pending L = []
     /\ length (returned L) = 2
     /\ exists t rest,
          issued (state L) = issued Fixtures.after_request ++ t :: t :: rest
          /\ t = (lastRequestTime Fixtures.after_request + MIN_REQUEST_INTERVAL
                  + Z.of_N (lateness Fixtures.ready_provider
                              (timers Fixtures.after_request)))%Z
          /\ ~ spaced MIN_REQUEST_INTERVAL (t :: t :: rest).
Proof.
  assert (H1 : otruthy (OPENAI_API_KEY Fixtures.ready_provider) = true) by reflexivity.
  assert (H2 : (now Fixtures.after_request - lastRequestTime Fixtures.after_request
                < MIN_REQUEST_INTERVAL)%Z) by (vm_compute; reflexivity).
  assert (H3 : lateness Fixtures.ready_provider (S (timers Fixtures.after_request))
               = lateness Fixtures.ready_provider (timers Fixtures.after_request))
    by reflexivity.
  split; [exact H1|]. split; [exact H2|]. split; [exact H3|].
  exact (generation_requests_together Fixtures.ready_provider
           (js "a bakery", None) (js "a florist", None) Fixtures.after_request H1 H2 H3).
Defined.

(** The same two calls in full: both requests are sent at 1020002, twenty
    seconds and two milliseconds after the last request, and both calls
    return a page. *)
Example generation_requests_together_run :
  let L := generateLandingPage_together Fixtures.ready_provider
             [(js "a bakery", None); (js "a florist", None)] Fixtures.after_request in
  issued (state L) = [1000000; 1020002; 1020002]%Z
  /\ pending L = []
  /\ returned L = [(0, {| html := js "<p>x</p>"; error := None |});
                   (1, {| html := js "<p>x</p>"; error := None |})].
Proof. vm_compute. repeat split. Qed.

(** Three calls made in the same turn when the module is loaded: the first
    sends at once, the second and the third both twenty seconds later. *)
Example generation_requests_together_fresh :
  let L := generateLandingPage_together Fixtures.ready_provider
             [(js "a bakery", None); (js "a florist", None); (js "a garage", None)]
             (Fixtures.start 1700000000000) in
  issued (state L) = [1700000000000; 1700000020002; 1700000020002]%Z
  /\ pending L = []
  /\ map fst (returned L) = [0; 1; 2].
Proof. vm_compute. repeat split. Qed.

(** Two calls made in the same turn when the module is loaded, on a clock
    that starts at 0: both wait twenty seconds and send together. *)
Example generation_requests_together_clock_0 :
  let L := generateLandingPage_together Fixtures.ready_provider
             [(js "a bakery", None); (js "a florist", None)] (Fixtures.start 0) in
  issued (state L) = [20002; 20002]%Z
  /\ pending L = []
  /\ map fst (returned L) = [0; 1].
Proof. vm_compute. repeat split. Qed.

End EventLoop.

(** *** The generation client *)

Lemma isRetryable_nonempty (m : jsstring) : AI.isRetryable m = true -> m <> [].
Proof. intros H ->. discriminate H. Qed.

Lemma or_else_nonempty (m d : jsstring) : m <> [] -> or_else (Some m) d = m.
Proof. destruct m; [congruence | reflexivity]. Qed.

(** A rejected request: the error of the provider is thrown and one more
    request is on record. *)
Lemma request_rejected (E : AI.Provider) (errorText m : jsstring) (s : AI.State) :
  otruthy (AI.OPENAI_API_KEY E) = true ->
  AI.answer E (length (AI.issued s)) = AI.Rejected m ->
  snd (AI.request E errorText s) = Throw m
  /\ length (AI.issued (fst (AI.request E errorText s))) = S (length (AI.issued s)).
Proof.
  intros Hk Ha. unfold AI.request. rewrite Hk. cbn [negb]. cbv zeta.
  destruct (waitForRateLimit_spec E s) as [_ [_ H3]]. cbv zeta in H3.
  rewrite H3, Ha. cbn [fst snd AI.issued]. rewrite length_app. cbn [length].
  split; [reflexivity | lia].
Qed.

Lemma delay_issued (E : AI.Provider) (ms : Z) (s : AI.State) :
  AI.issued (AI.delay E ms s) = AI.issued s.
Proof. reflexivity. Qed.

(** Three retryable rejections in a row end the loop with the third
    error. *)
Lemma generate_loop_three_failures (E : AI.Provider) (s : AI.State)
    (m1 m2 m3 : jsstring) :
  otruthy (AI.OPENAI_API_KEY E) = true ->
  AI.answer E (length (AI.issued s)) = AI.Rejected m1 ->
  AI.answer E (length (AI.issued s) + 1) = AI.Rejected m2 ->
  AI.answer E (length (AI.issued s) + 2) = AI.Rejected m3 ->
  AI.isRetryable m1 = true -> AI.isRetryable m2 = true -> AI.isRetryable m3 = true ->
  snd (AI.generate_loop (S AI.MAX_RETRIES) E 0 None s) = AI.Failed (Some m3).
Proof.
  intros Hk A1 A2 A3 R1 R2 R3.
  set (txt := js "Failed to generate landing page content").
  change (S AI.MAX_RETRIES) with 4.
  (* first attempt *)
  cbn [AI.generate_loop]. change (AI.MAX_RETRIES <=? 0) with false. cbv iota.
  fold txt.
  destruct (request_rejected E txt m1 s Hk A1) as [T1 L1].
  destruct (AI.request E txt s) as [s1 r1]. cbn [fst snd] in T1, L1. subst r1.
  rewrite R1. cbn [negb]. change (0 + 1 <? AI.MAX_RETRIES) with true. cbv iota.
  (* second attempt *)
  set (d1 := AI.delay E (AI.RETRY_DELAY * Z.of_nat (0 + 1)) s1).
  assert (A2' : AI.answer E (length (AI.issued d1)) = AI.Rejected m2).
  { unfold d1. rewrite delay_issued, L1. now rewrite <- Nat.add_1_r. }
  assert (L1' : length (AI.issued d1) = length (AI.issued s) + 1).
  { unfold d1. rewrite delay_issued, L1. lia. }
  cbn [AI.generate_loop]. change (AI.MAX_RETRIES <=? 0 + 1) with false. cbv iota.
  fold txt.
  destruct (request_rejected E txt m2 d1 Hk A2') as [T2 L2].
  destruct (AI.request E txt d1) as [s2 r2]. cbn [fst snd] in T2, L2. subst r2.
  rewrite R2. cbn [negb]. change (0 + 1 + 1 <? AI.MAX_RETRIES) with true. cbv iota.
  (* third attempt *)
  set (d2 := AI.delay E (AI.RETRY_DELAY * Z.of_nat (0 + 1 + 1)) s2).
  assert (A3' : AI.answer E (length (AI.issued d2)) = AI.Rejected m3).
  { unfold d2. rewrite delay_issued, L2, L1'.
    now replace (S (length (AI.issued s) + 1)) with (length (AI.issued s) + 2) by lia. }
  cbn [AI.generate_loop]. change (AI.MAX_RETRIES <=? 0 + 1 + 1) with false. cbv iota.
  fold txt.
  destruct (request_rejected E txt m3 d2 Hk A3') as [T3 _].
  destruct (AI.request E txt d2) as [s3 r3]. cbn [fst snd] in T3. subst r3.
  rewrite R3. cbn [negb]. change (0 + 1 + 1 + 1 <? AI.MAX_RETRIES) with false. cbv iota.
  (* the loop test fails *)
  cbn [AI.generate_loop]. change (AI.MAX_RETRIES <=? 0 + 1 + 1 + 1) with true.
  reflexivity.
Qed.

Lemma getFallbackTemplate_nonempty (style : option WebsiteStyle) :
  AI.getFallbackTemplate style <> [].
Proof.
  unfold AI.getFallbackTemplate. cbv zeta.
  change (nl ++ ?x) with (10%N :: x). discriminate.
Qed.

(** What the loop returns from the [try] block is not empty. *)
Lemma generate_loop_generated_nonempty (E : AI.Provider) :
  forall fuel retries lastError s code,
    snd (AI.generate_loop fuel E retries lastError s) = AI.Generated code ->
    code <> [].
Proof.
  induction fuel as [|f IH]; intros retries lastError s code; [discriminate|].
  cbn [AI.generate_loop].
  destruct (AI.MAX_RETRIES <=? retries); [discriminate|].
  destruct (AI.request E _ s) as [s1 [g|m]] eqn:Er.
  - cbn [snd]. intros H. injection H as <-.
    unfold AI.request in Er.
    destruct (negb (otruthy (AI.OPENAI_API_KEY E))); [discriminate|].
    destruct (AI.answer E _) as [m|[[|c g']|]]; try discriminate.
    injection Er as _ <-. discriminate.
  - destruct (negb (AI.isRetryable m)); [discriminate|].
    destruct (retries + 1 <? AI.MAX_RETRIES); apply IH.
Qed.

(** *** C1 *)

(** C1, as stated, fails for the variant of the client that has
    [cleanGeneratedCode]: after three rate-limit errors it returns the empty
    string as [html], with the error message, and not the fallback
    template. *)
Lemma generateLandingPage_returns_empty_html :
  let r := snd (AI.generateLandingPage Fixtures.busy_provider (js "a bakery")
                  (Some Scraper.DEFAULT_STYLE) (Fixtures.start 1700000000000)) in
  AI.html r = []
  /\ AI.error r = Some (js "429 rate_limit_exceeded")
  /\ AI.html r <> AI.getFallbackTemplate (Some Scraper.DEFAULT_STYLE).
Proof.
  vm_compute. repeat split. discriminate.
Qed.

(** C1, amended.  After three retryable failures in a row, the variant of
    [generateLandingPage] whose response has a [css] field returns the
    fallback template built from the style profile, which is not empty, with
    the third error message; its [html] is never empty, whatever the provider
    answers.  The variant with [cleanGeneratedCode] returns the empty string
    with the third error message. *)
Theorem generateLandingPage_after_three_failures (E : AI.Provider)
    (prompt : jsstring) (style : option WebsiteStyle) (s : AI.State)
    (m1 m2 m3 : jsstring) :
  otruthy (AI.OPENAI_API_KEY E) = true ->
  AI.answer E (length (AI.issued s)) = AI.Rejected m1 ->
  AI.answer E (length (AI.issued s) + 1) = AI.Rejected m2 ->
  AI.answer E (length (AI.issued s) + 2) = AI.Rejected m3 ->
  AI.isRetryable m1 = true -> AI.isRetryable m2 = true -> AI.isRetryable m3 = true ->
  snd (AICss.generateLandingPage E prompt style s)
    = {| AICss.html := AICss.getFallbackTemplate prompt style;
         AICss.css := [];
         AICss.error := Some m3 |}
  /\ AICss.getFallbackTemplate prompt style <> []
  /\ (forall E' prompt' style' s',
        AICss.html (snd (AICss.generateLandingPage E' prompt' style' s')) <> [])
  /\ snd (AI.generateLandingPage E prompt style s)
     = {| AI.html := []; AI.error := Some m3 |}.
Proof.
  intros Hk A1 A2 A3 R1 R2 R3.
  pose proof (generate_loop_three_failures E s m1 m2 m3 Hk A1 A2 A3 R1 R2 R3) as H.
  pose proof (or_else_nonempty m3 (js "Failed to generate content")
                (isRetryable_nonempty m3 R3)) as Hm.
  repeat split.
  - unfold AICss.generateLandingPage.
    destruct (AI.generate_loop (S AI.MAX_RETRIES) E 0 None s) as [s' r].
    cbn [snd] in H. subst r. cbn [snd]. now rewrite Hm.
  - apply getFallbackTemplate_nonempty.
  - intros E' prompt' style' s'. unfold AICss.generateLandingPage.
    destruct (AI.generate_loop (S AI.MAX_RETRIES) E' 0 None s') as [s'' [code|err]] eqn:El;
      cbn [snd AICss.html].
    + apply (generate_loop_generated_nonempty E' (S AI.MAX_RETRIES) 0 None s').
      now rewrite El.
    + apply getFallbackTemplate_nonempty.
  - unfold AI.generateLandingPage.
    destruct (AI.generate_loop (S AI.MAX_RETRIES) E 0 None s) as [s' r].
    cbn [snd] in H. subst r. cbn [snd]. now rewrite Hm.
Qed.

(** A provider that answers every request with a rate-limit error. *)
Lemma generateLandingPage_after_three_failures_witness :
  otruthy (AI.OPENAI_API_KEY Fixtures.busy_provider) = true
  /\ AI.isRetryable (js "429 rate_limit_exceeded") = true
  /\ snd (AICss.generateLandingPage Fixtures.busy_provider (js "a bakery")
            (Some Scraper.DEFAULT_STYLE) (Fixtures.start 1700000000000))
     = {| AICss.html := AICss.getFallbackTemplate (js "a bakery") (Some Scraper.DEFAULT_STYLE);
          AICss.css := [];
          AICss.error := Some (js "429 rate_limit_exceeded") |}.
Proof.
  split; [reflexivity|]. split; [reflexivity|].
  exact (proj1 (generateLandingPage_after_three_failures Fixtures.busy_provider
                  (js "a bakery") (Some Scraper.DEFAULT_STYLE)
                  (Fixtures.start 1700000000000)
                  (js "429 rate_limit_exceeded") (js "429 rate_limit_exceeded")
                  (js "429 rate_limit_exceeded")
                  eq_refl eq_refl eq_refl eq_refl eq_refl eq_refl eq_refl)).
Defined.

(* ================================================================== *)
(** ** Further properties *)
(* ================================================================== *)

(** *** Strings, continued *)

Lemma startsWith_app_l (a b x : jsstring) :
  startsWith a x = true -> startsWith (a ++ b) x = true.
Proof.
  revert a. induction x as [|c x IH]; intros a; simpl; [reflexivity|].
  destruct a as [|d a]; [discriminate|]. simpl.
  destruct (N.eqb c d); [apply IH | discriminate].
Qed.

Lemma includes_app_l (a b x : jsstring) :
  includes a x = true -> includes (a ++ b) x = true.
Proof.
  induction a as [|d a IH]; simpl.
  - rewrite orb_false_r. intros H. destruct x; [|discriminate].
    destruct b; reflexivity.
  - intros H. apply orb_prop in H. destruct H as [H|H].
    + change (d :: a ++ b) with ((d :: a) ++ b).
      now rewrite (startsWith_app_l (d :: a) b x H).
    + rewrite (IH H). apply orb_true_r.
Qed.

Lemma includes_app_r (a b x : jsstring) :
  includes b x = true -> includes (a ++ b) x = true.
Proof.
  intros H. induction a as [|d a IH]; simpl; [exact H|].
  rewrite IH. apply orb_true_r.
Qed.

Lemma includes_refl (x : jsstring) : includes x x = true.
Proof.
  destruct x as [|c x]; [reflexivity|].
  unfold includes; fold includes.
  rewrite <- (app_nil_r (c :: x)) at 1. now rewrite startsWith_app.
Qed.

Lemma startsWith_length (s p : jsstring) : startsWith s p = true -> length p <= length s.
Proof.
  revert s. induction p as [|c p IH]; intros s; simpl; [lia|].
  destruct s as [|d s]; [discriminate|]. destruct (N.eqb c d); [|discriminate].
  intros H. apply IH in H. simpl. lia.
Qed.

Lemma includes_length (s sub : jsstring) : includes s sub = true -> length sub <= length s.
Proof.
  induction s as [|d s IH]; simpl.
  - rewrite orb_false_r. apply startsWith_length.
  - intros H. apply orb_prop in H. destruct H as [H|H].
    + apply startsWith_length in H. exact H.
    + apply IH in H. lia.
Qed.

Lemma startsWith_app_long (a b p : jsstring) :
  length p <= length a -> startsWith (a ++ b) p = startsWith a p.
Proof.
  revert a. induction p as [|c p IH]; intros a; simpl; [reflexivity|].
  destruct a as [|d a]; simpl; [lia|]. intros H.
  destruct (N.eqb c d); [apply IH; lia | reflexivity].
Qed.

(** *** Text that is only removed *)

Lemma subsequence_refl (s : jsstring) : subsequence s s.
Proof. induction s; constructor; assumption. Qed.

Lemma subsequence_suffix (pre a b : jsstring) :
  subsequence a b -> subsequence a (pre ++ b).
Proof. intros H. induction pre; simpl; [exact H | now constructor]. Qed.

Lemma subsequence_prefix (a post : jsstring) : subsequence a (a ++ post).
Proof.
  induction a as [|c a IH]; simpl.
  - induction post; constructor; assumption.
  - now constructor.
Qed.

Lemma subsequence_trans (a b c : jsstring) :
  subsequence a b -> subsequence b c -> subsequence a c.
Proof.
  intros Hab Hbc. revert a Hab.
  induction Hbc as [|x b c Hbc IH|x b c Hbc IH]; intros a Hab.
  - exact Hab.
  - inversion Hab; subst.
    + constructor. now apply IH.
    + apply sub_drop. now apply IH.
  - apply sub_drop. now apply IH.
Qed.

Lemma subsequence_length (a b : jsstring) : subsequence a b -> length a <= length b.
Proof. induction 1; simpl; lia. Qed.

Lemma subsequence_In (a b : jsstring) (c : cu) :
  subsequence a b -> In c a -> In c b.
Proof.
  induction 1 as [|x a b _ IH|x a b _ IH]; simpl; [tauto| |]; intuition.
Qed.

Lemma lit_match_app (l : jsstring) :
  forall prev s prev' s', lit_match l prev s = Some (prev', s') -> s = l ++ s'.
Proof.
  induction l as [|x l IH]; intros prev s prev' s'; cbn [lit_match].
  - intros H. now injection H as _ <-.
  - destruct s as [|y s]; [discriminate|].
    destruct (N.eqb x y) eqn:E; [|discriminate].
    apply N.eqb_eq in E. subst y. intros H. apply IH in H. now rewrite H.
Qed.

Lemma rep_match_suffix (p : cu -> bool) (k : kont) (res : mres) :
  forall s min max prev caps,
    rep_match p min max prev s caps k = Some res -> reaches_suffix k s res.
Proof.
  induction s as [|c s IH]; intros min max prev caps; cbn [rep_match].
  - destruct min; [|discriminate]. intros H.
    exists prev, [], caps, []. split; [exact H | reflexivity].
  - assert (Hstop : match min with
                    | 0 => k prev (c :: s) caps
                    | S _ => None
                    end = Some res -> reaches_suffix k (c :: s) res).
    { destruct min; [|discriminate]. intros H.
      exists prev, (c :: s), caps, []. split; [exact H | reflexivity]. }
    destruct (p c && max_allows max); [|exact Hstop].
    destruct (rep_match p (pred min) (option_map pred max) (Some c) s caps k) eqn:E;
      [|exact Hstop].
    intros H. injection H as <-.
    destruct (IH _ _ _ _ E) as [prev' [s' [caps' [pre [Hk Hl]]]]].
    exists prev', s', caps', (c :: pre). split; [exact Hk | now rewrite Hl].
Qed.

Lemma rmatch_suffix (r : regex) :
  forall prev s caps k res,
    rmatch r prev s caps k = Some res -> reaches_suffix k s res.
Proof.
  induction r as [p|l|r1 IH1 r2 IH2|r1 IH1 r2 IH2|p min max|r1 IH1|r1 IH1|m|m];
    intros prev s caps k res; cbn [rmatch].
  - destruct s as [|c s]; [discriminate|].
    destruct (p c); [|discriminate]. intros H.
    exists (Some c), s, caps, [c]. split; [exact H | reflexivity].
  - destruct (lit_match l prev s) as [[prev' s']|] eqn:E; [|discriminate].
    intros H. exists prev', s', caps, l. split; [exact H|].
    exact (lit_match_app l prev s prev' s' E).
  - intros H. apply IH1 in H. destruct H as [prev1 [s1 [caps1 [pre1 [H Hl1]]]]].
    apply IH2 in H. destruct H as [prev2 [s2 [caps2 [pre2 [H Hl2]]]]].
    exists prev2, s2, caps2, (pre1 ++ pre2). split; [exact H|].
    now rewrite Hl1, Hl2, app_assoc.
  - destruct (rmatch r1 prev s caps k) eqn:E.
    + intros H. injection H as <-. exact (IH1 _ _ _ _ _ E).
    + apply IH2.
  - apply rep_match_suffix.
  - destruct (rmatch r1 prev s caps k) eqn:E.
    + intros H. injection H as <-. exact (IH1 _ _ _ _ _ E).
    + intros H. exists prev, s, caps, []. split; [exact H | reflexivity].
  - intros H. apply IH1 in H. destruct H as [prev1 [s1 [caps1 [pre1 [H Hl1]]]]].
    exists prev1, s1, (caps1 ++ [firstn (length s - length s1) s]), pre1.
    split; [exact H | exact Hl1].
  - destruct prev as [c|].
    + destruct (m && isLineTerminator c); [|discriminate].
      intros H. exists (Some c), s, caps, []. split; [exact H | reflexivity].
    + intros H. exists None, s, caps, []. split; [exact H | reflexivity].
  - destruct s as [|c s].
    + intros H. exists prev, [], caps, []. split; [exact H | reflexivity].
    + destruct (m && isLineTerminator c); [|discriminate].
      intros H. exists prev, (c :: s), caps, []. split; [exact H | reflexivity].
Qed.

Lemma match_here_suffix (r : regex) (prev : option cu) (s : jsstring)
    (caps : list jsstring) (rest : jsstring) :
  match_here r prev s = Some (caps, rest) -> exists pre, s = pre ++ rest.
Proof.
  unfold match_here. intros H. apply rmatch_suffix in H.
  destruct H as [prev' [s' [caps' [pre [H Hl]]]]]. injection H as _ <-.
  now exists pre.
Qed.

Lemma matched_text_app (pre rest : jsstring) : matched_text (pre ++ rest) rest = pre.
Proof.
  unfold matched_text. rewrite length_app.
  replace (length pre + length rest - length rest) with (length pre) by lia.
  rewrite firstn_app, Nat.sub_diag, firstn_all. simpl. apply app_nil_r.
Qed.

Lemma remove_all_from_subsequence (r : regex) :
  forall fuel prev s, subsequence (remove_all_from fuel r prev s) s.
Proof.
  induction fuel as [|f IH]; intros prev s; cbn [remove_all_from].
  - apply subsequence_refl.
  - destruct (match_here r prev s) as [[caps rest]|] eqn:E.
    + cbv zeta. destruct (matched_text s rest) as [|c m] eqn:Em.
      * destruct s as [|x s]; [constructor|]. apply sub_keep, IH.
      * destruct (match_here_suffix r prev s caps rest E) as [pre ->].
        apply subsequence_suffix, IH.
    + destruct s as [|x s]; [constructor|]. apply sub_keep, IH.
Qed.

Lemma trimStart_suffix (s : jsstring) : exists pre, s = pre ++ trimStart s.
Proof.
  induction s as [|c s [pre IH]]; simpl.
  - now exists [].
  - destruct (isWhiteSpace c).
    + exists (c :: pre). simpl. now f_equal.
    + now exists [].
Qed.

Lemma trim_subsequence (s : jsstring) : subsequence (trim s) s.
Proof.
  unfold trim, trimEnd.
  destruct (trimStart_suffix s) as [pre Hs].
  destruct (trimStart_suffix (rev (trimStart s))) as [pre' Hr].
  apply (f_equal (@rev cu)) in Hr. rewrite rev_involutive, rev_app_distr in Hr.
  apply subsequence_trans with (b := trimStart s).
  - rewrite Hr at 2. apply subsequence_prefix.
  - rewrite Hs at 2. apply subsequence_suffix, subsequence_refl.
Qed.

Lemma clean_start_rev_trimEnd (s : jsstring) : clean_start (rev (trimEnd s)).
Proof. unfold trimEnd. rewrite rev_involutive. apply clean_start_trimStart. Qed.

(** X1. [cleanGeneratedCode] only removes text: for every input its result is
    the input with some code units left out (in the same order), so it is
    never longer than the input, and it neither starts nor ends with white
    space. *)
Theorem cleanGeneratedCode_only_removes (code : jsstring) :
  subsequence (AI.cleanGeneratedCode code) code
  /\ length (AI.cleanGeneratedCode code) <= length code
  /\ clean_start (AI.cleanGeneratedCode code)
  /\ clean_start (rev (AI.cleanGeneratedCode code)).
Proof.
  assert (H : subsequence (AI.cleanGeneratedCode code) code).
  { unfold AI.cleanGeneratedCode, remove_all.
    eapply subsequence_trans; [apply trim_subsequence|].
    eapply subsequence_trans; [apply remove_all_from_subsequence|].
    eapply subsequence_trans; apply remove_all_from_subsequence. }
  split; [exact H|]. split; [exact (subsequence_length _ _ H)|].
  unfold AI.cleanGeneratedCode, trim. split.
  - apply clean_start_trimEnd, clean_start_trimStart.
  - apply clean_start_rev_trimEnd.
Qed.

(** *** Sets in insertion order *)

Lemma existsb_str_eqb (x : jsstring) (l : list jsstring) :
  existsb (str_eqb x) l = true <-> In x l.
Proof.
  rewrite existsb_exists. split.
  - intros [y [Hy E]]. apply str_eqb_eq in E. now subst.
  - intros H. exists x. split; [exact H | apply str_eqb_refl].
Qed.

Lemma set_add_NoDup (x : jsstring) (l : list jsstring) :
  NoDup l -> NoDup (set_add x l).
Proof.
  intros Hl. unfold set_add. destruct (existsb (str_eqb x) l) eqn:E; [exact Hl|].
  apply NoDup_app; [exact Hl | repeat constructor; intros [] |].
  intros a Ha [Hx|[]]. subst a. apply existsb_str_eqb in Ha. congruence.
Qed.

Lemma set_add_In (x y : jsstring) (l : list jsstring) :
  In y (set_add x l) <-> In y l \/ y = x.
Proof.
  unfold set_add. destruct (existsb (str_eqb x) l) eqn:E.
  - apply existsb_str_eqb in E. split; [now left | intros [H| ->]; assumption].
  - rewrite in_app_iff. simpl. intuition congruence.
Qed.

Lemma set_add_all_NoDup (xs l : list jsstring) :
  NoDup l -> NoDup (set_add_all xs l).
Proof.
  revert l. induction xs as [|x xs IH]; intros l Hl; simpl; [exact Hl|].
  apply IH, set_add_NoDup, Hl.
Qed.

Lemma set_add_all_In (xs l : list jsstring) (y : jsstring) :
  In y (set_add_all xs l) <-> In y l \/ In y xs.
Proof.
  revert l. induction xs as [|x xs IH]; intros l; simpl.
  - tauto.
  - unfold set_add_all in IH. rewrite IH, set_add_In. intuition congruence.
Qed.

Lemma set_add_all_head (xs : list jsstring) (a : jsstring) (l : list jsstring) :
  exists t, set_add_all xs (a :: l) = a :: t.
Proof.
  revert l. induction xs as [|x xs IH]; intros l; simpl.
  - now exists l.
  - unfold set_add. destruct (existsb (str_eqb x) (a :: l)).
    + apply IH.
    + apply (IH (l ++ [x])).
Qed.

Lemma set_add_all_first (a : jsstring) (xs : list jsstring) :
  exists t, set_add_all (a :: xs) [] = a :: t.
Proof. exact (set_add_all_head xs a []). Qed.

Lemma NoDup_firstn {A} (n : nat) (l : list A) : NoDup l -> NoDup (firstn n l).
Proof.
  intros H. rewrite <- (firstn_skipn n l) in H. exact (NoDup_app_remove_r _ _ H).
Qed.

(** *** The colors of a page *)

(** A greedy repetition consumes a run of the class, between its bounds. *)
Lemma rep_match_run (p : cu -> bool) (k : kont) (res : mres) :
  forall s min max prev caps,
    rep_match p min max prev s caps k = Some res ->
    exists run s' prev',
      s = run ++ s' /\ forallb p run = true /\ min <= length run
      /\ (forall n, max = Some n -> length run <= n)
      /\ k prev' s' caps = Some res.
Proof.
  induction s as [|c s IH]; intros min max prev caps; cbn [rep_match].
  - destruct min; [|discriminate]. intros H.
    exists [], [], prev. repeat split; try assumption; simpl; lia.
  - assert (Hstop : match min with
                    | 0 => k prev (c :: s) caps
                    | S _ => None
                    end = Some res ->
                    exists run s' prev',
                      c :: s = run ++ s' /\ forallb p run = true /\ min <= length run
                      /\ (forall n, max = Some n -> length run <= n)
                      /\ k prev' s' caps = Some res).
    { destruct min; [|discriminate]. intros H.
      exists [], (c :: s), prev. repeat split; try assumption; simpl; lia. }
    destruct (p c && max_allows max) eqn:Hc; [|exact Hstop].
    destruct (rep_match p (pred min) (option_map pred max) (Some c) s caps k) eqn:E;
      [|exact Hstop].
    intros H. injection H as <-.
    apply andb_prop in Hc. destruct Hc as [Hp Hmax].
    destruct (IH _ _ _ _ E) as [run [s' [prev' [Hs [Hall [Hmin [Hmx Hk]]]]]]].
    exists (c :: run), s', prev'. split; [now rewrite Hs|].
    split; [simpl; now rewrite Hp|]. split; [simpl; lia|].
    split; [|exact Hk].
    intros n ->. destruct n as [|n]; [discriminate|].
    specialize (Hmx n eq_refl). simpl. lia.
Qed.

(** Every entry of a global match is the text of a match. *)
Lemma match_all_from_In (r : regex) :
  forall fuel prev s m,
    In m (match_all_from fuel r prev s) ->
    exists prev' s' caps rest,
      match_here r prev' s' = Some (caps, rest) /\ m = matched_text s' rest.
Proof.
  induction fuel as [|f IH]; intros prev s m; cbn [match_all_from]; [intros []|].
  destruct (match_here r prev s) as [[caps rest]|] eqn:E.
  - cbv zeta. destruct (matched_text s rest) as [|c t] eqn:Em.
    + destruct s as [|x s].
      * intros [Hm|[]]. subst m. exists prev, [], caps, rest. now rewrite Em.
      * intros [Hm|H]; [subst m|exact (IH _ _ _ H)].
        exists prev, (x :: s), caps, rest. now rewrite Em.
    + intros [Hm|H]; [subst m|exact (IH _ _ _ H)].
      exists prev, s, caps, rest. now rewrite Em.
  - destruct s as [|x s]; [intros []|]. apply IH.
Qed.

Lemma hex_color (run : jsstring) :
  forallb isHex run = true -> 3 <= length run -> length run <= 6 ->
  isColorLiteral (js "#" ++ run) = true.
Proof.
  intros Hall H3 H6. unfold isColorLiteral.
  change (js "#" ++ run) with (35%N :: run). cbn [isHexColor].
  rewrite Hall. apply Nat.leb_le in H3, H6. rewrite H3, H6. reflexivity.
Qed.

Lemma call_literal (name run : jsstring) :
  forallb (none_of [41]%N) run = true -> 1 <= length run ->
  isCall name ((name ++ js "(") ++ run ++ js ")") = true.
Proof.
  intros Hall Hlen. unfold isCall.
  rewrite startsWith_app. cbn [andb].
  rewrite skipn_app, Nat.sub_diag, skipn_all. cbn [skipn app].
  rewrite rev_app_distr. cbn [rev app js list_ascii_of_string map].
  change (N.eqb (N_of_ascii ")") 41) with true. cbn [andb].
  assert (Ht : truthy (rev run) = true).
  { destruct run as [|c run]; [simpl in Hlen; lia|].
    simpl. now destruct (rev run). }
  rewrite Ht. cbn [andb].
  apply forallb_forall. intros x Hx. apply in_rev in Hx.
  rewrite forallb_forall in Hall. now apply Hall.
Qed.

Lemma rmatch_alt (r1 r2 : regex) (prev : option cu) (s : jsstring)
    (caps : list jsstring) (k : kont) (res : mres) :
  rmatch (Alt r1 r2) prev s caps k = Some res ->
  rmatch r1 prev s caps k = Some res \/ rmatch r2 prev s caps k = Some res.
Proof.
  cbn [rmatch]. destruct (rmatch r1 prev s caps k).
  - intros H. now left.
  - intros H. now right.
Qed.

Lemma hex_match (prev : option cu) (s : jsstring) (caps : list jsstring)
    (rest : jsstring) :
  match_here (Seq (Lit (js "#")) (Rep isHex 3 (Some 6))) prev s = Some (caps, rest) ->
  isColorLiteral (matched_text s rest) = true.
Proof.
  unfold match_here. cbn [rmatch].
  destruct (lit_match (js "#") prev s) as [[p1 s1]|] eqn:L1; [|discriminate].
  intros R1. apply lit_match_app in L1.
  destruct (rep_match_run _ _ _ _ _ _ _ _ R1)
    as [run [s' [prev' [Hs [Hall [Hmin [Hmax Hk]]]]]]].
  injection Hk as _ <-. subst s1 s.
  rewrite app_assoc, matched_text_app.
  apply hex_color; [exact Hall | exact Hmin | exact (Hmax 6 eq_refl)].
Qed.

Lemma call_match (name : jsstring) (prev : option cu) (s : jsstring)
    (caps : list jsstring) (rest : jsstring) :
  match_here (Seq (Lit (name ++ js "("))
                (Seq (Rep (none_of [41]%N) 1 None) (Lit (js ")")))) prev s
  = Some (caps, rest) ->
  isCall name (matched_text s rest) = true.
Proof.
  unfold match_here. cbn [rmatch].
  destruct (lit_match (name ++ js "(") prev s) as [[p1 s1]|] eqn:L1; [|discriminate].
  intros R1. apply lit_match_app in L1.
  destruct (rep_match_run _ _ _ _ _ _ _ _ R1)
    as [run [s' [prev' [Hs [Hall [Hmin [_ Hk]]]]]]].
  destruct (lit_match (js ")") prev' s') as [[p2 s2]|] eqn:L2; [|discriminate].
  apply lit_match_app in L2. injection Hk as _ <-. subst s' s1 s.
  replace ((name ++ js "(") ++ run ++ js ")" ++ s2)
    with (((name ++ js "(") ++ run ++ js ")") ++ s2)
    by (now rewrite <- !app_assoc).
  rewrite matched_text_app. now apply call_literal.
Qed.

Lemma color_match (prev : option cu) (s : jsstring) (caps : list jsstring)
    (rest : jsstring) :
  match_here Scraper.re_color prev s = Some (caps, rest) ->
  isColorLiteral (matched_text s rest) = true.
Proof.
  unfold match_here, Scraper.re_color. intros H.
  apply rmatch_alt in H. destruct H as [H|H].
  - exact (hex_match prev s caps rest H).
  - apply rmatch_alt in H. unfold isColorLiteral.
    destruct H as [H|H].
    + rewrite (call_match (js "rgb") prev s caps rest H).
      now rewrite orb_true_r.
    + rewrite (call_match (js "rgba") prev s caps rest H).
      now rewrite !orb_true_r.
Qed.

Lemma color_literals_In (text c : jsstring) :
  In c (Scraper.color_literals text) ->
  isColorLiteral c = true /\ includes c (js "var(") = false.
Proof.
  unfold Scraper.color_literals. rewrite filter_In. intros [Hin Hf].
  apply andb_prop in Hf. destruct Hf as [Hv _].
  apply negb_true_iff in Hv. split; [|exact Hv].
  unfold match_all in Hin. apply match_all_from_In in Hin.
  destruct Hin as [prev' [s' [caps [rest [Hm ->]]]]].
  exact (color_match _ _ _ _ Hm).
Qed.

(** X2. [extractColors] returns no color twice, and every color it returns is
    a [#] with three to six hexadecimal digits, or a call [rgb(...)] or
    [rgba(...)] with arguments that are not empty and hold no closing
    parenthesis; none contains [var(]. *)
Theorem extractColors_entries (doc : Document) :
  NoDup (Scraper.extractColors doc)
  /\ (forall c, In c (Scraper.extractColors doc) ->
        isColorLiteral c = true /\ includes c (js "var(") = false).
Proof.
  unfold Scraper.extractColors, Scraper.array_or, slice0. cbv zeta. split.
  - apply NoDup_firstn, set_add_all_NoDup. constructor.
  - intros c Hc. apply In_firstn in Hc. apply set_add_all_In in Hc.
    destruct Hc as [[]|Hc]. apply in_app_iff in Hc.
    destruct Hc as [Hc|Hc]; apply in_flat_map in Hc; destruct Hc as [el [_ Hc]].
    + destruct (getAttribute el (js "style")) as [[|x t]|]; try contradiction.
      exact (color_literals_In _ _ Hc).
    + exact (color_literals_In _ _ Hc).
Qed.
(** *** The fonts of a page *)

Lemma split_head (sep : cu) (s : jsstring) (c : cu) :
  In c (hd [] (split sep s)) -> c <> sep /\ In c s.
Proof.
  revert c. induction s as [|x s IH]; intros c; cbn [split hd]; [intros []|].
  destruct (N.eqb x sep) eqn:E; [intros []|].
  apply N.eqb_neq in E.
  destruct (split sep s) as [|w ws]; cbn [hd] in *.
  - intros [<-|[]]. split; [exact E | now left].
  - intros [<-|H]; [split; [exact E | now left]|].
    destruct (IH c H) as [A B]. split; [exact A | now right].
Qed.

Lemma replace_chars_removed (p : cu -> bool) (s : jsstring) (c : cu) :
  In c (replace_chars p [] s) -> p c = false /\ In c s.
Proof.
  unfold replace_chars. rewrite in_flat_map. intros [x [Hx Hc]].
  destruct (p x) eqn:E; [contradiction|].
  destruct Hc as [<-|[]]. now split.
Qed.

Lemma firstFont_plain (font : jsstring) : isPlainName (Scraper.firstFont font) = true.
Proof.
  unfold isPlainName. apply forallb_forall. intros c Hc.
  unfold Scraper.firstFont in Hc. cbv zeta in Hc.
  apply (subsequence_In _ _ c (trim_subsequence _)) in Hc.
  apply replace_chars_removed in Hc. destruct Hc as [Hq Hc].
  apply split_head in Hc. destruct Hc as [Hs _].
  rewrite Hq. apply N.eqb_neq in Hs. now rewrite Hs.
Qed.

Lemma css_fonts_In (css f : jsstring) :
  In f (Scraper.css_fonts css) ->
  existsb (str_eqb f) genericFamilies = false
  /\ includes f (js "var(") = false
  /\ isPlainName f = true
  /\ trim f = f.
Proof.
  unfold Scraper.css_fonts. rewrite in_flat_map. intros [font [_ H]].
  cbv zeta in H.
  destruct (negb (includes (Scraper.firstFont font) (js "var("))
            && negb (existsb (str_eqb (Scraper.firstFont font))
                       [js "inherit"; js "system-ui"; js "-apple-system";
                        js "sans-serif"; js "serif"; js "monospace"])) eqn:E;
    [|contradiction].
  destruct H as [<-|[]]. apply andb_prop in E. destruct E as [E1 E2].
  apply negb_true_iff in E1, E2.
  split; [exact E2|]. split; [exact E1|]. split; [apply firstFont_plain|].
  unfold Scraper.firstFont. cbv zeta. apply trim_idem.
Qed.

(** X3. [extractFonts] returns no font twice.  When the document links no
    Google Fonts stylesheet, every font it returns comes from a [font-family]
    declaration of a style block: it is none of the generic families the
    code excludes, does not contain [var(], holds no quote and no comma, and
    is trimmed. *)
Theorem extractFonts_entries (doc : Document) :
  NoDup (Scraper.extractFonts doc)
  /\ (querySelectorAll doc
        (Scraper.quoted (js "link[href*=") (js "fonts.googleapis.com") (js "]")) = [] ->
      forall f, In f (Scraper.extractFonts doc) ->
        existsb (str_eqb f) genericFamilies = false
        /\ includes f (js "var(") = false
        /\ isPlainName f = true
        /\ trim f = f).
Proof.
  unfold Scraper.extractFonts, Scraper.array_or, slice0. cbv zeta. split.
  - apply NoDup_firstn, set_add_all_NoDup. constructor.
  - intros Hg f Hf. rewrite Hg in Hf. cbn [flat_map] in Hf. rewrite app_nil_r in Hf.
    apply In_firstn in Hf. apply set_add_all_In in Hf. destruct Hf as [[]|Hf].
    apply in_flat_map in Hf. destruct Hf as [styleEl [_ Hf]].
    exact (css_fonts_In _ _ Hf).
Qed.

(** *** Absolute URLs *)

Lemma http_not_data (u : jsstring) : isHttpUrl u = true -> startsWith u (js "data:") = false.
Proof.
  unfold isHttpUrl. destruct u as [|c u]; [discriminate|].
  change (js "http://") with (104%N :: js "ttp://").
  change (js "https://") with (104%N :: js "ttps://").
  change (js "data:") with (100%N :: js "ata:").
  cbn [startsWith]. destruct (N.eqb 104 c) eqn:E.
  - apply N.eqb_eq in E. subst c. reflexivity.
  - discriminate.
Qed.

Lemma resolveUrl_http (P : Platform) (base u : jsstring) :
  isHttpUrl u = true -> includes u webcontainer_host = false ->
  Scraper.resolveUrl P base u = u.
Proof.
  intros Hh Hw. unfold Scraper.resolveUrl.
  assert (Ht : truthy u = true) by (destruct u; [discriminate | reflexivity]).
  rewrite Ht, (http_not_data u Hh). cbn [negb].
  fold webcontainer_host. rewrite Hw.
  unfold isHttpUrl in Hh. now rewrite Hh.
Qed.

Lemma https_prefix_host (u : jsstring) :
  includes (js "https:" ++ u) webcontainer_host = includes u webcontainer_host.
Proof.
  change (js "https:") with [104; 116; 116; 112; 115; 58]%N.
  change webcontainer_host with (108%N :: js "ocal-credentialless.webcontainer-api.io").
  cbn [app includes startsWith N.eqb Pos.eqb orb andb]. reflexivity.
Qed.

(** X4. For a URL that does not mention the web container host, [resolveUrl]
    returns an absolute [http:] or [https:] URL as it is, for every base; and
    resolving a second time, against any base, changes nothing when the URL
    is empty, a [data:] URL, protocol-relative or absolute [http(s)]. *)
Theorem resolveUrl_absolute_unchanged (P : Platform) (base base' u : jsstring) :
  includes u webcontainer_host = false ->
  (isHttpUrl u = true -> Scraper.resolveUrl P base u = u)
  /\ (u = [] \/ isDataUrl u = true \/ isHttpUrl u = true
      \/ startsWith u (js "//") = true ->
      Scraper.resolveUrl P base' (Scraper.resolveUrl P base u)
      = Scraper.resolveUrl P base u).
Proof.
  intros Hw. split; [intros Hh; now apply resolveUrl_http|].
  intros [->|[Hd|[Hh|Hp]]].
  - reflexivity.
  - assert (E : Scraper.resolveUrl P base u = []).
    { unfold isDataUrl in Hd. unfold Scraper.resolveUrl.
      rewrite Hd. now destruct (negb (truthy u)). }
    now rewrite E.
  - rewrite (resolveUrl_http P base u Hh Hw). now apply resolveUrl_http.
  - assert (E : Scraper.resolveUrl P base u = js "https:" ++ u
                \/ Scraper.resolveUrl P base u = u /\ isHttpUrl u = true).
    { unfold Scraper.resolveUrl. fold webcontainer_host. rewrite Hw.
      assert (Ht : truthy u = true) by (destruct u; [discriminate | reflexivity]).
      rewrite Ht. cbn [negb].
      assert (Hd : startsWith u (js "data:") = false).
      { destruct u as [|c u]; [discriminate|].
        change (js "//") with (47%N :: js "/") in Hp.
        change (js "data:") with (100%N :: js "ata:").
        cbn [startsWith] in *. destruct (N.eqb 47 c) eqn:E; [|discriminate].
        apply N.eqb_eq in E. subst c. reflexivity. }
      rewrite Hd, Hp.
      destruct (startsWith u (js "http://") || startsWith u (js "https://")) eqn:Hh;
        [right; split; [reflexivity | exact Hh] | now left]. }
    destruct E as [E|[E Hh]]; rewrite E.
    + apply resolveUrl_http.
      * now apply protocol_relative_is_https.
      * now rewrite https_prefix_host.
    + now apply resolveUrl_http.
Qed.

Lemma resolveUrl_absolute_unchanged_witness :
  includes (js "//cdn.example.com/a.png") webcontainer_host = false
  /\ Scraper.resolveUrl Fixtures.ftp_platform Fixtures.site
       (Scraper.resolveUrl Fixtures.ftp_platform Fixtures.app_base
          (js "//cdn.example.com/a.png"))
     = Scraper.resolveUrl Fixtures.ftp_platform Fixtures.app_base
         (js "//cdn.example.com/a.png").
Proof.
  split; [reflexivity|].
  apply (proj2 (resolveUrl_absolute_unchanged Fixtures.ftp_platform Fixtures.app_base
                  Fixtures.site (js "//cdn.example.com/a.png") eq_refl)).
  right. right. right. reflexivity.
Defined.

(** *** The images of a page *)

(** X5. [findImages] returns no image twice; no image it returns contains the
    text [logo], and each is one of the sources the four scans have added to
    the set. *)
Theorem findImages_distinct_without_logo (P : Platform) (doc : Document) :
  NoDup (Scraper.findImages P doc)
  /\ (forall img, In img (Scraper.findImages P doc) ->
        includes img (js "logo") = false
        /\ In img (Scraper.image_candidates P doc)).
Proof.
  unfold Scraper.findImages, slice0. cbv zeta. split.
  - apply NoDup_firstn, NoDup_filter, set_add_all_NoDup. constructor.
  - intros img H. apply In_firstn in H. apply filter_In in H.
    destruct H as [H Hl]. apply negb_true_iff in Hl. split; [exact Hl|].
    apply set_add_all_In in H. now destruct H as [[]|H].
Qed.

Lemma image_candidates_hero (P : Platform) (doc : Document) (img : Element)
    (others : list Element) (c : cu) (s : jsstring) :
  querySelectorAll doc (js ".hero img") = img :: others ->
  getAttribute img (js "src") = Some (c :: s) ->
  exists t,
    Scraper.image_candidates P doc = Scraper.resolveUrl P (baseURI doc) (c :: s) :: t.
Proof.
  intros Hq Hs. unfold Scraper.image_candidates. cbv zeta.
  unfold Scraper.heroSelectors. cbn [flat_map].
  unfold querySelector at 1. rewrite Hq. cbn [hd_error]. rewrite Hs.
  cbn [app]. eexists. reflexivity.
Qed.

Lemma findImages_hero (P : Platform) (doc : Document) (img : Element)
    (others : list Element) (u : jsstring) :
  querySelectorAll doc (js ".hero img") = img :: others ->
  getAttribute img (js "src") = Some u ->
  isHttpUrl u = true ->
  includes u (js "logo") = false ->
  includes u webcontainer_host = false ->
  exists t, Scraper.findImages P doc = u :: t.
Proof.
  intros Hq Hs Hh Hl Hw.
  destruct u as [|c s]; [discriminate|].
  destruct (image_candidates_hero P doc img others c s Hq Hs) as [t Ht].
  rewrite (resolveUrl_http P (baseURI doc) (c :: s) Hh Hw) in Ht.
  unfold Scraper.findImages. cbv zeta. rewrite Ht.
  destruct (set_add_all_first (c :: s) t) as [t' Ht'].
  rewrite Ht'.
  cbn [filter]. rewrite Hl. cbn [negb slice0 firstn]. eexists. reflexivity.
Qed.

Lemma finalImages_hero (P : Platform) (url : jsstring) (doc : Document) (img : Element)
    (others : list Element) (u : jsstring) :
  querySelectorAll doc (js ".hero img") = img :: others ->
  getAttribute img (js "src") = Some u ->
  isHttpUrl u = true ->
  includes u (js "logo") = false ->
  includes u webcontainer_host = false ->
  exists t, Scraper.finalImages P url doc = u :: t.
Proof.
  intros Hq Hs Hh Hl Hw.
  destruct (findImages_hero P doc img others u Hq Hs Hh Hl Hw) as [t Ht].
  unfold Scraper.finalImages, Scraper.scraped_images. cbv zeta. rewrite Ht.
  cbn [map filter]. rewrite (resolveUrl_http P url u Hh Hw).
  assert (Htr : truthy u = true) by (destruct u; [discriminate | reflexivity]).
  rewrite Htr. cbn [app slice0 firstn]. eexists. reflexivity.
Qed.

(** *** The logo *)

Lemma first_brand_logo_src_first (P : Platform) (doc : Document)
    (l1 : list jsstring) (sel : jsstring) (l2 : list jsstring) (img : Element)
    (c : cu) (s : jsstring) :
  (forall x, In x l1 ->
     selector_error P x = None
     /\ match querySelector doc x with
        | Some i => otruthy (Scraper.src_or_data_src i) = false
        | None => True
        end) ->
  selector_error P sel = None ->
  querySelector doc sel = Some img ->
  Scraper.src_or_data_src img = Some (c :: s) ->
  Scraper.first_brand_logo_src P doc (l1 ++ sel :: l2) = Return (Some (c :: s)).
Proof.
  intros H1 He Hq Hs. induction l1 as [|x l1 IH]; cbn [app Scraper.first_brand_logo_src].
  - now rewrite He, Hq, Hs.
  - destruct (H1 x (or_introl eq_refl)) as [Hx Hn]. rewrite Hx.
    assert (IH' := IH (fun y Hy => H1 y (or_intror Hy))).
    destruct (querySelector doc x) as [i|]; [|exact IH'].
    destruct (Scraper.src_or_data_src i) as [[|d t]|]; try exact IH'. discriminate.
Qed.

Lemma first_brand_logo_src_none (P : Platform) (doc : Document) (l : list jsstring) :
  (forall x, In x l ->
     selector_error P x = None
     /\ match querySelector doc x with
        | Some i => otruthy (Scraper.src_or_data_src i) = false
        | None => True
        end) ->
  Scraper.first_brand_logo_src P doc l = Return None.
Proof.
  induction l as [|x l IH]; intros H; cbn [Scraper.first_brand_logo_src]; [reflexivity|].
  destruct (H x (or_introl eq_refl)) as [Hx Hn]. rewrite Hx.
  assert (IH' := IH (fun y Hy => H y (or_intror Hy))).
  destruct (querySelector doc x) as [i|]; [|exact IH'].
  destruct (Scraper.src_or_data_src i) as [[|d t]|]; try exact IH'. discriminate.
Qed.

Lemma first_brand_logo_src_error (P : Platform) (doc : Document) (sel : jsstring)
    (rest : list jsstring) (message : jsstring) :
  selector_error P sel = Some message ->
  Scraper.first_brand_logo_src P doc (sel :: rest) = Throw message.
Proof. intros H. cbn [Scraper.first_brand_logo_src]. now rewrite H. Qed.

(** X6. With a brand hint, [findLogo] goes through the brand selectors in
    their order: the first one that selects an image with a source decides
    the logo, whatever the later brand selectors and the generic selectors
    would select; when no brand selector selects an image with a source, the
    result is that of the call without brand hint. *)
Theorem findLogo_brand_precedence (P : Platform) (doc : Document) (brand : jsstring) :
  brand <> [] ->
  let selectors := Scraper.brandSelectors (toLowerCase P brand) in
  let misses x :=
    selector_error P x = None
    /\ match querySelector doc x with
       | Some i => otruthy (Scraper.src_or_data_src i) = false
       | None => True
       end in
  (forall l1 sel l2 img src,
     selectors = l1 ++ sel :: l2 ->
     (forall x, In x l1 -> misses x) ->
     selector_error P sel = None ->
     querySelector doc sel = Some img ->
     Scraper.src_or_data_src img = Some src -> src <> [] ->
     Scraper.findLogo P doc (Some brand)
     = Return (Some (Scraper.resolveUrl P (baseURI doc) src)))
  /\ ((forall x, In x selectors -> misses x) ->
      Scraper.findLogo P doc (Some brand) = Scraper.findLogo P doc None).
Proof.
  intros Hb. cbv zeta. destruct brand as [|b0 brand]; [congruence|]. split.
  - intros l1 sel l2 img src Hsel H1 He Hq Hs Hne.
    destruct src as [|c s]; [congruence|].
    unfold Scraper.findLogo. rewrite Hsel.
    now rewrite (first_brand_logo_src_first P doc l1 sel l2 img c s H1 He Hq Hs).
  - intros H. unfold Scraper.findLogo.
    now rewrite (first_brand_logo_src_none P doc _ H).
Qed.

Lemma findLogo_brand_precedence_witness :
  js "Acme" <> []
  /\ Scraper.findLogo Fixtures.strict_platform Fixtures.brand_doc (Some (js "Acme"))
     = Return (Some (js "https://example.com/acme.svg"))
  /\ Scraper.findLogo Fixtures.strict_platform Fixtures.brand_doc None
     = Return (Some (js "https://example.com/partner-logo.png")).
Proof.
  split; [discriminate|]. split; [|vm_compute; reflexivity].
  set (sels := Scraper.brandSelectors (toLowerCase Fixtures.strict_platform (js "Acme"))).
  refine (proj1 (findLogo_brand_precedence Fixtures.strict_platform Fixtures.brand_doc (js "Acme")
                   ltac:(discriminate))
            (firstn 5 sels) (nth 5 sels []) (skipn 6 sels)
            (Fixtures.element [(js "src", js "https://example.com/acme.svg")])
            (js "https://example.com/acme.svg") _ _ _ _ _ _).
  - vm_compute. reflexivity.
  - intros x Hx. vm_compute in Hx.
    repeat (destruct Hx as [Hx|Hx]; [subst x; vm_compute; split; [reflexivity | exact I]|]).
    contradiction.
  - vm_compute. reflexivity.
  - vm_compute. reflexivity.
  - vm_compute. reflexivity.
  - discriminate.
Defined.

(** *** The persistence adapter *)

Lemma downloadAndStoreImage_cases (P : Platform) (url projectId v : jsstring) :
  Storage.downloadAndStoreImage P url projectId = Some v ->
  startsWith url (js "data:") = false
  /\ ((includes url (js "images.unsplash.com") = true
       /\ v = (if includes url (js "?") then url else url ++ js "?w=1200&q=80"))
      \/ (includes url (js "images.unsplash.com") = false
          /\ Storage.isValidImageUrl P url = true
          /\ Storage.ensureStorageBucket (bucket_call P 0) = true /\ v = url)).
Proof.
  unfold Storage.downloadAndStoreImage.
  destruct (startsWith url (js "data:")); [discriminate|].
  intros E. split; [reflexivity|]. revert E.
  destruct (includes url (js "images.unsplash.com")) eqn:Hu.
  - intros E. injection E as <-. left. now split.
  - destruct (Storage.isValidImageUrl P url); [|discriminate].
    destruct (Storage.ensureStorageBucket (bucket_call P 0)); [|discriminate].
    intros E. injection E as <-. right. repeat split.
Qed.

(** [awaits_bucket] says when the answer of [downloadAndStoreImage] depends
    on the storage service, and how. *)
Lemma awaits_bucket_spec (P : Platform) (url projectId : jsstring) :
  if Storage.awaits_bucket P url
  then Storage.downloadAndStoreImage P url projectId
       = if Storage.ensureStorageBucket (bucket_call P 0) then Some url else None
  else forall b,
         Storage.downloadAndStoreImage (with_bucket P b) url projectId
         = Storage.downloadAndStoreImage P url projectId.
Proof.
  unfold Storage.awaits_bucket, Storage.downloadAndStoreImage.
  destruct (startsWith url (js "data:")); [reflexivity|].
  destruct (includes url (js "images.unsplash.com")); [reflexivity|].
  change (Storage.isValidImageUrl (with_bucket P _) url)
    with (Storage.isValidImageUrl P url).
  destruct (Storage.isValidImageUrl P url); cbn [negb]; [|reflexivity].
  now destruct (Storage.ensureStorageBucket (bucket_call P 0)).
Qed.

Lemma isValidImageUrl_unsplash (P : Platform) (url : jsstring) :
  startsWith url (js "data:") = false ->
  includes url (js "images.unsplash.com") = true ->
  Storage.isValidImageUrl P url = true.
Proof. intros Hd Hu. unfold Storage.isValidImageUrl. now rewrite Hd, Hu. Qed.

Lemma unsplash_with_params (url : jsstring) :
  startsWith url (js "data:") = false ->
  includes url (js "images.unsplash.com") = true ->
  startsWith (url ++ js "?w=1200&q=80") (js "data:") = false
  /\ includes (url ++ js "?w=1200&q=80") (js "images.unsplash.com") = true
  /\ includes (url ++ js "?w=1200&q=80") (js "?") = true.
Proof.
  intros Hd Hu. split; [|split].
  - rewrite startsWith_app_long; [exact Hd|].
    apply includes_length in Hu. 
    change (length (js "images.unsplash.com")) with 19 in Hu.
    change (length (js "data:")) with 5. lia.
  - now apply includes_app_l.
  - apply includes_app_r. reflexivity.
Qed.

(** An Unsplash URL with a query is returned as it is, by every call. *)
Lemma downloadAndStoreImage_unsplash_query (P : Platform) (v projectId : jsstring) :
  startsWith v (js "data:") = false ->
  includes v (js "images.unsplash.com") = true ->
  includes v (js "?") = true ->
  Storage.downloadAndStoreImage P v projectId = Some v.
Proof.
  intros A B C. unfold Storage.downloadAndStoreImage. now rewrite A, B, C.
Qed.

(** What [downloadAndStoreImage] has returned once is no [data:] URL.  A
    later call, whatever the storage service answers then, returns it again
    when it is an Unsplash URL or the bucket is ensured then, and returns
    nothing else. *)
Lemma downloadAndStoreImage_again (P : Platform) (url projectId v : jsstring) :
  Storage.downloadAndStoreImage P url projectId = Some v ->
  isDataUrl v = false
  /\ (forall b projectId',
        isUnsplashUrl v = true \/ Storage.ensureStorageBucket (b 0) = true ->
        Storage.downloadAndStoreImage (with_bucket P b) v projectId' = Some v)
  /\ (forall b projectId' r,
        Storage.downloadAndStoreImage (with_bucket P b) v projectId' = Some r -> r = v).
Proof.
  intros H. destruct (downloadAndStoreImage_cases P url projectId v H)
    as [Hd [[Hu Hv]|[Hu [Hvalid [Hb Hv]]]]].
  - assert (Hq : startsWith v (js "data:") = false
                 /\ includes v (js "images.unsplash.com") = true
                 /\ includes v (js "?") = true).
    { destruct (includes url (js "?")) eqn:Hq; subst v.
      - now repeat split.
      - now apply unsplash_with_params. }
    destruct Hq as [A [B C]]. split; [exact A|]. split.
    + intros b p _. now apply downloadAndStoreImage_unsplash_query.
    + intros b p r Hr.
      rewrite (downloadAndStoreImage_unsplash_query _ v p A B C) in Hr. congruence.
  - subst v. split; [exact Hd|]. split.
    + intros b p [Hx|Hx].
      * unfold isUnsplashUrl in Hx. congruence.
      * unfold Storage.downloadAndStoreImage. rewrite Hd, Hu.
        change (Storage.isValidImageUrl (with_bucket P b) url)
          with (Storage.isValidImageUrl P url).
        rewrite Hvalid. cbn [negb].
        change (bucket_call (with_bucket P b) 0) with (b 0). now rewrite Hx.
    + intros b p r. unfold Storage.downloadAndStoreImage. rewrite Hd, Hu.
      destruct (negb (Storage.isValidImageUrl (with_bucket P b) url)); [discriminate|].
      destruct (negb (Storage.ensureStorageBucket (bucket_call (with_bucket P b) 0)));
        [discriminate|].
      congruence.
Qed.

(** X7. When [downloadAndStoreImage] accepts a URL, [isValidImageUrl] accepts
    it too; the stored URL is no [data:] URL, and it is the input or the
    input with [?w=1200&q=80] appended.  A later call with the stored URL
    (for any project, whatever the storage service answers then) returns it
    unchanged when it is an Unsplash URL or [ensureStorageBucket()] succeeds
    at that call, and [null] otherwise. *)
Theorem downloadAndStoreImage_accepted (P : Platform) (url projectId v : jsstring) :
  Storage.downloadAndStoreImage P url projectId = Some v ->
  Storage.isValidImageUrl P url = true
  /\ isDataUrl v = false
  /\ (v = url \/ v = url ++ js "?w=1200&q=80")
  /\ (forall b projectId',
        Storage.downloadAndStoreImage (with_bucket P b) v projectId'
        = if isUnsplashUrl v || Storage.ensureStorageBucket (b 0)
          then Some v else None).
Proof.
  intros H.
  destruct (downloadAndStoreImage_cases P url projectId v H)
    as [Hd [[Hu Hv]|[Hu [Hvalid [Hb Hv]]]]].
  - split; [now apply isValidImageUrl_unsplash|].
    assert (Hq : startsWith v (js "data:") = false
                 /\ includes v (js "images.unsplash.com") = true
                 /\ includes v (js "?") = true).
    { destruct (includes url (js "?")) eqn:Hq; subst v.
      - now repeat split.
      - now apply unsplash_with_params. }
    destruct Hq as [A [B C]].
    split; [exact A|]. split.
    + destruct (includes url (js "?")); [now left | now right].
    + intros b p. unfold isUnsplashUrl. rewrite B. cbn [orb].
      now apply downloadAndStoreImage_unsplash_query.
  - subst v. split; [exact Hvalid|]. split; [exact Hd|]. split; [now left|].
    intros b p. unfold isUnsplashUrl, Storage.downloadAndStoreImage.
    rewrite Hd, Hu. cbn [orb].
    change (Storage.isValidImageUrl (with_bucket P b) url)
      with (Storage.isValidImageUrl P url).
    rewrite Hvalid. cbn [negb].
    change (bucket_call (with_bucket P b) 0) with (b 0).
    now destruct (Storage.ensureStorageBucket (b 0)).
Qed.

Lemma downloadAndStoreImage_accepted_witness :
  let P := with_bucket Fixtures.gallery_platform (fun _ => Fixtures.bucket_found) in
  Storage.downloadAndStoreImage P (js "https://example.com/a.png") Fixtures.project
  = Some (js "https://example.com/a.png")
  /\ Storage.downloadAndStoreImage
       (with_bucket P (fun _ => Fixtures.bucket_unreachable))
       (js "https://example.com/a.png") Fixtures.project
     = None.
Proof.
  cbv zeta.
  assert (H : Storage.downloadAndStoreImage
                (with_bucket Fixtures.gallery_platform (fun _ => Fixtures.bucket_found))
                (js "https://example.com/a.png") Fixtures.project
              = Some (js "https://example.com/a.png"))
    by (vm_compute; reflexivity).
  split; [exact H|].
  exact (proj2 (proj2 (proj2 (downloadAndStoreImage_accepted _ _ _ _ H)))
           (fun _ => Fixtures.bucket_unreachable) Fixtures.project).
Defined.

(** X8. [downloadAndStoreImage] accepts every Unsplash URL, whatever the state
    of the storage bucket: the stored URL starts with the input and has a
    query, and it is the input itself when the input already has one. *)
Theorem downloadAndStoreImage_unsplash (P : Platform) (url projectId : jsstring) :
  includes url (js "images.unsplash.com") = true ->
  isDataUrl url = false ->
  exists v,
    Storage.downloadAndStoreImage P url projectId = Some v
    /\ includes v (js "?") = true
    /\ startsWith v url = true
    /\ (includes url (js "?") = true -> v = url).
Proof.
  intros Hu Hd. unfold isDataUrl in Hd. unfold Storage.downloadAndStoreImage.
  rewrite Hd, Hu. destruct (includes url (js "?")) eqn:Hq.
  - exists url. split; [reflexivity|]. split; [exact Hq|].
    split; [|reflexivity].
    rewrite <- (app_nil_r url) at 1. apply startsWith_app.
  - exists (url ++ js "?w=1200&q=80"). split; [reflexivity|].
    split; [apply includes_app_r; reflexivity|].
    split; [apply startsWith_app | discriminate].
Qed.

Lemma downloadAndStoreImage_unsplash_witness :
  includes (js "https://images.unsplash.com/photo-1") (js "images.unsplash.com") = true
  /\ isDataUrl (js "https://images.unsplash.com/photo-1") = false
  /\ Storage.ensureStorageBucket (bucket_call Fixtures.gallery_platform 0) = false
  /\ exists v,
       Storage.downloadAndStoreImage Fixtures.gallery_platform
         (js "https://images.unsplash.com/photo-1") Fixtures.project = Some v
       /\ includes v (js "?") = true
       /\ startsWith v (js "https://images.unsplash.com/photo-1") = true
       /\ (includes (js "https://images.unsplash.com/photo-1") (js "?") = true ->
           v = js "https://images.unsplash.com/photo-1").
Proof.
  split; [reflexivity|]. split; [reflexivity|]. split; [reflexivity|].
  exact (downloadAndStoreImage_unsplash Fixtures.gallery_platform
           (js "https://images.unsplash.com/photo-1") Fixtures.project
           eq_refl eq_refl).
Defined.

Lemma asset_row_urls (projectId : jsstring) (type : AssetType)
    (l : list (option jsstring)) :
  Forall (fun o => o <> Some []) l ->
  map asset_url (flat_map (Storage.asset_row projectId type) l) = Storage.keep_stored l.
Proof.
  induction 1 as [|o l Ho _ IH]; [reflexivity|].
  cbn [flat_map Storage.keep_stored]. rewrite map_app, IH.
  destruct o as [[|c s]|]; [congruence | reflexivity | reflexivity].
Qed.

Lemma asset_row_fields (projectId : jsstring) (type : AssetType)
    (l : list (option jsstring)) :
  Forall (fun r => asset_project_id r = projectId /\ asset_type r = type)
    (flat_map (Storage.asset_row projectId type) l).
Proof.
  induction l as [|o l IH]; [constructor|].
  cbn [flat_map]. apply Forall_app. split; [|exact IH].
  destruct o as [[|c s]|]; repeat constructor.
Qed.

Lemma keep_stored_app (l1 l2 : list (option jsstring)) :
  Storage.keep_stored (l1 ++ l2) = Storage.keep_stored l1 ++ Storage.keep_stored l2.
Proof. apply flat_map_app. Qed.

Lemma keep_stored_length (l : list (option jsstring)) :
  length (Storage.keep_stored l) <= length l.
Proof.
  unfold Storage.keep_stored.
  induction l as [|o l IH]; [reflexivity|].
  cbn [flat_map]. rewrite length_app. destruct o; cbn [length]; lia.
Qed.

Lemma settle_Permutation (j : N * option jsstring) (l : list (N * option jsstring)) :
  Permutation (Storage.settle j l) (j :: l).
Proof.
  induction l as [|k l IH]; [reflexivity|].
  cbn [Storage.settle]. destruct (fst j <=? fst k)%N; [reflexivity|].
  rewrite IH. apply perm_swap.
Qed.

Lemma settled_order_Permutation (jobs : list Storage.ImageJob) :
  Permutation (Storage.settled_order jobs) (awaited jobs).
Proof.
  induction jobs as [|job jobs IH]; [reflexivity|].
  cbn [Storage.settled_order awaited flat_map].
  destruct (Storage.settles job) as [t|]; [|exact IH].
  rewrite settle_Permutation. cbn [app]. now constructor.
Qed.

Lemma if_stored_cases (o : option jsstring) :
  Storage.if_stored o = None
  \/ exists v, v <> [] /\ o = Some v /\ Storage.if_stored o = Some v.
Proof.
  destruct o as [[|c s]|]; [now left| |now left].
  right. exists (c :: s). split; [discriminate|]. now split.
Qed.

Lemma awaits_bucket_cases (P : Platform) (url projectId v : jsstring) :
  Storage.downloadAndStoreImage P url projectId = Some v ->
  isUnsplashUrl v = negb (Storage.awaits_bucket P url).
Proof.
  intros H. destruct (downloadAndStoreImage_cases P url projectId v H)
    as [Hd [[Hu Hv]|[Hu [Hvalid [Hb Hv]]]]];
    unfold Storage.awaits_bucket; rewrite Hd, Hu.
  - unfold isUnsplashUrl. destruct (includes url (js "?")); subst v; [exact Hu|].
    now apply includes_app_l.
  - rewrite Hvalid. subst v. exact Hu.
Qed.

Lemma job_of_more (P : Platform) (projectId url : jsstring) (urls : list jsstring)
    (job : Storage.ImageJob) :
  job_of P projectId urls job -> job_of P projectId (url :: urls) job.
Proof.
  intros [H|[v [Q [u [A [B [C D]]]]]]]; [now left|].
  right. exists v, Q, u. split; [exact A|]. split; [exact B|].
  split; [now right | exact D].
Qed.

Lemma image_jobs_spec (P : Platform) (projectId : jsstring) (urls : list jsstring) :
  forall calls,
    length (Storage.image_jobs P projectId urls calls) = length urls
    /\ Forall (job_of P projectId urls) (Storage.image_jobs P projectId urls calls).
Proof.
  induction urls as [|url urls IH]; intros calls; [split; [reflexivity | constructor]|].
  cbn [Storage.image_jobs].
  destruct (Storage.awaits_bucket P url) eqn:Ea.
  - destruct (IH (S calls)) as [IH1 IH2]. cbn [length]. split; [now rewrite IH1|].
    constructor.
    + destruct (if_stored_cases
                  (Storage.downloadAndStoreImage (after_calls calls P) url projectId))
        as [E|[v [Hv [Hd E]]]]; [now left|].
      right. exists v, (after_calls calls P), url.
      cbn [Storage.storedUrl Storage.settles].
      split; [exact E|]. split; [exact Hv|]. split; [now left|].
      split; [exact Hd|]. split; [reflexivity|].
      rewrite (awaits_bucket_cases _ _ _ _ Hd).
      change (Storage.awaits_bucket (after_calls calls P) url)
        with (Storage.awaits_bucket P url).
      now rewrite Ea.
    + eapply Forall_impl; [|exact IH2]. intros job. apply job_of_more.
  - destruct (IH calls) as [IH1 IH2]. cbn [length]. split; [now rewrite IH1|].
    constructor.
    + destruct (if_stored_cases (Storage.downloadAndStoreImage P url projectId))
        as [E|[v [Hv [Hd E]]]]; [now left|].
      right. exists v, P, url.
      cbn [Storage.storedUrl Storage.settles].
      split; [exact E|]. split; [exact Hv|]. split; [now left|].
      split; [exact Hd|]. split; [reflexivity|].
      rewrite (awaits_bucket_cases _ _ _ _ Hd). now rewrite Ea.
    + eapply Forall_impl; [|exact IH2]. intros job. apply job_of_more.
Qed.

Lemma job_of_truthy (P : Platform) (projectId : jsstring) (urls : list jsstring)
    (job : Storage.ImageJob) :
  job_of P projectId urls job -> Storage.storedUrl job <> Some [].
Proof.
  intros [H|[v [Q [u [A [B _]]]]]]; congruence.
Qed.

(** The immediate jobs return the Unsplash URLs of the stored URLs, the
    others the rest. *)
Lemma jobs_by_host (P : Platform) (projectId : jsstring) (urls : list jsstring)
    (jobs : list Storage.ImageJob) :
  Forall (job_of P projectId urls) jobs ->
  let storedUrls := Storage.keep_stored (map Storage.storedUrl jobs) in
  Storage.keep_stored (Storage.immediate jobs) = filter isUnsplashUrl storedUrls
  /\ Storage.keep_stored (map snd (awaited jobs))
     = filter (fun v => negb (isUnsplashUrl v)) storedUrls.
Proof.
  cbv zeta. induction 1 as [|job jobs Hj _ [IH1 IH2]]; [now split|].
  unfold Storage.immediate, awaited in *.
  cbn [map flat_map Storage.keep_stored].
  fold (Storage.keep_stored (map Storage.storedUrl jobs)).
  rewrite map_app, !keep_stored_app, !filter_app, IH1, IH2.
  destruct Hj as [E|[v [Q [u [E [_ [_ [_ [_ Hh]]]]]]]]]; rewrite E.
  - destruct (Storage.settles job); split; reflexivity.
  - destruct (Storage.settles job); cbn [map snd Storage.keep_stored flat_map filter app];
      rewrite Hh; cbn [negb app]; split; reflexivity.
Qed.

Lemma filter_Permutation {A} (f : A -> bool) (l : list A) :
  Permutation (filter f l ++ filter (fun x => negb (f x)) l) l.
Proof.
  induction l as [|x l IH]; [reflexivity|].
  cbn [filter]. destruct (f x); cbn [negb app].
  - now constructor.
  - symmetry. apply Permutation_cons_app. now symmetry.
Qed.

Lemma filter_all {A} (f : A -> bool) (l : list A) :
  Forall (fun x => f x = true) l -> filter f l = l.
Proof.
  induction 1 as [|x l Hx _ IH]; simpl; [reflexivity|]. now rewrite Hx, IH.
Qed.

Lemma filter_none {A} (f : A -> bool) (l : list A) :
  Forall (fun x => f x = false) l -> filter f l = [].
Proof.
  induction 1 as [|x l Hx _ IH]; simpl; [reflexivity|]. now rewrite Hx, IH.
Qed.

(** The parts of what the adapter returns. *)
Lemma storeProjectAssets_parts (P : Platform) (projectId : jsstring)
    (imgs : list jsstring) (logo : option jsstring) :
  let stored := fst (Storage.storeProjectAssets P projectId imgs logo) in
  let rows := snd (Storage.storeProjectAssets P projectId imgs logo) in
  let jobs := Storage.image_jobs P projectId imgs (logo_calls P logo) in
  let accepted := Storage.keep_stored (map Storage.storedUrl jobs) in
  Storage.stored_images stored
  = match accepted with [] => Storage.FALLBACK_IMAGES | _ => accepted end
  /\ rows = Storage.asset_row projectId asset_logo (Storage.stored_logo stored)
            ++ flat_map (Storage.asset_row projectId asset_image)
                 (Storage.immediate jobs ++ map snd (Storage.settled_order jobs))
  /\ match Storage.stored_logo stored with
     | Some l => l <> []
                 /\ exists u, logo = Some u
                      /\ Storage.downloadAndStoreImage P u projectId = Some l
     | None => True
     end.
Proof.
  cbv zeta. unfold Storage.storeProjectAssets, logo_calls.
  destruct logo as [[|c s]|]; cbn [fst snd Storage.stored_images Storage.stored_logo];
    try (repeat split; fail).
  split; [reflexivity|]. split; [reflexivity|].
  destruct (if_stored_cases (Storage.downloadAndStoreImage P (c :: s) projectId))
    as [E|[v [Hv [Hd E]]]]; rewrite E; [exact I|].
  split; [exact Hv|]. exists (c :: s). now split.
Qed.

(** The URLs of the image rows, in the order of the rows. *)
Lemma image_rows_urls (P : Platform) (projectId : jsstring) (imgs : list jsstring)
    (calls : nat) :
  let jobs := Storage.image_jobs P projectId imgs calls in
  let storedUrls := Storage.keep_stored (map Storage.storedUrl jobs) in
  let imageRows :=
    flat_map (Storage.asset_row projectId asset_image)
      (Storage.immediate jobs ++ map snd (Storage.settled_order jobs)) in
  length imageRows = length storedUrls
  /\ length storedUrls <= length imgs
  /\ exists waited,
       map asset_url imageRows = filter isUnsplashUrl storedUrls ++ waited
       /\ Permutation waited (filter (fun v => negb (isUnsplashUrl v)) storedUrls).
Proof.
  cbv zeta. destruct (image_jobs_spec P projectId imgs calls) as [Hlen Hjobs].
  set (jobs := Storage.image_jobs P projectId imgs calls) in *.
  destruct (jobs_by_host P projectId imgs jobs Hjobs) as [Hi Ha]. cbv zeta in Hi, Ha.
  assert (Ht : Forall (fun o => o <> Some [])
                 (Storage.immediate jobs ++ map snd (Storage.settled_order jobs))).
  { apply Forall_app. split.
    - unfold Storage.immediate. apply Forall_flat_map.
      eapply Forall_impl; [|exact Hjobs]. intros job Hj.
      destruct (Storage.settles job); constructor; [|constructor].
      eapply job_of_truthy, Hj.
    - eapply Permutation_Forall.
      + apply Permutation_map. symmetry. apply settled_order_Permutation.
      + unfold awaited. rewrite flat_map_concat_map, concat_map, map_map.
        rewrite <- flat_map_concat_map. apply Forall_flat_map.
        eapply Forall_impl; [|exact Hjobs]. intros job Hj.
        destruct (Storage.settles job); constructor; [|constructor].
        eapply job_of_truthy, Hj. }
  assert (Hw : Permutation (Storage.keep_stored (map snd (Storage.settled_order jobs)))
                 (filter (fun v => negb (isUnsplashUrl v))
                    (Storage.keep_stored (map Storage.storedUrl jobs)))).
  { rewrite <- Ha. unfold Storage.keep_stored. apply Permutation_flat_map.
    apply Permutation_map. apply settled_order_Permutation. }
  assert (Hurls : map asset_url
                    (flat_map (Storage.asset_row projectId asset_image)
                       (Storage.immediate jobs ++ map snd (Storage.settled_order jobs)))
                  = filter isUnsplashUrl (Storage.keep_stored (map Storage.storedUrl jobs))
                    ++ Storage.keep_stored (map snd (Storage.settled_order jobs))).
  { rewrite (asset_row_urls _ _ _ Ht), keep_stored_app. now rewrite Hi. }
  split.
  { rewrite <- (length_map asset_url), Hurls, length_app.
    rewrite (Permutation_length Hw), <- length_app.
    apply Permutation_length, filter_Permutation. }
  split.
  { etransitivity; [apply keep_stored_length|]. now rewrite length_map, Hlen. }
  eexists. split; [exact Hurls | exact Hw].
Qed.

Lemma asset_row_logo (projectId : jsstring) (storedLogo : option jsstring) :
  match storedLogo with Some l => l <> [] | None => True end ->
  Storage.asset_row projectId asset_logo storedLogo
  = match storedLogo with
    | Some l => [{| asset_project_id := projectId; asset_type := asset_logo;
                    asset_url := l |}]
    | None => []
    end.
Proof. destruct storedLogo as [[|c s]|]; [congruence | reflexivity | reflexivity]. Qed.

(** X9. The rows [storeProjectAssets] submits to the [assets] table: all carry
    the project id; the [logo] row, present exactly when a logo is returned
    and with its URL, comes first and the [image] rows follow, with no row
    of another type.  Unless no image was accepted (then there is no [image]
    row and the fallback images are returned), the [image] rows carry the
    returned images, each once: first the Unsplash URLs in the order of the
    returned images, then the others in some order (they are submitted as
    their calls of [ensureStorageBucket()] settle, which need not be in the
    order of the images).  There is at most one row more than there are
    input images. *)
Theorem storeProjectAssets_rows (P : Platform) (projectId : jsstring)
    (imgs : list jsstring) (logo : option jsstring) :
  let stored := fst (Storage.storeProjectAssets P projectId imgs logo) in
  let rows := snd (Storage.storeProjectAssets P projectId imgs logo) in
  let image_urls := map asset_url (filter is_image_row rows) in
  Forall (fun r => asset_project_id r = projectId) rows
  /\ rows = filter is_logo_row rows ++ filter is_image_row rows
  /\ map asset_url (filter is_logo_row rows)
     = match Storage.stored_logo stored with Some l => [l] | None => [] end
  /\ ((image_urls = [] /\ Storage.stored_images stored = Storage.FALLBACK_IMAGES)
      \/ (Permutation image_urls (Storage.stored_images stored)
          /\ exists waited,
               image_urls = filter isUnsplashUrl (Storage.stored_images stored) ++ waited
               /\ Permutation waited
                    (filter (fun v => negb (isUnsplashUrl v))
                       (Storage.stored_images stored))))
  /\ length rows <= S (length imgs).
Proof.
  destruct (storeProjectAssets_parts P projectId imgs logo) as [Hi [Hr Hlogo]].
  destruct (image_rows_urls P projectId imgs (logo_calls P logo))
    as [Hlen [Hle [waited [Hu Hw]]]].
  cbv zeta in *.
  set (stored := fst (Storage.storeProjectAssets P projectId imgs logo)) in *.
  set (rows := snd (Storage.storeProjectAssets P projectId imgs logo)) in *.
  set (jobs := Storage.image_jobs P projectId imgs (logo_calls P logo)) in *.
  set (accepted := Storage.keep_stored (map Storage.storedUrl jobs)) in *.
  set (imageRows := flat_map (Storage.asset_row projectId asset_image)
                      (Storage.immediate jobs ++ map snd (Storage.settled_order jobs))) in *.
  pose proof (asset_row_fields projectId asset_image
                (Storage.immediate jobs ++ map snd (Storage.settled_order jobs))) as Hf.
  fold imageRows in Hf.
  assert (Himg : filter is_image_row imageRows = imageRows).
  { apply filter_all. eapply Forall_impl; [|exact Hf].
    intros r [_ Ht]. unfold is_image_row. now rewrite Ht. }
  assert (Hnol : filter is_logo_row imageRows = []).
  { apply filter_none. eapply Forall_impl; [|exact Hf].
    intros r [_ Ht]. unfold is_logo_row. now rewrite Ht. }
  assert (Hl : Storage.asset_row projectId asset_logo (Storage.stored_logo stored)
               = match Storage.stored_logo stored with
                 | Some l => [{| asset_project_id := projectId; asset_type := asset_logo;
                                 asset_url := l |}]
                 | None => []
                 end).
  { apply asset_row_logo. destruct (Storage.stored_logo stored); [apply Hlogo | exact I]. }
  assert (Himages : (map asset_url imageRows = [] 
                     /\ Storage.stored_images stored = Storage.FALLBACK_IMAGES)
                    \/ (Permutation (map asset_url imageRows) (Storage.stored_images stored)
                        /\ exists waited,
                             map asset_url imageRows
                             = filter isUnsplashUrl (Storage.stored_images stored) ++ waited
                             /\ Permutation waited
                                  (filter (fun v => negb (isUnsplashUrl v))
                                     (Storage.stored_images stored)))).
  { rewrite Hi. destruct accepted as [|a acc] eqn:Ea.
    - left. split; [|reflexivity].
      destruct imageRows; [reflexivity | discriminate].
    - right. split.
      + rewrite Hu, Hw. apply filter_Permutation.
      + exists waited. now split. }
  rewrite Hr, Hl, !filter_app, Himg, Hnol.
  destruct (Storage.stored_logo stored) as [l|];
    cbn [filter is_logo_row is_image_row asset_type app map asset_url length].
  - split.
    { constructor; [reflexivity|]. eapply Forall_impl; [|exact Hf]. now intros r [? _]. }
    split; [reflexivity|]. split; [reflexivity|]. split; [exact Himages | lia].
  - split.
    { eapply Forall_impl; [|exact Hf]. now intros r [? _]. }
    split; [reflexivity|]. split; [reflexivity|]. split; [exact Himages | lia].
Qed.

(** Two images, the second an Unsplash URL, on a service that lists the
    bucket: both are stored, in the order of the images, and the row of the
    second is submitted first. *)
Example storeProjectAssets_row_order :
  let P := with_bucket Fixtures.gallery_platform (fun _ => Fixtures.bucket_found) in
  let a := js "https://example.com/a.png" in
  let u := js "https://images.unsplash.com/photo-1?w=1200&q=80" in
  let stored := fst (Storage.storeProjectAssets P Fixtures.project [a; u] None) in
  let rows := snd (Storage.storeProjectAssets P Fixtures.project [a; u] None) in
  Storage.stored_images stored = [a; u] /\ map asset_url rows = [u; a].
Proof. vm_compute. split; reflexivity. Qed.

Lemma kept_url_of_call (P Q : Platform) (url projectId v : jsstring) :
  v <> [] ->
  Storage.downloadAndStoreImage Q url projectId = Some v ->
  (forall b, with_bucket Q b = with_bucket P b) ->
  kept_url P v.
Proof.
  intros Hv Hd HQ.
  destruct (downloadAndStoreImage_again Q url projectId v Hd) as [A [B C]].
  split; [exact Hv|]. split; [exact A|]. split.
  - intros b p H. rewrite <- HQ. now apply B.
  - intros b p r H. rewrite <- HQ in H. now apply (C b p).
Qed.

Lemma kept_url_fallback (P : Platform) (v : jsstring) :
  In v Storage.FALLBACK_IMAGES -> kept_url P v /\ isUnsplashUrl v = true.
Proof.
  intros Hv.
  assert (H : v <> [] /\ startsWith v (js "data:") = false
              /\ includes v (js "images.unsplash.com") = true
              /\ includes v (js "?") = true).
  { destruct Hv as [<-|[<-|[]]]; (split; [discriminate|]); now repeat split. }
  destruct H as [A [B [C D]]]. split; [|exact C].
  split; [exact A|]. split; [exact B|]. split.
  - intros b p _. now apply downloadAndStoreImage_unsplash_query.
  - intros b p r H.
    rewrite (downloadAndStoreImage_unsplash_query _ v p B C D) in H. congruence.
Qed.

Lemma kept_urls (P : Platform) (projectId : jsstring)
    (imgs : list jsstring) (logo : option jsstring) :
  let stored := fst (Storage.storeProjectAssets P projectId imgs logo) in
  Storage.stored_images stored <> []
  /\ (forall v, In v (Storage.stored_images stored) -> kept_url P v)
  /\ (forall l, Storage.stored_logo stored = Some l -> kept_url P l).
Proof.
  destruct (storeProjectAssets_parts P projectId imgs logo) as [Hi [_ Hlogo]].
  destruct (image_jobs_spec P projectId imgs (logo_calls P logo)) as [_ Hjobs].
  cbv zeta in *.
  set (stored := fst (Storage.storeProjectAssets P projectId imgs logo)) in *.
  set (jobs := Storage.image_jobs P projectId imgs (logo_calls P logo)) in *.
  set (accepted := Storage.keep_stored (map Storage.storedUrl jobs)) in *.
  split; [rewrite Hi; destruct accepted; discriminate|]. split.
  - intros v Hv. rewrite Hi in Hv. destruct accepted as [|a acc] eqn:Ea.
    + now apply kept_url_fallback.
    + rewrite <- Ea in Hv. unfold accepted, Storage.keep_stored in Hv.
      apply in_flat_map in Hv. destruct Hv as [o [Ho Hv]].
      destruct o as [w|]; [|contradiction]. destruct Hv as [->|[]].
      apply in_map_iff in Ho. destruct Ho as [job [Ej Hj]].
      rewrite Forall_forall in Hjobs.
      destruct (Hjobs job Hj) as [E|[v' [Q [u [E [Hne [_ [Hd [HQ _]]]]]]]]]; [congruence|].
      assert (v' = v) by congruence. subst v'.
      exact (kept_url_of_call P Q u projectId v Hne Hd HQ).
  - intros l El. rewrite El in Hlogo. destruct Hlogo as [Hn [u [_ Hd]]].
    exact (kept_url_of_call P P u projectId l Hn Hd (fun b => eq_refl)).
Qed.

(** Storing again what was returned, on a service that answers [b]. *)
Lemma image_jobs_again (P : Platform) (b : nat -> BucketCall) (projectId : jsstring)
    (l : list jsstring) :
  (forall v, In v l ->
     v <> []
     /\ forall n, Storage.downloadAndStoreImage
                    (with_bucket P (fun i => b (n + i))) v projectId = Some v) ->
  forall calls,
    Storage.keep_stored
      (map Storage.storedUrl (Storage.image_jobs (with_bucket P b) projectId l calls))
    = l.
Proof.
  induction l as [|v l IH]; intros H calls; [reflexivity|].
  destruct (H v (or_introl eq_refl)) as [Hv Hd].
  assert (IH' := fun c => IH (fun w Hw => H w (or_intror Hw)) c).
  cbn [Storage.image_jobs].
  destruct (Storage.awaits_bucket (with_bucket P b) v);
    cbn [map Storage.storedUrl Storage.keep_stored flat_map].
  - change (after_calls calls (with_bucket P b))
      with (with_bucket P (fun i => b (calls + i))).
    rewrite (Hd calls). destruct v as [|c t]; [congruence|].
    cbn [Storage.if_stored app]. f_equal. apply IH'.
  - pose proof (Hd 0) as Hd0.
    change (with_bucket P (fun i => b (0 + i))) with (with_bucket P b) in Hd0.
    rewrite Hd0. destruct v as [|c t]; [congruence|].
    cbn [Storage.if_stored app]. f_equal. apply IH'.
Qed.

Lemma image_jobs_nothing_new (P : Platform) (b : nat -> BucketCall)
    (projectId : jsstring) (l : list jsstring) :
  (forall v, In v l ->
     forall b' r, Storage.downloadAndStoreImage (with_bucket P b') v projectId = Some r ->
                  r = v) ->
  forall calls w,
    In w (Storage.keep_stored
            (map Storage.storedUrl
               (Storage.image_jobs (with_bucket P b) projectId l calls))) ->
    In w l.
Proof.
  induction l as [|v l IH]; intros H calls w; [intros []|].
  assert (IH' := fun c => IH (fun x Hx => H x (or_intror Hx)) c w).
  assert (Hv := H v (or_introl eq_refl)).
  cbn [Storage.image_jobs].
  destruct (Storage.awaits_bucket (with_bucket P b) v);
    cbn [map Storage.storedUrl Storage.keep_stored flat_map].
  - change (after_calls calls (with_bucket P b))
      with (with_bucket P (fun i => b (calls + i))).
    destruct (if_stored_cases
                (Storage.downloadAndStoreImage
                   (with_bucket P (fun i => b (calls + i))) v projectId))
      as [E|[r [_ [Hd E]]]]; rewrite E; cbn [app].
    + intros Hw. right. exact (IH' _ Hw).
    + intros [<-|Hw]; [left; symmetry; exact (Hv _ _ Hd) | right; exact (IH' _ Hw)].
  - destruct (if_stored_cases
                (Storage.downloadAndStoreImage (with_bucket P b) v projectId))
      as [E|[r [_ [Hd E]]]]; rewrite E; cbn [app].
    + intros Hw. right. exact (IH' _ Hw).
    + intros [<-|Hw]; [left; symmetry; exact (Hv _ _ Hd) | right; exact (IH' _ Hw)].
Qed.

Lemma stored_logo_eq (P : Platform) (projectId : jsstring) (imgs : list jsstring)
    (logo : option jsstring) :
  Storage.stored_logo (fst (Storage.storeProjectAssets P projectId imgs logo))
  = match logo with
    | Some (c :: s) => Storage.if_stored (Storage.downloadAndStoreImage P (c :: s) projectId)
    | _ => None
    end.
Proof.
  unfold Storage.storeProjectAssets. now destruct logo as [[|c s]|].
Qed.

(** X10. [storeProjectAssets] never returns an empty image list, and no
    returned image and no returned logo is empty or a [data:] URL.  Storing
    the returned assets again (for any project, whatever the storage
    service answers then) returns the same assets when every call of
    [ensureStorageBucket()] succeeds then, and the same images when all of
    them are Unsplash URLs; in any case it returns no image that is not one
    of those stored or a fallback image, and the same logo or none. *)
Theorem storeProjectAssets_stable (P : Platform) (projectId projectId' : jsstring)
    (imgs : list jsstring) (logo : option jsstring) :
  let stored := fst (Storage.storeProjectAssets P projectId imgs logo) in
  Storage.stored_images stored <> []
  /\ (forall v, In v (Storage.stored_images stored) -> v <> [] /\ isDataUrl v = false)
  /\ (forall l, Storage.stored_logo stored = Some l -> l <> [] /\ isDataUrl l = false)
  /\ (forall b,
        let again :=
          fst (Storage.storeProjectAssets (with_bucket P b) projectId'
                 (Storage.stored_images stored) (Storage.stored_logo stored)) in
        ((forall n, Storage.ensureStorageBucket (b n) = true) -> again = stored)
        /\ ((forall v, In v (Storage.stored_images stored) -> isUnsplashUrl v = true) ->
            Storage.stored_images again = Storage.stored_images stored)
        /\ (forall v, In v (Storage.stored_images again) ->
              In v (Storage.stored_images stored) \/ In v Storage.FALLBACK_IMAGES)
        /\ (Storage.stored_logo again = Storage.stored_logo stored
            \/ Storage.stored_logo again = None)).
Proof.
  destruct (kept_urls P projectId imgs logo) as [Hne [Himgs Hlogo]].
  cbv zeta in *.
  set (stored := fst (Storage.storeProjectAssets P projectId imgs logo)) in *.
  split; [exact Hne|].
  split; [intros v Hv; destruct (Himgs v Hv) as [A [B _]]; now split|].
  split; [intros l El; destruct (Hlogo l El) as [A [B _]]; now split|].
  intros b.
  destruct (storeProjectAssets_parts (with_bucket P b) projectId'
              (Storage.stored_images stored) (Storage.stored_logo stored)) as [Hi _].
  pose proof (stored_logo_eq (with_bucket P b) projectId'
                (Storage.stored_images stored) (Storage.stored_logo stored)) as Hl.
  cbv zeta in Hi.
  set (again := fst (Storage.storeProjectAssets (with_bucket P b) projectId'
                       (Storage.stored_images stored) (Storage.stored_logo stored))) in *.
  set (calls := logo_calls (with_bucket P b) (Storage.stored_logo stored)) in *.
  set (accepted := Storage.keep_stored
                     (map Storage.storedUrl
                        (Storage.image_jobs (with_bucket P b) projectId'
                           (Storage.stored_images stored) calls))) in *.
  assert (Hsame : (forall v n, In v (Storage.stored_images stored) ->
                     isUnsplashUrl v = true
                     \/ Storage.ensureStorageBucket (b (n + 0)) = true) ->
                  Storage.stored_images again = Storage.stored_images stored).
  { intros Hok. rewrite Hi. unfold accepted.
    rewrite (image_jobs_again P b projectId' (Storage.stored_images stored)).
    - destruct (Storage.stored_images stored); [congruence | reflexivity].
    - intros v Hv. destruct (Himgs v Hv) as [A [_ [B _]]]. split; [exact A|].
      intros n. apply B. exact (Hok v n Hv). }
  split; [|split; [|split]].
  - intros Hb.
    assert (Himages : Storage.stored_images again = Storage.stored_images stored).
    { apply Hsame. intros v n _. right. apply Hb. }
    assert (Hlogos : Storage.stored_logo again = Storage.stored_logo stored).
    { rewrite Hl. destruct (Storage.stored_logo stored) as [[|c t]|] eqn:El;
        try reflexivity.
      - destruct (Hlogo [] eq_refl) as [A _]. congruence.
      - destruct (Hlogo (c :: t) eq_refl) as [_ [_ [B _]]].
        rewrite (B b projectId' (or_intror (Hb 0))). reflexivity. }
    destruct again as [i l], stored as [i0 l0]. cbn in Himages, Hlogos. congruence.
  - intros Hu. apply Hsame. intros v n Hv. left. now apply Hu.
  - intros v Hv. rewrite Hi in Hv. destruct accepted as [|a acc] eqn:Ea.
    + now right.
    + left. rewrite <- Ea in Hv. unfold accepted in Hv.
      apply (image_jobs_nothing_new P b projectId' _) in Hv; [exact Hv|].
      intros w Hw b' r Hr. destruct (Himgs w Hw) as [_ [_ [_ C]]].
      exact (C b' projectId' r Hr).
  - rewrite Hl. destruct (Storage.stored_logo stored) as [[|c t]|] eqn:El;
      [now right| |now left].
    destruct (Hlogo (c :: t) eq_refl) as [_ [_ [_ C]]].
    destruct (if_stored_cases
                (Storage.downloadAndStoreImage (with_bucket P b) (c :: t) projectId'))
      as [E|[r [_ [Hd E]]]]; rewrite E; [now right|].
    left. f_equal. exact (C b projectId' r Hd).
Qed.

(** A page image stored on a service that lists the bucket is lost, and
    the fallback images returned, when it is stored again on a service that
    cannot be reached. *)
Example storeProjectAssets_not_stable :
  let P := with_bucket Fixtures.gallery_platform (fun _ => Fixtures.bucket_found) in
  let a := js "https://example.com/a.png" in
  let stored := fst (Storage.storeProjectAssets P Fixtures.project [a] None) in
  Storage.stored_images stored = [a]
  /\ Storage.stored_images
       (fst (Storage.storeProjectAssets
               (with_bucket P (fun _ => Fixtures.bucket_unreachable)) Fixtures.project
               (Storage.stored_images stored) (Storage.stored_logo stored)))
     = Storage.FALLBACK_IMAGES.
Proof. vm_compute. split; reflexivity. Qed.

(** X11. [getImageExtension] always returns one of [jpg], [jpeg], [png],
    [gif], [webp], [svg]; it returns [jpg] when the [URL] constructor rejects
    the URL and when the lower-cased text after the last dot of the path is
    none of the six. *)
Theorem getImageExtension_range (P : Platform) (url : jsstring) :
  In (Storage.getImageExtension P url)
     [js "jpg"; js "jpeg"; js "png"; js "gif"; js "webp"; js "svg"]
  /\ (URL_new P url None = None -> Storage.getImageExtension P url = js "jpg")
  /\ (forall u, URL_new P url None = Some u ->
        ~ In (toLowerCase P (last (split 46%N (pathname u)) []))
            [js "jpg"; js "jpeg"; js "png"; js "gif"; js "webp"; js "svg"] ->
        Storage.getImageExtension P url = js "jpg").
Proof.
  unfold Storage.getImageExtension.
  destruct (URL_new P url None) as [u|]; cbv zeta.
  - set (ext := toLowerCase P (last (split 46%N (pathname u)) [])).
    destruct (truthy ext && existsb (fun e => str_eqb e ext) _) eqn:E.
    + apply andb_prop in E. destruct E as [_ E].
      apply existsb_exists in E. destruct E as [e [He Heq]].
      apply str_eqb_eq in Heq. subst e.
      split; [exact He|]. split; [discriminate|].
      intros u' Hu Hn. injection Hu as <-. contradiction.
    + split; [now left|]. split; reflexivity.
  - split; [now left|]. split; [reflexivity | discriminate].
Qed.

(** *** The rendering proxy client, continued *)

(** X12. How [makeScrapingBeeRequest] reads an answer of the proxy with status
    and body: the quota error [API_LIMIT_REACHED] is thrown exactly when the
    status is 401 and the body contains [API calls limit reached]; the body is
    the page exactly when the status is a success status; every other answer
    throws [ScrapingBee API error: <status> - <body>]. *)
Theorem fetch_text_quota (P : Platform) (cleanUrl : jsstring) (withJs : bool)
    (retryCount : nat) (status : N) (body : jsstring) :
  fetch_page P cleanUrl withJs retryCount = Http status body ->
  (Scraper.fetch_text P cleanUrl withJs retryCount = Throw Scraper.API_LIMIT_REACHED
   <-> status = 401%N /\ includes body (js "API calls limit reached") = true)
  /\ (Scraper.fetch_text P cleanUrl withJs retryCount = Return body
      <-> status_ok status = true)
  /\ (status_ok status = false ->
      (status =? 401)%N && includes body (js "API calls limit reached") = false ->
      Scraper.fetch_text P cleanUrl withJs retryCount
      = Throw (js "ScrapingBee API error: " ++ decimal status ++ js " - " ++ body)).
Proof.
  intros Hf. unfold Scraper.fetch_text. rewrite Hf.
  destruct (status_ok status) eqn:Hok; cbn [negb].
  - split; [|split].
    + split; [discriminate|]. intros [-> _]. discriminate Hok.
    + split; reflexivity.
    + discriminate.
  - destruct ((status =? 401)%N && includes body (js "API calls limit reached")) eqn:Hq.
    + apply andb_prop in Hq. destruct Hq as [H1 H2]. apply N.eqb_eq in H1.
      split; [|split].
      * split; [now intros _ | reflexivity].
      * split; discriminate.
      * discriminate.
    + split; [|split].
      * split; [discriminate|]. intros [-> H2]. rewrite H2 in Hq. discriminate Hq.
      * split; discriminate.
      * reflexivity.
Qed.

Lemma fetch_text_quota_witness :
  fetch_page Fixtures.quota_platform Fixtures.site true 0
    = Http 401 (js "API calls limit reached")
  /\ Scraper.fetch_text Fixtures.quota_platform Fixtures.site true 0
     = Throw Scraper.API_LIMIT_REACHED.
Proof.
  split; [reflexivity|].
  apply (proj2 (proj1 (fetch_text_quota Fixtures.quota_platform Fixtures.site true 0
                         401 (js "API calls limit reached") eq_refl))).
  split; reflexivity.
Defined.

Lemma schedule_from_app (k r : nat) :
  schedule_from r (S k)
  = schedule_from r k
    ++ [Scraper.EvSleep (2000 * Z.of_nat (r + S k)); Scraper.EvFetch (r + S k)].
Proof.
  revert r. induction k as [|k IH]; intros r.
  - cbn [schedule_from app]. rewrite Nat.add_1_r.
    replace (Z.of_nat r + 1)%Z with (Z.of_nat (S r)) by lia. reflexivity.
  - change (schedule_from r (S (S k)))
      with (Scraper.EvFetch r :: Scraper.EvSleep (2000 * (Z.of_nat r + 1))
              :: schedule_from (S r) (S k)).
    rewrite IH. cbn [schedule_from app].
    now replace (S r + S k) with (r + S (S k)) by lia.
Qed.

Lemma schedule_from_0 (k : nat) : schedule_from 0 k = schedule k.
Proof.
  induction k as [|k IH]; [reflexivity|].
  rewrite schedule_from_app, IH. reflexivity.
Qed.

(** Once the key and the URL are accepted, the trace of a request is not
    empty. *)
Lemma makeScrapingBeeRequest_fetches (P : Platform) (url : jsstring) (withJs : bool)
    (fuel r : nat) (res : completion jsstring) :
  otruthy (SCRAPINGBEE_API_KEY P) = true ->
  Scraper.validateUrl P (trim url) = true ->
  Scraper.makeScrapingBeeRequest fuel P url withJs r <> Some (res, []).
Proof.
  intros Hk Hv. destruct fuel as [|f]; [discriminate|].
  cbn [Scraper.makeScrapingBeeRequest]. rewrite Hk, Hv. cbn [negb].
  destruct (Scraper.request_once f P (trim url) withJs r) as [[html|m]|];
    [discriminate| |discriminate].
  destruct (str_eqb m Scraper.API_LIMIT_REACHED); [discriminate|].
  destruct (r <? 2); [|discriminate].
  destruct (Scraper.makeScrapingBeeRequest f P url withJs (r + 1)) as [[c evs']|];
    discriminate.
Qed.

(** The traces of the requests that start at attempt [r]. *)
Lemma makeScrapingBeeRequest_trace (P : Platform) (url : jsstring) (withJs : bool) :
  forall fuel r res evs,
    Scraper.makeScrapingBeeRequest fuel P url withJs r = Some (res, evs) ->
    (evs = []
     /\ (otruthy (SCRAPINGBEE_API_KEY P) = false
         \/ Scraper.validateUrl P (trim url) = false))
    \/ exists k, (k = 0 \/ r + k <= 2) /\ evs = schedule_from r k.
Proof.
  induction fuel as [|f IH]; intros r res evs; [discriminate|].
  cbn [Scraper.makeScrapingBeeRequest].
  destruct (otruthy (SCRAPINGBEE_API_KEY P)) eqn:Hk; cbn [negb].
  2:{ intros H. injection H as _ <-. left. split; [reflexivity | now left]. }
  destruct (Scraper.validateUrl P (trim url)) eqn:Hv; cbn [negb].
  2:{ intros H. injection H as _ <-. left. split; [reflexivity | now right]. }
  destruct (Scraper.request_once f P (trim url) withJs r) as [[html|m]|];
    [| |discriminate].
  - intros H. injection H as _ <-. right. exists 0. split; [now left | reflexivity].
  - destruct (str_eqb m Scraper.API_LIMIT_REACHED).
    { intros H. injection H as _ <-. right. exists 0. split; [now left | reflexivity]. }
    destruct (r <? 2) eqn:Hr.
    + apply Nat.ltb_lt in Hr. rewrite Nat.add_1_r.
      destruct (Scraper.makeScrapingBeeRequest f P url withJs (S r))
        as [[c evs']|] eqn:E; [|discriminate].
      intros H. injection H as _ <-. right.
      destruct (IH _ _ _ E) as [[-> _]|[k [Hk' ->]]].
      * exfalso. exact (makeScrapingBeeRequest_fetches P url withJs f (S r) c Hk Hv E).
      * exists (S k). split; [right; lia | reflexivity].
    + intros H. injection H as _ <-. right. exists 0. split; [now left | reflexivity].
Qed.

(** X13. Every call of [makeScrapingBeeRequest] that returns leaves one of four
    traces: no fetch at all, or one, two or three fetches with delays of
    2000 ms before the second and 4000 ms before the third; so it never
    waits more than 6000 ms in back-off delays.  The trace is empty only when
    the API key is missing or the URL is rejected, and otherwise holds between
    one and three fetches. *)
Theorem makeScrapingBeeRequest_traces (P : Platform) (url : jsstring) (withJs : bool)
    (fuel : nat) (res : completion jsstring) (evs : list Scraper.Event) :
  Scraper.makeScrapingBeeRequest fuel P url withJs 0 = Some (res, evs) ->
  In evs [[]; schedule 0; schedule 1; schedule 2]
  /\ (0 <= backoff evs <= 6000)%Z
  /\ (evs = [] ->
      otruthy (SCRAPINGBEE_API_KEY P) = false
      \/ Scraper.validateUrl P (trim url) = false)
  /\ (otruthy (SCRAPINGBEE_API_KEY P) = true ->
      Scraper.validateUrl P (trim url) = true ->
      1 <= fetches evs <= 3).
Proof.
  intros H.
  destruct (makeScrapingBeeRequest_trace P url withJs fuel 0 res evs H)
    as [[-> Hwhy]|[k [Hk ->]]].
  - split; [now left|]. split; [cbn; lia|]. split; [now intros _|].
    intros Hkey Hv. exfalso.
    exact (makeScrapingBeeRequest_fetches P url withJs fuel 0 res Hkey Hv H).
  - rewrite schedule_from_0.
    assert (Hcases : k = 0 \/ k = 1 \/ k = 2) by lia.
    split; [destruct Hcases as [->|[->| ->]]; cbn [In]; tauto|].
    split; [destruct Hcases as [->|[->| ->]]; cbn; lia|].
    split; [intros E; destruct Hcases as [->|[->| ->]]; discriminate E|].
    intros _ _. destruct Hcases as [->|[->| ->]]; cbn; lia.
Qed.

Lemma makeScrapingBeeRequest_traces_witness :
  Scraper.makeScrapingBeeRequest 3 Fixtures.flaky_platform Fixtures.site true 0
    = Some (Throw Scraper.API_LIMIT_REACHED, schedule 2)
  /\ backoff (schedule 2) = 6000%Z
  /\ (0 <= backoff (schedule 2) <= 6000)%Z.
Proof.
  assert (H : Scraper.makeScrapingBeeRequest 3 Fixtures.flaky_platform Fixtures.site true 0
              = Some (Throw Scraper.API_LIMIT_REACHED, schedule 2))
    by (vm_compute; reflexivity).
  split; [exact H|]. split; [reflexivity|].
  exact (proj1 (proj2 (makeScrapingBeeRequest_traces Fixtures.flaky_platform
                         Fixtures.site true 3 _ _ H))).
Defined.

Lemma all_const {A B} (f : A -> option B) (y : B) (l : list A) :
  (forall x, In x l -> f x = Some y) ->
  Scraper.all f l = Some (map (fun _ => y) l).
Proof.
  induction l as [|x l IH]; intros H; cbn [Scraper.all map]; [reflexivity|].
  rewrite (H x (or_introl eq_refl)), (IH (fun z Hz => H z (or_intror Hz))).
  reflexivity.
Qed.

Lemma filter_truthy_empty {A} (l : list A) :
  filter truthy (map (fun _ => []) l) = [].
Proof. induction l; [reflexivity | exact IHl]. Qed.

(** X14. A stylesheet that does not load does not fail the request: when the
    proxy delivers a page and none of its linked stylesheets can be loaded
    (also when it links none), [makeScrapingBeeRequest] returns the page as
    delivered, after that one fetch. *)
Theorem makeScrapingBeeRequest_without_stylesheets (P : Platform) (url : jsstring)
    (withJs : bool) (retryCount fuel : nat) (html : jsstring) :
  otruthy (SCRAPINGBEE_API_KEY P) = true ->
  Scraper.validateUrl P (trim url) = true ->
  Scraper.fetch_text P (trim url) withJs retryCount = Return html ->
  (forall link href,
     In link (querySelectorAll (parseFromString P html) Scraper.sel_stylesheet_links) ->
     getAttribute link (js "href") = Some href -> href <> [] ->
     Scraper.stylesheet_text P (Scraper.resolveUrl P (trim url) href) (trim url) = None) ->
  Scraper.makeScrapingBeeRequest (S (S fuel)) P url withJs retryCount
  = Some (Return html, [Scraper.EvFetch retryCount]).
Proof.
  intros Hk Hv Hf Hs.
  cbn [Scraper.makeScrapingBeeRequest]. rewrite Hk, Hv. cbn [negb].
  unfold Scraper.request_once. rewrite Hf. cbv zeta.
  rewrite (all_const _ [] _).
  - rewrite filter_truthy_empty. reflexivity.
  - intros link Hl.
    destruct (getAttribute link (js "href")) as [[|c h]|] eqn:Eh; try reflexivity.
    cbn [Scraper.fetchExternalStylesheet].
    now rewrite (Hs link (c :: h) Hl Eh ltac:(discriminate)).
Qed.

Lemma makeScrapingBeeRequest_without_stylesheets_witness :
  otruthy (SCRAPINGBEE_API_KEY Fixtures.unstyled_platform) = true
  /\ Scraper.validateUrl Fixtures.unstyled_platform (trim Fixtures.site) = true
  /\ Scraper.fetch_text Fixtures.unstyled_platform (trim Fixtures.site) true 0
     = Return (js "<html>...</html>")
  /\ length (querySelectorAll
               (parseFromString Fixtures.unstyled_platform (js "<html>...</html>"))
               Scraper.sel_stylesheet_links) = 1
  /\ Scraper.makeScrapingBeeRequest 2 Fixtures.unstyled_platform Fixtures.site true 0
     = Some (Return (js "<html>...</html>"), [Scraper.EvFetch 0]).
Proof.
  split; [reflexivity|]. split; [reflexivity|]. split; [reflexivity|].
  split; [reflexivity|].
  apply (makeScrapingBeeRequest_without_stylesheets Fixtures.unstyled_platform Fixtures.site
           true 0 0 (js "<html>...</html>") eq_refl eq_refl eq_refl).
  intros link href Hl Hh _. vm_compute in Hl. destruct Hl as [Hl|[]]. subst link.
  vm_compute in Hh. injection Hh as Hh. subst href. vm_compute. reflexivity.
Defined.

Lemma makeScrapingBeeRequest_trimmed (P : Platform) (url url' : jsstring)
    (withJs : bool) :
  trim url = trim url' ->
  forall fuel retryCount,
    Scraper.makeScrapingBeeRequest fuel P url withJs retryCount
    = Scraper.makeScrapingBeeRequest fuel P url' withJs retryCount.
Proof.
  intros Ht. induction fuel as [|f IH]; intros r; [reflexivity|].
  cbn [Scraper.makeScrapingBeeRequest]. rewrite <- Ht.
  destruct (negb (otruthy (SCRAPINGBEE_API_KEY P))); [reflexivity|].
  destruct (negb (Scraper.validateUrl P (trim url))); [reflexivity|].
  destruct (Scraper.request_once f P (trim url) withJs r) as [[html|m]|]; try reflexivity.
  destruct (str_eqb m Scraper.API_LIMIT_REACHED); [reflexivity|].
  destruct (r <? 2); [|reflexivity]. now rewrite IH.
Qed.

(** X15. [makeScrapingBeeRequest] depends on its URL up to surrounding white
    space only: URLs with the same [trim] give the same result and the same
    trace, at every attempt. *)
Theorem makeScrapingBeeRequest_trims_url (P : Platform) (url url' : jsstring)
    (withJs : bool) (fuel retryCount : nat) :
  trim url = trim url' ->
  Scraper.makeScrapingBeeRequest fuel P url withJs retryCount
  = Scraper.makeScrapingBeeRequest fuel P url' withJs retryCount
  /\ Scraper.makeScrapingBeeRequest fuel P (trim url) withJs retryCount
     = Scraper.makeScrapingBeeRequest fuel P url withJs retryCount.
Proof.
  intros Ht. split.
  - now apply makeScrapingBeeRequest_trimmed.
  - apply makeScrapingBeeRequest_trimmed. apply trim_idem.
Qed.

Lemma makeScrapingBeeRequest_trims_url_witness :
  trim (js "  https://example.com" ++ nl) = trim Fixtures.site
  /\ Scraper.makeScrapingBeeRequest 1 Fixtures.ftp_platform
       (js "  https://example.com" ++ nl) true 0
     = Scraper.makeScrapingBeeRequest 1 Fixtures.ftp_platform Fixtures.site true 0.
Proof.
  assert (H : trim (js "  https://example.com" ++ nl) = trim Fixtures.site)
    by (vm_compute; reflexivity).
  split; [exact H|].
  exact (proj1 (makeScrapingBeeRequest_trims_url Fixtures.ftp_platform _ _ true 1 0 H)).
Defined.

Lemma join_head (sep x : jsstring) (l : list jsstring) :
  startsWith (join sep (x :: l)) x = true.
Proof.
  destruct l as [|y l]; cbn [join].
  - rewrite <- (app_nil_r x) at 1. apply startsWith_app.
  - apply startsWith_app.
Qed.

Lemma all_Forall2 {A B} (f : A -> option B) (l : list A) (ys : list B) :
  Scraper.all f l = Some ys -> Forall2 (fun x y => f x = Some y) l ys.
Proof.
  revert ys. induction l as [|x l IH]; intros ys; cbn [Scraper.all].
  - intros H. injection H as <-. constructor.
  - destruct (f x) as [y|] eqn:Ef; [|discriminate].
    destruct (Scraper.all f l) as [zs|]; [|discriminate].
    intros H. injection H as <-. constructor; [exact Ef | now apply IH].
Qed.

Lemma Forall2_In_left {A B} (R : A -> B -> Prop) (l : list A) (l' : list B) (x : A) :
  Forall2 R l l' -> In x l -> exists y, In y l' /\ R x y.
Proof.
  induction 1 as [|a b l l' Hab _ IH]; [intros []|].
  intros [<-|Hx].
  - exists b. split; [now left | exact Hab].
  - destruct (IH Hx) as [y [Hy Hxy]]. exists y. split; [now right | exact Hxy].
Qed.

Lemma includes_join (sep : jsstring) (l : list jsstring) (y x : jsstring) :
  In y l -> includes y x = true -> includes (join sep l) x = true.
Proof.
  induction l as [|z l IH]; [intros []|]. intros Hy Hx.
  destruct l as [|z' l]; cbn [join].
  - destruct Hy as [->|[]]. exact Hx.
  - destruct Hy as [->|Hy]; [now apply includes_app_l|].
    apply includes_app_r, includes_app_r. now apply IH.
Qed.

Lemma fetchExternalStylesheet_resolved (P : Platform) (baseUrl : jsstring) :
  forall fuel styleUrl r,
    Scraper.fetchExternalStylesheet fuel P styleUrl baseUrl = Some r ->
    resolved_sheet P baseUrl styleUrl r.
Proof.
  induction fuel as [|f IH]; intros styleUrl r; [discriminate|].
  cbn [Scraper.fetchExternalStylesheet]. unfold resolved_sheet.
  destruct (Scraper.stylesheet_text P styleUrl baseUrl) as [css|] eqn:Et.
  - destruct (Scraper.importUrls css) as [|u urls] eqn:Ei.
    + intros H. injection H as <-. split.
      * split; [rewrite <- (app_nil_r css) at 1; apply startsWith_app|].
        split; [reflexivity|]. exists []. split; [reflexivity | congruence].
      * intros w css' Hw. inversion Hw as [|? v ? Hv]; subst.
        -- rewrite Et. intros E. injection E as <-. apply includes_refl.
        -- unfold sheet_imports in Hv. rewrite Et, Ei in Hv. contradiction.
    + destruct (Scraper.all _ (u :: urls)) as [imported|] eqn:Ea; [|discriminate].
      intros H. assert (Hr : r = join nl (css :: imported)) by congruence.
      clear H. subst r. apply all_Forall2 in Ea. split.
      * split; [exact (join_head nl css imported)|]. split; [discriminate|].
        exists imported. split; [|reflexivity].
        symmetry. exact (Forall2_length Ea).
      * intros w css' Hw. inversion Hw as [|? v ? Hv Hvw]; subst.
        -- rewrite Et. intros E. injection E as <-.
           apply includes_join with (y := css); [now left | apply includes_refl].
        -- unfold sheet_imports in Hv. rewrite Et, Ei in Hv.
           intros Hcss.
           destruct (Forall2_In_left _ _ _ v Ea Hv) as [y [Hy Hfy]].
           apply includes_join with (y := y); [now right|].
           exact (proj2 (IH v y Hfy) w css' Hvw Hcss).
  - intros H. injection H as <-. split; [reflexivity|].
    intros w css Hw. inversion Hw as [|? v ? Hv]; subst.
    + rewrite Et. discriminate.
    + unfold sheet_imports in Hv. rewrite Et in Hv. contradiction.
Qed.

(** With a rank that decreases along every import, fuel above the rank of
    a stylesheet suffices. *)
Lemma fetchExternalStylesheet_enough_fuel (P : Platform) (baseUrl : jsstring)
    (rank : jsstring -> nat) :
  (forall u v, In v (sheet_imports P u baseUrl) -> rank v < rank u) ->
  forall fuel styleUrl,
    rank styleUrl < fuel ->
    exists r, Scraper.fetchExternalStylesheet fuel P styleUrl baseUrl = Some r.
Proof.
  intros Hrank. induction fuel as [|f IH]; intros styleUrl Hlt; [lia|].
  cbn [Scraper.fetchExternalStylesheet].
  pose proof (Hrank styleUrl) as Hr. unfold sheet_imports in Hr.
  destruct (Scraper.stylesheet_text P styleUrl baseUrl) as [text|]; [|now eexists].
  destruct (Scraper.importUrls text) as [|u urls]; [now eexists|].
  destruct (all_total (fun importUrl => Scraper.fetchExternalStylesheet f P importUrl baseUrl)
              (u :: urls)) as [ys Hys].
  - intros x Hx. apply IH. specialize (Hr x Hx). lia.
  - rewrite Hys. now eexists.
Qed.

(** X16. When a rank decreases along every import, [fetchExternalStylesheet]
    returns, with every depth above the rank of the stylesheet, one and the
    same text: the empty string when the stylesheet cannot be loaded; the
    text of the stylesheet when it has no quoted [@import]; and otherwise
    that text first, followed by one entry for each import, joined by line
    feeds.  The text of every stylesheet that is reached through the imports
    and can be loaded occurs in what is returned. *)
Theorem fetchExternalStylesheet_own_text_first (P : Platform)
    (baseUrl : jsstring) (rank : jsstring -> nat) :
  (forall u v, In v (sheet_imports P u baseUrl) -> rank v < rank u) ->
  forall styleUrl,
    exists r,
      (forall fuel, rank styleUrl < fuel ->
         Scraper.fetchExternalStylesheet fuel P styleUrl baseUrl = Some r)
      /\ match Scraper.stylesheet_text P styleUrl baseUrl with
         | None => r = []
         | Some css =>
             startsWith r css = true
             /\ (Scraper.importUrls css = [] -> r = css)
             /\ exists importedStyles,
                  length importedStyles = length (Scraper.importUrls css)
                  /\ (Scraper.importUrls css <> [] ->
                      r = join nl (css :: importedStyles))
         end
      /\ (forall w css,
            imports_from P baseUrl styleUrl w ->
            Scraper.stylesheet_text P w baseUrl = Some css ->
            includes r css = true).
Proof.
  intros Hrank styleUrl.
  destruct (fetchExternalStylesheet_enough_fuel P baseUrl rank Hrank
              (S (rank styleUrl)) styleUrl (Nat.lt_succ_diag_r _)) as [r Hr].
  exists r. split.
  - intros fuel Hlt.
    apply (fetchExternalStylesheet_mono P baseUrl (S (rank styleUrl))); [lia | exact Hr].
  - exact (fetchExternalStylesheet_resolved P baseUrl _ styleUrl r Hr).
Qed.

Lemma fetchExternalStylesheet_own_text_first_witness :
  (forall u v,
     In v (sheet_imports Fixtures.chain_platform u Fixtures.app_base) ->
     Fixtures.chain_rank v < Fixtures.chain_rank u)
  /\ exists r,
       (forall fuel, Fixtures.chain_rank (Fixtures.chain_url 0) < fuel ->
          Scraper.fetchExternalStylesheet fuel Fixtures.chain_platform
            (Fixtures.chain_url 0) Fixtures.app_base = Some r)
       /\ startsWith r (Fixtures.chain_css 0) = true
       /\ includes r (Fixtures.chain_css 7) = true.
Proof.
  split; [exact chain_imports_decrease|].
  destruct (fetchExternalStylesheet_own_text_first Fixtures.chain_platform
              Fixtures.app_base Fixtures.chain_rank chain_imports_decrease
              (Fixtures.chain_url 0)) as [r [Hr [Hs Hi]]].
  exists r. split; [exact Hr|].
  assert (E : r = join nl (map Fixtures.chain_css [0; 1; 2; 3; 4; 5; 6; 7]%N)).
  { specialize (Hr 8 ltac:(vm_compute; lia)).
    assert (H8 : Scraper.fetchExternalStylesheet 8 Fixtures.chain_platform
                   (Fixtures.chain_url 0) Fixtures.app_base
                 = Some (join nl (map Fixtures.chain_css [0; 1; 2; 3; 4; 5; 6; 7]%N)))
      by (vm_compute; reflexivity).
    congruence. }
  subst r. split; vm_compute; reflexivity.
Defined.

(** *** The scrape orchestrator, continued *)

Lemma finalImages_eq (P : Platform) (url : jsstring) (doc : Document) :
  Scraper.finalImages P url doc
  = Scraper.scraped_images P url doc
    ++ skipn (length (Scraper.scraped_images P url doc)) Scraper.FALLBACK_IMAGES.
Proof.
  unfold Scraper.finalImages, slice0. cbv zeta.
  pose proof (scraped_images_length P url doc) as Hl.
  apply firstn_all2. rewrite length_app, length_skipn.
  change (length Scraper.FALLBACK_IMAGES) with 5. lia.
Qed.

Lemma stored_images_bounds (P : Platform) (projectId : jsstring)
    (imgs : list jsstring) (logo : option jsstring) :
  let stored := fst (Storage.storeProjectAssets P projectId imgs logo) in
  1 <= length (Storage.stored_images stored)
  /\ length (Storage.stored_images stored) <= Nat.max 2 (length imgs)
  /\ length (snd (Storage.storeProjectAssets P projectId imgs logo)) <= S (length imgs).
Proof.
  destruct (storeProjectAssets_parts P projectId imgs logo) as [Hi [Hr _]].
  destruct (image_rows_urls P projectId imgs (logo_calls P logo)) as [Hlen [Hle _]].
  cbv zeta in *. rewrite Hi, Hr, length_app, Hlen.
  set (accepted := Storage.keep_stored
                     (map Storage.storedUrl
                        (Storage.image_jobs P projectId imgs (logo_calls P logo)))) in *.
  assert (Hcase : length (match accepted with
                          | [] => Storage.FALLBACK_IMAGES
                          | _ :: _ => accepted
                          end)
                  = match accepted with [] => 2 | _ => length accepted end)
    by (now destruct accepted).
  rewrite Hcase. clear Hcase Hi Hr Hlen.
  split; [|split].
  - destruct accepted; cbn [length]; lia.
  - destruct accepted; cbn [length] in *; lia.
  - destruct (Storage.stored_logo _) as [[|c s]|]; cbn [Storage.asset_row length]; lia.
Qed.

(** What every run leaves in the log table. *)
Lemma scrapeWebsite_run (P : Platform) (url projectId : jsstring)
    (brand : option jsstring) (fuel : nat) (run : Scraper.Run) :
  Scraper.scrapeWebsite fuel P url projectId brand = Some run ->
  (exists html logoUrl,
     Scraper.makeScrapingBeeRequest fuel P url true 0
       = Some (Return html, Scraper.trace run)
     /\ Scraper.findLogo P (parseFromString P html) brand = Return logoUrl
     /\ let doc := parseFromString P html in
        let logo := Scraper.scraped_logo P url logoUrl in
        let final := Scraper.finalImages P url doc in
        let stored := Storage.storeProjectAssets P projectId final logo in
        run = {|
          Scraper.profile := {|
            colors := match Scraper.extractColors doc with
                      | [] => colors Scraper.DEFAULT_STYLE
                      | _ => Some (Scraper.extractColors doc)
                      end;
            fonts := match Scraper.extractFonts doc with
                     | [] => fonts Scraper.DEFAULT_STYLE
                     | _ => Some (Scraper.extractFonts doc)
                     end;
            images := Some final;
            logo := logo;
            metaDescription :=
              match querySelector doc Scraper.sel_meta_description with
              | Some meta => getAttribute meta (js "content")
              | None => None
              end;
            headings := headings Scraper.DEFAULT_STYLE;
            styles := styles Scraper.DEFAULT_STYLE |};
          Scraper.logs := [{|
            Scraper.log_project_id := projectId;
            Scraper.log_url := url;
            Scraper.success := true;
            Scraper.assets_found := {|
              Scraper.found_colors := length (Scraper.extractColors doc);
              Scraper.found_fonts := length (Scraper.extractFonts doc);
              Scraper.found_images := length (Storage.stored_images (fst stored));
              Scraper.found_logo := otruthy (Storage.stored_logo (fst stored));
              Scraper.found_styles := true |};
            Scraper.errors := None;
            Scraper.duration_ms := elapsed_ms P;
            Scraper.retries := 0;
            Scraper.using_default_styles := false |}];
          Scraper.asset_rows := snd stored;
          Scraper.trace := Scraper.trace run |})
  \/ (exists message,
        run = {| Scraper.profile := Scraper.DEFAULT_STYLE;
                 Scraper.logs := [Scraper.failure_log P url projectId message];
                 Scraper.asset_rows := [];
                 Scraper.trace := Scraper.trace run |}
        /\ (Scraper.makeScrapingBeeRequest fuel P url true 0
              = Some (Throw message, Scraper.trace run)
            \/ exists html,
                 Scraper.makeScrapingBeeRequest fuel P url true 0
                   = Some (Return html, Scraper.trace run)
                 /\ Scraper.findLogo P (parseFromString P html) brand = Throw message)).
Proof.
  unfold Scraper.scrapeWebsite, Scraper.scrape_try.
  destruct (Scraper.makeScrapingBeeRequest fuel P url true 0) as [[[html|m] evs]|];
    [| |discriminate].
  - destruct (Scraper.findLogo P (parseFromString P html) brand) as [logoUrl|m] eqn:El.
    + destruct (Storage.storeProjectAssets P projectId
                  (Scraper.finalImages P url (parseFromString P html))
                  (Scraper.scraped_logo P url logoUrl)) as [stored rows] eqn:Es.
      intros H. injection H as <-. left. exists html, logoUrl.
      cbv zeta. rewrite Es. cbn [Scraper.trace fst snd]. repeat split. exact El.
    + intros H. injection H as <-. right. exists m. cbn [Scraper.trace].
      split; [reflexivity|]. right. exists html. now split.
  - intros H. injection H as <-. right. exists m. cbn [Scraper.trace].
    split; [reflexivity | now left].
Qed.

(** X17. Every profile [scrapeWebsite] returns is complete: at least one
    color, at least one font, five images exactly, the styles of
    [DEFAULT_STYLE] and no headings. *)
Theorem scrapeWebsite_profile_complete (P : Platform) (url projectId : jsstring)
    (brand : option jsstring) (fuel : nat) (run : Scraper.Run) :
  Scraper.scrapeWebsite fuel P url projectId brand = Some run ->
  let w := Scraper.profile run in
  1 <= length (entries (colors w))
  /\ 1 <= length (entries (fonts w))
  /\ length (entries (images w)) = 5
  /\ styles w = styles Scraper.DEFAULT_STYLE
  /\ headings w = None.
Proof.
  intros H. destruct (scrapeWebsite_run P url projectId brand fuel run H)
    as [[html [logoUrl [_ [_ Hrun]]]]|[m [Hrun _]]];
    cbv zeta in *; rewrite Hrun; cbn [Scraper.profile colors fonts images styles headings].
  - split; [destruct (Scraper.extractColors _); cbn; lia|].
    split; [destruct (Scraper.extractFonts _); cbn; lia|].
    split; [apply finalImages_length|]. split; reflexivity.
  - cbn. repeat split; lia.
Qed.

Lemma scrapeWebsite_profile_complete_witness :
  exists run,
    Scraper.scrapeWebsite 1 Fixtures.ftp_platform Fixtures.site Fixtures.project None
      = Some run
    /\ 1 <= length (entries (colors (Scraper.profile run)))
    /\ 1 <= length (entries (fonts (Scraper.profile run)))
    /\ length (entries (images (Scraper.profile run))) = 5
    /\ styles (Scraper.profile run) = styles Scraper.DEFAULT_STYLE
    /\ headings (Scraper.profile run) = None.
Proof.
  eexists. split; [vm_compute; reflexivity|].
  refine (scrapeWebsite_profile_complete Fixtures.ftp_platform Fixtures.site
            Fixtures.project None 1 _ _).
  vm_compute. reflexivity.
Defined.

(** X18. Every call of [scrapeWebsite] that returns logs one row, with the
    project id, the URL as given, and [retries = 0] whatever the number of
    attempts of the proxy client; [using_default_styles] is the negation of
    [success].  On success the row has no errors, at most 5 colors, at most
    3 fonts and between 1 and 5 images, and at most six asset rows are
    inserted; on failure the profile is [DEFAULT_STYLE], no asset row is
    inserted and the row carries one error message. *)
Theorem scrapeWebsite_log_entry (P : Platform) (url projectId : jsstring)
    (brand : option jsstring) (fuel : nat) (run : Scraper.Run) :
  Scraper.scrapeWebsite fuel P url projectId brand = Some run ->
  exists log,
    Scraper.logs run = [log]
    /\ Scraper.log_project_id log = projectId
    /\ Scraper.log_url log = url
    /\ Scraper.duration_ms log = elapsed_ms P
    /\ Scraper.retries log = 0
    /\ Scraper.using_default_styles log = negb (Scraper.success log)
    /\ (Scraper.success log = true ->
          Scraper.errors log = None
          /\ Scraper.found_styles (Scraper.assets_found log) = true
          /\ Scraper.found_colors (Scraper.assets_found log) <= 5
          /\ Scraper.found_fonts (Scraper.assets_found log) <= 3
          /\ 1 <= Scraper.found_images (Scraper.assets_found log) <= 5
          /\ length (Scraper.asset_rows run) <= 6)
    /\ (Scraper.success log = false ->
          Scraper.profile run = Scraper.DEFAULT_STYLE
          /\ Scraper.asset_rows run = []
          /\ Scraper.found_logo (Scraper.assets_found log) = false
          /\ exists message, Scraper.errors log = Some [message]).
Proof.
  intros H. destruct (scrapeWebsite_run P url projectId brand fuel run H)
    as [[html [logoUrl [_ [_ Hrun]]]]|[m [Hrun _]]]; cbv zeta in *.
  - rewrite Hrun. eexists. cbn [Scraper.logs]. split; [reflexivity|].
    cbn [Scraper.log_project_id Scraper.log_url Scraper.duration_ms Scraper.retries
         Scraper.using_default_styles Scraper.success Scraper.errors
         Scraper.assets_found Scraper.found_styles Scraper.found_colors
         Scraper.found_fonts Scraper.found_images Scraper.asset_rows negb].
    repeat (split; [reflexivity|]). split; [|discriminate].
    intros _.
    set (doc := parseFromString P html).
    destruct (stored_images_bounds P projectId (Scraper.finalImages P url doc)
                (Scraper.scraped_logo P url logoUrl)) as [B1 [B2 B3]].
    cbv zeta in B1, B2, B3. rewrite (finalImages_length P url doc) in B2, B3.
    split; [reflexivity|]. split; [reflexivity|].
    split; [apply extractColors_length|]. split; [apply extractFonts_length|].
    split; [lia | exact B3].
  - rewrite Hrun. exists (Scraper.failure_log P url projectId m).
    cbn [Scraper.logs Scraper.profile Scraper.asset_rows].
    split; [reflexivity|]. unfold Scraper.failure_log.
    destruct (str_eqb m Scraper.API_LIMIT_REACHED);
      cbn [Scraper.log_project_id Scraper.log_url Scraper.duration_ms Scraper.retries
           Scraper.using_default_styles Scraper.success Scraper.errors
           Scraper.assets_found Scraper.found_logo negb];
      (repeat (split; [reflexivity|])); (split; [discriminate|]); intros _;
      (repeat (split; [reflexivity|])); eexists; reflexivity.
Qed.

Lemma scrapeWebsite_log_entry_witness :
  exists run log,
    Scraper.scrapeWebsite 3 Fixtures.flaky_platform Fixtures.site Fixtures.project None
      = Some run
    /\ fetches (Scraper.trace run) = 3
    /\ Scraper.logs run = [log]
    /\ Scraper.retries log = 0.
Proof.
  eexists.
  assert (E : Scraper.scrapeWebsite 3 Fixtures.flaky_platform Fixtures.site
                Fixtures.project None = Some _) by (vm_compute; reflexivity).
  destruct (scrapeWebsite_log_entry Fixtures.flaky_platform Fixtures.site
              Fixtures.project None 3 _ E) as [log [Hl [_ [_ [_ [Hr _]]]]]].
  exists log. split; [exact E|]. split; [reflexivity|]. split; [exact Hl | exact Hr].
Defined.

(** X19. On success, the images of the profile are the images found on the
    page, in their order, followed by the fallback images of the positions
    that are left; when no image is found they are the fallback images of
    [DEFAULT_STYLE]. *)
Theorem scrapeWebsite_images_padded (P : Platform) (url projectId : jsstring)
    (brand : option jsstring) (fuel : nat) (run : Scraper.Run)
    (log : Scraper.ScrapingLog) :
  Scraper.scrapeWebsite fuel P url projectId brand = Some run ->
  Scraper.logs run = [log] ->
  Scraper.success log = true ->
  exists html,
    Scraper.makeScrapingBeeRequest fuel P url true 0
      = Some (Return html, Scraper.trace run)
    /\ let found := Scraper.scraped_images P url (parseFromString P html) in
       images (Scraper.profile run)
       = Some (found ++ skipn (length found) Scraper.FALLBACK_IMAGES)
       /\ (found = [] ->
           images (Scraper.profile run) = images Scraper.DEFAULT_STYLE).
Proof.
  intros H Hlogs Hs. destruct (scrapeWebsite_run P url projectId brand fuel run H)
    as [[html [logoUrl [Hreq [_ Hrun]]]]|[m [Hrun _]]]; cbv zeta in *.
  - exists html. split; [exact Hreq|]. rewrite Hrun. cbn [Scraper.profile images].
    rewrite finalImages_eq. split; [reflexivity|]. now intros ->.
  - rewrite Hrun in Hlogs. cbn [Scraper.logs] in Hlogs. injection Hlogs as <-.
    destruct (failure_log_flags P url projectId m) as [Hf _]. congruence.
Qed.

Lemma scrapeWebsite_images_padded_witness :
  exists run html,
    Scraper.scrapeWebsite 1 Fixtures.ftp_platform Fixtures.site Fixtures.project None
      = Some run
    /\ Scraper.makeScrapingBeeRequest 1 Fixtures.ftp_platform Fixtures.site true 0
       = Some (Return html, Scraper.trace run)
    /\ images (Scraper.profile run)
       = Some (js "ftp://files.example.com/hero.png"
                 :: skipn 1 Scraper.FALLBACK_IMAGES).
Proof.
  eexists.
  assert (E : Scraper.scrapeWebsite 1 Fixtures.ftp_platform Fixtures.site
                Fixtures.project None = Some _) by (vm_compute; reflexivity).
  destruct (scrapeWebsite_images_padded Fixtures.ftp_platform Fixtures.site
              Fixtures.project None 1 _ _ E eq_refl eq_refl) as [html [Hreq _]].
  exists html. split; [exact E|]. split; [exact Hreq|]. reflexivity.
Defined.

(** X20. When the first [.hero img] of the page has an absolute [http(s)]
    source that mentions neither [logo] nor the web container host, a
    successful [scrapeWebsite] returns that source, unchanged, as the first
    image of the profile. *)
Theorem scrapeWebsite_hero_image_first (P : Platform) (url projectId : jsstring)
    (brand : option jsstring) (fuel : nat) (html : jsstring)
    (evs : list Scraper.Event) (img : Element) (others : list Element)
    (u : jsstring) (run : Scraper.Run) (log : Scraper.ScrapingLog) :
  Scraper.makeScrapingBeeRequest fuel P url true 0 = Some (Return html, evs) ->
  querySelectorAll (parseFromString P html) (js ".hero img") = img :: others ->
  getAttribute img (js "src") = Some u ->
  isHttpUrl u = true ->
  includes u (js "logo") = false ->
  includes u webcontainer_host = false ->
  Scraper.scrapeWebsite fuel P url projectId brand = Some run ->
  Scraper.logs run = [log] ->
  Scraper.success log = true ->
  exists t, images (Scraper.profile run) = Some (u :: t).
Proof.
  intros Hreq Hq Hs Hh Hl Hw Hrun Hlogs Hsucc.
  rewrite scrapeWebsite_cases in Hrun.
  destruct (Scraper.scrape_try fuel P url projectId brand)
    as [[[[[result log'] rows]|m] evs']|] eqn:Et; [| |discriminate].
  - injection Hrun as <-. cbn [Scraper.profile].
    destruct (scrape_try_success P url projectId brand fuel result log' rows evs' Et)
      as [html' [logoUrl [Hreq' [_ Hres]]]].
    rewrite Hreq in Hreq'. injection Hreq' as <- <-.
    cbv zeta in Hres. destruct Hres as [-> _]. cbn [images].
    destruct (finalImages_hero P url (parseFromString P html) img others u
                Hq Hs Hh Hl Hw) as [t ->].
    now exists t.
  - injection Hrun as <-. cbn [Scraper.logs] in Hlogs. injection Hlogs as <-.
    destruct (failure_log_flags P url projectId m) as [Hf _]. congruence.
Qed.

Lemma scrapeWebsite_hero_image_first_witness :
  exists run,
    Scraper.scrapeWebsite 1 Fixtures.gallery_platform Fixtures.site
      Fixtures.project None = Some run
    /\ exists t,
         images (Scraper.profile run)
         = Some (js "https://example.com/photo/1.jpg?size=large" :: t).
Proof.
  eexists. split; [vm_compute; reflexivity|].
  eapply (scrapeWebsite_hero_image_first Fixtures.gallery_platform Fixtures.site
            Fixtures.project None 1 (js "<html>...</html>") [Scraper.EvFetch 0]
            (Fixtures.jpg "1") [] (js "https://example.com/photo/1.jpg?size=large"));
    vm_compute; reflexivity.
Defined.

(** The row logged for an error that is not the quota error. *)
Lemma failure_log_other (P : Platform) (url projectId message : jsstring) :
  message <> Scraper.API_LIMIT_REACHED ->
  Scraper.failure_log P url projectId message
  = {| Scraper.log_project_id := projectId;
       Scraper.log_url := url;
       Scraper.success := false;
       Scraper.assets_found := {|
         Scraper.found_colors := 0;
         Scraper.found_fonts := 0;
         Scraper.found_images := 0;
         Scraper.found_logo := false;
         Scraper.found_styles := false |};
       Scraper.errors := Some [message];
       Scraper.duration_ms := elapsed_ms P;
       Scraper.retries := 0;
       Scraper.using_default_styles := true |}.
Proof.
  intros Hm. unfold Scraper.failure_log. now rewrite (str_eqb_neq _ _ Hm).
Qed.

(** X21. When the proxy client or [findLogo] throws an error other than the
    quota error, [scrapeWebsite] returns [DEFAULT_STYLE], inserts no asset
    row and logs a failure with the message of the error as its only error
    and with all the counts of found assets at zero. *)
Theorem scrapeWebsite_failure_log (P : Platform) (url projectId : jsstring)
    (brand : option jsstring) (fuel : nat) (message : jsstring)
    (evs : list Scraper.Event) :
  Scraper.makeScrapingBeeRequest fuel P url true 0 = Some (Throw message, evs)
  \/ (exists html,
        Scraper.makeScrapingBeeRequest fuel P url true 0 = Some (Return html, evs)
        /\ Scraper.findLogo P (parseFromString P html) brand = Throw message) ->
  message <> Scraper.API_LIMIT_REACHED ->
  Scraper.scrapeWebsite fuel P url projectId brand
  = Some {| Scraper.profile := Scraper.DEFAULT_STYLE;
            Scraper.logs := [{|
              Scraper.log_project_id := projectId;
              Scraper.log_url := url;
              Scraper.success := false;
              Scraper.assets_found := {|
                Scraper.found_colors := 0;
                Scraper.found_fonts := 0;
                Scraper.found_images := 0;
                Scraper.found_logo := false;
                Scraper.found_styles := false |};
              Scraper.errors := Some [message];
              Scraper.duration_ms := elapsed_ms P;
              Scraper.retries := 0;
              Scraper.using_default_styles := true |}];
            Scraper.asset_rows := [];
            Scraper.trace := evs |}.
Proof.
  intros H Hm. rewrite scrapeWebsite_cases.
  rewrite <- (failure_log_other P url projectId message Hm).
  destruct H as [H|[html [H El]]].
  - now rewrite (scrape_try_request_throw P url projectId brand fuel message evs H).
  - unfold Scraper.scrape_try. now rewrite H, El.
Qed.

Lemma scrapeWebsite_failure_log_witness :
  Scraper.makeScrapingBeeRequest 1 Fixtures.keyless_platform Fixtures.site true 0
    = Some (Throw (js "ScrapingBee API key is not configured"), [])
  /\ js "ScrapingBee API key is not configured" <> Scraper.API_LIMIT_REACHED
  /\ option_map Scraper.asset_rows
       (Scraper.scrapeWebsite 1 Fixtures.keyless_platform Fixtures.site Fixtures.project None)
     = Some [].
Proof.
  assert (H1 : Scraper.makeScrapingBeeRequest 1 Fixtures.keyless_platform Fixtures.site true 0
               = Some (Throw (js "ScrapingBee API key is not configured"), []))
    by (vm_compute; reflexivity).
  assert (H2 : js "ScrapingBee API key is not configured" <> Scraper.API_LIMIT_REACHED)
    by discriminate.
  split; [exact H1|]. split; [exact H2|].
  now rewrite (scrapeWebsite_failure_log Fixtures.keyless_platform Fixtures.site
                 Fixtures.project None 1 _ [] (or_introl H1) H2).
Defined.

Lemma makeScrapingBeeRequest_refused (P : Platform) (url : jsstring) (withJs : bool)
    (retryCount fuel : nat) :
  (otruthy (SCRAPINGBEE_API_KEY P) = false ->
   Scraper.makeScrapingBeeRequest (S fuel) P url withJs retryCount
   = Some (Throw (js "ScrapingBee API key is not configured"), []))
  /\ (otruthy (SCRAPINGBEE_API_KEY P) = true ->
      Scraper.validateUrl P (trim url) = false ->
      Scraper.makeScrapingBeeRequest (S fuel) P url withJs retryCount
      = Some (Throw (js "Invalid URL format. Please use http:// or https://"), [])).
Proof.
  split.
  - intros Hk. cbn [Scraper.makeScrapingBeeRequest]. now rewrite Hk.
  - intros Hk Hv. cbn [Scraper.makeScrapingBeeRequest]. now rewrite Hk, Hv.
Qed.

(** X22. Without API key, or with a URL the [URL] constructor rejects,
    [makeScrapingBeeRequest] throws before any fetch, at every attempt, and
    [scrapeWebsite] returns [DEFAULT_STYLE] without a network request and
    logs the message: [ScrapingBee API key is not configured] or
    [Invalid URL format. Please use http:// or https://]. *)
Theorem scrapeWebsite_refused_before_fetch (P : Platform) (url projectId : jsstring)
    (brand : option jsstring) (fuel : nat) :
  otruthy (SCRAPINGBEE_API_KEY P) = false
  \/ Scraper.validateUrl P (trim url) = false ->
  exists message,
    (message = js "ScrapingBee API key is not configured"
     \/ message = js "Invalid URL format. Please use http:// or https://")
    /\ (forall withJs retryCount,
          Scraper.makeScrapingBeeRequest (S fuel) P url withJs retryCount
          = Some (Throw message, []))
    /\ exists run log,
         Scraper.scrapeWebsite (S fuel) P url projectId brand = Some run
         /\ Scraper.profile run = Scraper.DEFAULT_STYLE
         /\ Scraper.trace run = []
         /\ Scraper.asset_rows run = []
         /\ Scraper.logs run = [log]
         /\ Scraper.success log = false
         /\ Scraper.errors log = Some [message].
Proof.
  intros H.
  assert (Hreq : exists message,
            (message = js "ScrapingBee API key is not configured"
             \/ message = js "Invalid URL format. Please use http:// or https://")
            /\ forall withJs retryCount,
                 Scraper.makeScrapingBeeRequest (S fuel) P url withJs retryCount
                 = Some (Throw message, [])).
  { destruct (otruthy (SCRAPINGBEE_API_KEY P)) eqn:Hk.
    - destruct H as [H|H]; [discriminate|].
      eexists. split; [now right|]. intros withJs r.
      exact (proj2 (makeScrapingBeeRequest_refused P url withJs r fuel) Hk H).
    - eexists. split; [now left|]. intros withJs r.
      exact (proj1 (makeScrapingBeeRequest_refused P url withJs r fuel) Hk). }
  destruct Hreq as [message [Hm Hreq]]. exists message.
  split; [exact Hm|]. split; [exact Hreq|].
  assert (Hne : message <> Scraper.API_LIMIT_REACHED)
    by (destruct Hm as [->| ->]; discriminate).
  exists {| Scraper.profile := Scraper.DEFAULT_STYLE;
            Scraper.logs := [Scraper.failure_log P url projectId message];
            Scraper.asset_rows := [];
            Scraper.trace := [] |}.
  exists (Scraper.failure_log P url projectId message).
  split.
  { rewrite scrapeWebsite_cases.
    now rewrite (scrape_try_request_throw P url projectId brand (S fuel) message []
                   (Hreq true 0)). }
  cbn [Scraper.profile Scraper.trace Scraper.asset_rows Scraper.logs].
  rewrite (failure_log_other P url projectId message Hne).
  repeat split.
Qed.

Lemma scrapeWebsite_refused_before_fetch_witness :
  otruthy (SCRAPINGBEE_API_KEY Fixtures.keyless_platform) = false
  /\ exists message run log,
       Scraper.scrapeWebsite 1 Fixtures.keyless_platform Fixtures.site Fixtures.project None
         = Some run
       /\ Scraper.trace run = []
       /\ Scraper.logs run = [log]
       /\ Scraper.errors log = Some [message].
Proof.
  split; [reflexivity|].
  destruct (scrapeWebsite_refused_before_fetch Fixtures.keyless_platform Fixtures.site
              Fixtures.project None 0 (or_introl eq_refl))
    as [message [_ [_ [run [log [H1 [_ [H3 [_ [H5 [_ H7]]]]]]]]]]].
  exists message, run, log. repeat split; assumption.
Defined.

(** X23. A brand hint can fail a scrape whose page was fetched: when the first
    selector built from the brand does not parse, [findLogo] throws the error
    of [querySelector], and [scrapeWebsite] returns [DEFAULT_STYLE], inserts
    no asset row and logs a failure with that message. *)
Theorem scrapeWebsite_malformed_brand (P : Platform) (url projectId brand : jsstring)
    (fuel : nat) (html message : jsstring) (evs : list Scraper.Event) :
  Scraper.makeScrapingBeeRequest fuel P url true 0 = Some (Return html, evs) ->
  brand <> [] ->
  selector_error P
    (Scraper.quoted (js "img[src*=") (toLowerCase P brand ++ js "-logo") (js "]"))
  = Some message ->
  Scraper.findLogo P (parseFromString P html) (Some brand) = Throw message
  /\ exists run log,
       Scraper.scrapeWebsite fuel P url projectId (Some brand) = Some run
       /\ Scraper.profile run = Scraper.DEFAULT_STYLE
       /\ Scraper.asset_rows run = []
       /\ Scraper.trace run = evs
       /\ Scraper.logs run = [log]
       /\ Scraper.success log = false
       /\ (message <> Scraper.API_LIMIT_REACHED -> Scraper.errors log = Some [message]).
Proof.
  intros Hreq Hb He.
  assert (Hl : Scraper.findLogo P (parseFromString P html) (Some brand) = Throw message).
  { destruct brand as [|c b]; [congruence|].
    unfold Scraper.findLogo, Scraper.brandSelectors.
    now rewrite (first_brand_logo_src_error P (parseFromString P html) _ _ message He). }
  split; [exact Hl|].
  exists {| Scraper.profile := Scraper.DEFAULT_STYLE;
            Scraper.logs := [Scraper.failure_log P url projectId message];
            Scraper.asset_rows := [];
            Scraper.trace := evs |}.
  exists (Scraper.failure_log P url projectId message).
  split.
  { unfold Scraper.scrapeWebsite, Scraper.scrape_try. now rewrite Hreq, Hl. }
  cbn [Scraper.profile Scraper.asset_rows Scraper.trace Scraper.logs].
  split; [reflexivity|]. split; [reflexivity|]. split; [reflexivity|].
  split; [reflexivity|].
  split; [apply failure_log_flags|].
  intros Hm. unfold Scraper.failure_log. now rewrite (str_eqb_neq _ _ Hm).
Qed.

Lemma scrapeWebsite_malformed_brand_witness :
  Scraper.makeScrapingBeeRequest 1 Fixtures.strict_platform Fixtures.site true 0
    = Some (Return (js "<html>...</html>"), [Scraper.EvFetch 0])
  /\ js "a" ++ dq ++ js "b" <> []
  /\ Scraper.findLogo Fixtures.strict_platform Fixtures.brand_doc (Some (js "a" ++ dq ++ js "b"))
     = Throw (js "Failed to execute 'querySelector' on 'Document'")
  /\ option_map Scraper.profile
       (Scraper.scrapeWebsite 1 Fixtures.strict_platform Fixtures.site Fixtures.project
          (Some (js "a" ++ dq ++ js "b")))
     = Some Scraper.DEFAULT_STYLE.
Proof.
  assert (H1 : Scraper.makeScrapingBeeRequest 1 Fixtures.strict_platform Fixtures.site true 0
               = Some (Return (js "<html>...</html>"), [Scraper.EvFetch 0]))
    by (vm_compute; reflexivity).
  assert (H2 : js "a" ++ dq ++ js "b" <> []) by discriminate.
  split; [exact H1|]. split; [exact H2|].
  destruct (scrapeWebsite_malformed_brand Fixtures.strict_platform Fixtures.site
              Fixtures.project (js "a" ++ dq ++ js "b") 1 (js "<html>...</html>")
              (js "Failed to execute 'querySelector' on 'Document'")
              [Scraper.EvFetch 0] H1 H2 ltac:(vm_compute; reflexivity))
    as [Hl [run [log [Hr [Hp _]]]]].
  split; [exact Hl|].
  transitivity (option_map Scraper.profile (Some run)); [f_equal; exact Hr|].
  cbn [option_map]. now rewrite Hp.
Defined.

(** *** The generation client, continued *)

Section RetryLoop.

Variable E : AI.Provider.
Variable errorText : jsstring.
Variable retryable : jsstring -> bool.
Variable loop : nat -> nat -> option jsstring -> AI.State -> AI.State * AI.LoopEnd.

Hypothesis loop_O : forall retries lastError s,
  loop 0 retries lastError s = (s, AI.Failed lastError).

Hypothesis loop_S : forall f retries lastError s,
  loop (S f) retries lastError s =
  if AI.MAX_RETRIES <=? retries then (s, AI.Failed lastError)
  else
    match AI.request E errorText s with
    | (s1, Return generatedCode) => (s1, AI.Generated generatedCode)
    | (s1, Throw message) =>
        if negb (retryable message) then (s1, AI.Failed (Some message))
        else
          if retries + 1 <? AI.MAX_RETRIES
          then loop f (retries + 1) (Some message)
                 (AI.delay E (AI.RETRY_DELAY * Z.of_nat (retries + 1)) s1)
          else loop f (retries + 1) (Some message) s1
    end.

Lemma request_count (s : AI.State) :
  let s' := fst (AI.request E errorText s) in
  length (AI.issued s') <= length (AI.issued s) + 1
  /\ AI.timers s' <= AI.timers s + 1.
Proof.
  unfold AI.request, AI.waitForRateLimit. cbv zeta.
  destruct (negb (otruthy (AI.OPENAI_API_KEY E)));
    [|destruct (AI.answer E _) as [m|[[|c g]|]]];
    destruct (_ <? _)%Z; cbn [fst AI.issued AI.timers AI.delay];
    rewrite ?length_app; cbn [length]; lia.
Qed.

Lemma loop_count :
  forall fuel retries lastError s,
    let s' := fst (loop fuel retries lastError s) in
    length (AI.issued s') <= length (AI.issued s) + (AI.MAX_RETRIES - retries)
    /\ AI.timers s' <= AI.timers s + (2 * (AI.MAX_RETRIES - retries) - 1).
Proof.
  induction fuel as [|f IH]; intros retries lastError s; cbv zeta.
  - rewrite loop_O. cbn [fst]. lia.
  - rewrite loop_S.
    destruct (AI.MAX_RETRIES <=? retries) eqn:Hm; [cbn [fst]; lia|].
    apply Nat.leb_gt in Hm.
    pose proof (request_count s) as Hr. cbv zeta in Hr.
    destruct (AI.request E errorText s) as [s1 [g|m]]; cbn [fst] in Hr.
    + cbn [fst]. lia.
    + destruct (negb (retryable m)); [cbn [fst]; lia|].
      destruct (retries + 1 <? AI.MAX_RETRIES) eqn:Hn.
      * apply Nat.ltb_lt in Hn. specialize (IH (retries + 1) (Some m)
                      (AI.delay E (AI.RETRY_DELAY * Z.of_nat (retries + 1)) s1)).
        cbv zeta in IH. cbn [AI.delay AI.issued AI.timers] in IH. lia.
      * specialize (IH (retries + 1) (Some m) s1). cbv zeta in IH. lia.
Qed.

Lemma request_without_key (s : AI.State) :
  otruthy (AI.OPENAI_API_KEY E) = false ->
  AI.request E errorText s
  = (AI.waitForRateLimit E s, Throw (js "OpenAI API key is not configured")).
Proof. intros Hk. unfold AI.request. now rewrite Hk. Qed.

Lemma request_answer (s : AI.State) :
  otruthy (AI.OPENAI_API_KEY E) = true ->
  let s' := fst (AI.request E errorText s) in
  snd (AI.request E errorText s)
  = match AI.answer E (length (AI.issued s)) with
    | AI.Rejected message => Throw message
    | AI.Completed (Some (c :: generatedCode)) => Return (c :: generatedCode)
    | AI.Completed _ => Throw errorText
    end
  /\ length (AI.issued s') = length (AI.issued s) + 1.
Proof.
  intros Hk. unfold AI.request. rewrite Hk. cbn [negb]. cbv zeta.
  destruct (waitForRateLimit_spec E s) as [_ [_ H3]]. cbv zeta in H3.
  rewrite H3.
  destruct (AI.answer E (length (AI.issued s))) as [m|[[|c g]|]];
    cbn [fst snd AI.issued]; rewrite length_app; cbn [length];
    (split; [reflexivity | lia]).
Qed.

Lemma loop_without_key (f : nat) (lastError : option jsstring) (s : AI.State) :
  otruthy (AI.OPENAI_API_KEY E) = false ->
  retryable (js "OpenAI API key is not configured") = false ->
  loop (S f) 0 lastError s
  = (AI.waitForRateLimit E s, AI.Failed (Some (js "OpenAI API key is not configured"))).
Proof.
  intros Hk Hr. rewrite loop_S. change (AI.MAX_RETRIES <=? 0) with false. cbv iota.
  rewrite (request_without_key s Hk). now rewrite Hr.
Qed.

(** An error that is not tried again ends the loop after one request. *)
Lemma loop_stops (f retries : nat) (lastError : option jsstring) (s : AI.State)
    (m : jsstring) :
  otruthy (AI.OPENAI_API_KEY E) = true ->
  retries < AI.MAX_RETRIES ->
  match AI.answer E (length (AI.issued s)) with
  | AI.Rejected message => message = m
  | AI.Completed (Some (c :: generatedCode)) => False
  | AI.Completed _ => errorText = m
  end ->
  retryable m = false ->
  snd (loop (S f) retries lastError s) = AI.Failed (Some m)
  /\ length (AI.issued (fst (loop (S f) retries lastError s)))
     = length (AI.issued s) + 1.
Proof.
  intros Hk Hlt Ha Hr. rewrite loop_S.
  apply Nat.leb_gt in Hlt. rewrite Hlt.
  destruct (request_answer s Hk) as [Hs Hl]. cbv zeta in Hl.
  destruct (AI.request E errorText s) as [s1 r1]. cbn [fst snd] in Hs, Hl.
  assert (r1 = Throw m) as ->.
  { rewrite Hs. destruct (AI.answer E (length (AI.issued s))) as [m'|[[|c g]|]];
      try (now subst); contradiction. }
  rewrite Hr. cbn [negb fst snd]. split; [reflexivity | exact Hl].
Qed.

(** After [k] errors that are tried again, a completion ends the loop. *)
Lemma loop_success :
  forall k fuel retries lastError s c generatedCode,
    otruthy (AI.OPENAI_API_KEY E) = true ->
    retries + k < AI.MAX_RETRIES -> k < fuel ->
    (forall j, j < k ->
       exists m, AI.answer E (length (AI.issued s) + j) = AI.Rejected m
                 /\ retryable m = true) ->
    AI.answer E (length (AI.issued s) + k) = AI.Completed (Some (c :: generatedCode)) ->
    snd (loop fuel retries lastError s) = AI.Generated (c :: generatedCode)
    /\ length (AI.issued (fst (loop fuel retries lastError s)))
       = length (AI.issued s) + k + 1.
Proof.
  induction k as [|k IH]; intros fuel retries lastError s c g Hk Hlt Hf Hrej Hok;
    (destruct fuel as [|f]; [lia|]); rewrite loop_S;
    (assert (Hm : (AI.MAX_RETRIES <=? retries) = false) by (apply Nat.leb_gt; lia));
    rewrite Hm;
    destruct (request_answer s Hk) as [Hs Hl]; cbv zeta in Hl;
    destruct (AI.request E errorText s) as [s1 r1]; cbn [fst snd] in Hs, Hl.
  - rewrite Nat.add_0_r in Hok. rewrite Hok in Hs. subst r1.
    cbn [fst snd]. split; [reflexivity | lia].
  - destruct (Hrej 0 ltac:(lia)) as [m [Ha Hr]]. rewrite Nat.add_0_r in Ha.
    rewrite Ha in Hs. subst r1. rewrite Hr. cbn [negb].
    assert (Hn : (retries + 1 <? AI.MAX_RETRIES) = true) by (apply Nat.ltb_lt; lia).
    rewrite Hn.
    set (d := AI.delay E (AI.RETRY_DELAY * Z.of_nat (retries + 1)) s1).
    assert (Hd : length (AI.issued d) = length (AI.issued s) + 1) by exact Hl.
    destruct (IH f (retries + 1) (Some m) d c g Hk) as [H1 H2]; try lia.
    + intros j Hj. rewrite Hd. destruct (Hrej (S j) ltac:(lia)) as [m' Hm'].
      exists m'. now replace (length (AI.issued s) + 1 + j)
                   with (length (AI.issued s) + S j) by lia.
    + rewrite Hd. now replace (length (AI.issued s) + 1 + k)
                   with (length (AI.issued s) + S k) by lia.
    + split; [exact H1 | rewrite H2, Hd; lia].
Qed.

(** Errors that are tried again until the attempts are used up: the loop
    ends with the last of them. *)
Lemma loop_gives_up :
  forall k fuel retries lastError s,
    otruthy (AI.OPENAI_API_KEY E) = true ->
    retries + k = AI.MAX_RETRIES -> 0 < k -> k < fuel ->
    (forall j, j < k ->
       exists m, AI.answer E (length (AI.issued s) + j) = AI.Rejected m
                 /\ retryable m = true) ->
    exists m,
      AI.answer E (length (AI.issued s) + (k - 1)) = AI.Rejected m
      /\ snd (loop fuel retries lastError s) = AI.Failed (Some m)
      /\ length (AI.issued (fst (loop fuel retries lastError s)))
         = length (AI.issued s) + k.
Proof.
  induction k as [|k IH]; intros fuel retries lastError s Hk Hsum Hpos Hf Hrej; [lia|].
  destruct fuel as [|f]; [lia|]. rewrite loop_S.
  assert (Hm : (AI.MAX_RETRIES <=? retries) = false) by (apply Nat.leb_gt; lia).
  rewrite Hm.
  destruct (request_answer s Hk) as [Hs Hl]. cbv zeta in Hl.
  destruct (AI.request E errorText s) as [s1 r1]. cbn [fst snd] in Hs, Hl.
  destruct (Hrej 0 ltac:(lia)) as [m [Ha Hr]]. rewrite Nat.add_0_r in Ha.
  rewrite Ha in Hs. subst r1. rewrite Hr. cbn [negb].
  destruct k as [|k].
  - assert (Hn : (retries + 1 <? AI.MAX_RETRIES) = false) by (apply Nat.ltb_ge; lia).
    rewrite Hn. destruct f as [|f]; [lia|]. rewrite loop_S.
    assert (Hm' : (AI.MAX_RETRIES <=? retries + 1) = true) by (apply Nat.leb_le; lia).
    rewrite Hm'. cbn [fst snd]. exists m. cbn [Nat.sub]. rewrite Nat.add_0_r.
    split; [exact Ha | split; [reflexivity | exact Hl]].
  - assert (Hn : (retries + 1 <? AI.MAX_RETRIES) = true) by (apply Nat.ltb_lt; lia).
    rewrite Hn.
    set (d := AI.delay E (AI.RETRY_DELAY * Z.of_nat (retries + 1)) s1).
    assert (Hd : length (AI.issued d) = length (AI.issued s) + 1) by exact Hl.
    destruct (IH f (retries + 1) (Some m) d Hk) as [m' [H0 [H1 H2]]]; try lia.
    + intros j Hj. rewrite Hd. destruct (Hrej (S j) ltac:(lia)) as [m' Hm'].
      exists m'. now replace (length (AI.issued s) + 1 + j)
                   with (length (AI.issued s) + S j) by lia.
    + exists m'. rewrite Hd in H0, H2.
      replace (length (AI.issued s) + (S (S k) - 1))
        with (length (AI.issued s) + 1 + (S k - 1)) by lia.
      split; [exact H0 | split; [exact H1 | lia]].
Qed.

End RetryLoop.

Lemma generate_loop_O (E : AI.Provider) (retries : nat) (lastError : option jsstring)
    (s : AI.State) :
  AI.generate_loop 0 E retries lastError s = (s, AI.Failed lastError).
Proof. reflexivity. Qed.

Lemma generate_loop_S (E : AI.Provider) (f retries : nat)
    (lastError : option jsstring) (s : AI.State) :
  AI.generate_loop (S f) E retries lastError s =
  if AI.MAX_RETRIES <=? retries then (s, AI.Failed lastError)
  else
    match AI.request E (js "Failed to generate landing page content") s with
    | (s1, Return generatedCode) => (s1, AI.Generated generatedCode)
    | (s1, Throw message) =>
        if negb (AI.isRetryable message) then (s1, AI.Failed (Some message))
        else
          if retries + 1 <? AI.MAX_RETRIES
          then AI.generate_loop f E (retries + 1) (Some message)
                 (AI.delay E (AI.RETRY_DELAY * Z.of_nat (retries + 1)) s1)
          else AI.generate_loop f E (retries + 1) (Some message) s1
    end.
Proof. reflexivity. Qed.

Lemma update_loop_O (E : AI.Provider) (retries : nat) (lastError : option jsstring)
    (s : AI.State) :
  AI.update_loop 0 E retries lastError s = (s, AI.Failed lastError).
Proof. reflexivity. Qed.

Lemma update_loop_S (E : AI.Provider) (f retries : nat)
    (lastError : option jsstring) (s : AI.State) :
  AI.update_loop (S f) E retries lastError s =
  if AI.MAX_RETRIES <=? retries then (s, AI.Failed lastError)
  else
    match AI.request E (js "Failed to update landing page content") s with
    | (s1, Return generatedCode) => (s1, AI.Generated generatedCode)
    | (s1, Throw message) =>
        if negb (includes message (js "rate_limit")) then (s1, AI.Failed (Some message))
        else
          if retries + 1 <? AI.MAX_RETRIES
          then AI.update_loop f E (retries + 1) (Some message)
                 (AI.delay E (AI.RETRY_DELAY * Z.of_nat (retries + 1)) s1)
          else AI.update_loop f E (retries + 1) (Some message) s1
    end.
Proof. reflexivity. Qed.

(** X24. Without API key, [generateLandingPage] and [updateLandingPage] send
    no request and return an empty [html] with the error
    [OpenAI API key is not configured]; they do so after one pass through the
    rate limiter, which records the time as if a request had been sent. *)
Theorem generateLandingPage_without_key (E : AI.Provider) (prompt : jsstring)
    (style : option WebsiteStyle) (currentHtml : option jsstring) (s : AI.State) :
  otruthy (AI.OPENAI_API_KEY E) = false ->
  let failure := {| AI.html := [];
                    AI.error := Some (js "OpenAI API key is not configured") |} in
  AI.generateLandingPage E prompt style s = (AI.waitForRateLimit E s, failure)
  /\ AI.updateLandingPage E prompt style currentHtml s = (AI.waitForRateLimit E s, failure)
  /\ AI.issued (AI.waitForRateLimit E s) = AI.issued s
  /\ (AI.lastRequestTime s + 20000 <= AI.lastRequestTime (AI.waitForRateLimit E s))%Z.
Proof.
  intros Hk failure.
  pose proof (loop_without_key E _ AI.isRetryable (fun fuel => AI.generate_loop fuel E)
                (generate_loop_S E) AI.MAX_RETRIES None s Hk eq_refl) as Hg.
  pose proof (loop_without_key E _ (fun m => includes m (js "rate_limit"))
                (fun fuel => AI.update_loop fuel E)
                (update_loop_S E) AI.MAX_RETRIES None s Hk eq_refl) as Hu.
  cbv beta in Hg, Hu.
  destruct (waitForRateLimit_spec E s) as [H1 [H2 H3]]. cbv zeta in H1, H2, H3.
  unfold AI.generateLandingPage, AI.updateLandingPage. rewrite Hg, Hu.
  split; [reflexivity|]. split; [reflexivity|]. split; [exact H3|].
  rewrite H1. exact H2.
Qed.

Lemma generateLandingPage_without_key_witness :
  otruthy (AI.OPENAI_API_KEY Fixtures.keyless_provider) = false
  /\ snd (AI.generateLandingPage Fixtures.keyless_provider (js "a bakery") None
            (Fixtures.start 1700000000000))
     = {| AI.html := []; AI.error := Some (js "OpenAI API key is not configured") |}
  /\ AI.issued (fst (AI.generateLandingPage Fixtures.keyless_provider (js "a bakery") None
                       (Fixtures.start 1700000000000))) = [].
Proof.
  split; [reflexivity|].
  destruct (generateLandingPage_without_key Fixtures.keyless_provider (js "a bakery") None None
              (Fixtures.start 1700000000000) eq_refl) as [H [_ [H3 _]]].
  rewrite H. cbn [fst snd]. split; [reflexivity | exact H3].
Defined.

(** X25. One call of [generateLandingPage] or of [updateLandingPage] sends at
    most three requests to the provider and sets at most five timers. *)
Theorem generation_request_bound (E : AI.Provider) (prompt : jsstring)
    (style : option WebsiteStyle) (currentHtml : option jsstring) (s : AI.State) :
  let g := fst (AI.generateLandingPage E prompt style s) in
  let u := fst (AI.updateLandingPage E prompt style currentHtml s) in
  (length (AI.issued g) <= length (AI.issued s) + 3
   /\ AI.timers g <= AI.timers s + 5)
  /\ (length (AI.issued u) <= length (AI.issued s) + 3
      /\ AI.timers u <= AI.timers s + 5).
Proof.
  cbv zeta.
  pose proof (loop_count E _ AI.isRetryable (fun fuel => AI.generate_loop fuel E)
                (generate_loop_O E) (generate_loop_S E) (S AI.MAX_RETRIES) 0 None s) as Hg.
  pose proof (loop_count E _ (fun m => includes m (js "rate_limit"))
                (fun fuel => AI.update_loop fuel E)
                (update_loop_O E) (update_loop_S E) (S AI.MAX_RETRIES) 0 None s) as Hu.
  cbv beta zeta in Hg, Hu. change AI.MAX_RETRIES with 3 in Hg, Hu.
  unfold AI.generateLandingPage, AI.updateLandingPage.
  change AI.MAX_RETRIES with 3.
  destruct (AI.generate_loop 4 E 0 None s) as [g [c|e]];
    destruct (AI.update_loop 4 E 0 None s) as [u [c'|e']];
    cbn [fst] in *; lia.
Qed.

(** X26. When the provider rejects the first request of [generateLandingPage]
    with an error that mentions none of [rate_limit], [timeout], [network],
    [internal_error], the call ends after that one request, with an empty
    [html] and the message of the error (or [Failed to generate content] when
    the message is empty). *)
Theorem generateLandingPage_error_not_retried (E : AI.Provider) (prompt : jsstring)
    (style : option WebsiteStyle) (s : AI.State) (m : jsstring) :
  otruthy (AI.OPENAI_API_KEY E) = true ->
  AI.answer E (length (AI.issued s)) = AI.Rejected m ->
  AI.isRetryable m = false ->
  let r := AI.generateLandingPage E prompt style s in
  snd r = {| AI.html := [];
             AI.error := Some (or_else (Some m) (js "Failed to generate content")) |}
  /\ length (AI.issued (fst r)) = length (AI.issued s) + 1.
Proof.
  intros Hk Ha Hr.
  pose proof (loop_stops E _ AI.isRetryable (fun fuel => AI.generate_loop fuel E)
                (generate_loop_S E) AI.MAX_RETRIES 0 None s m Hk) as H.
  cbv beta in H. rewrite Ha in H.
  destruct (H ltac:(unfold AI.MAX_RETRIES; lia) eq_refl Hr) as [H1 H2].
  cbv zeta. unfold AI.generateLandingPage.
  destruct (AI.generate_loop (S AI.MAX_RETRIES) E 0 None s) as [s' e].
  cbn [fst snd] in *. subst e. split; [reflexivity | exact H2].
Qed.

Lemma generateLandingPage_error_not_retried_witness :
  otruthy (AI.OPENAI_API_KEY Fixtures.refusing_provider) = true
  /\ AI.isRetryable (js "401 invalid_api_key") = false
  /\ snd (AI.generateLandingPage Fixtures.refusing_provider (js "a bakery") None
            (Fixtures.start 1700000000000))
     = {| AI.html := []; AI.error := Some (js "401 invalid_api_key") |}.
Proof.
  split; [reflexivity|]. split; [reflexivity|].
  exact (proj1 (generateLandingPage_error_not_retried Fixtures.refusing_provider (js "a bakery")
                  None (Fixtures.start 1700000000000) (js "401 invalid_api_key")
                  eq_refl eq_refl eq_refl)).
Defined.

(** X27. A completion without content ([null] or the empty string) is a
    failure that is not tried again: after one request,
    [generateLandingPage] returns the error
    [Failed to generate landing page content] and [updateLandingPage] the
    error [Failed to update landing page content], both with an empty
    [html]. *)
Theorem generateLandingPage_empty_completion (E : AI.Provider) (prompt : jsstring)
    (style : option WebsiteStyle) (currentHtml : option jsstring) (s : AI.State) :
  otruthy (AI.OPENAI_API_KEY E) = true ->
  AI.answer E (length (AI.issued s)) = AI.Completed None
  \/ AI.answer E (length (AI.issued s)) = AI.Completed (Some []) ->
  let g := AI.generateLandingPage E prompt style s in
  let u := AI.updateLandingPage E prompt style currentHtml s in
  snd g = {| AI.html := [];
             AI.error := Some (js "Failed to generate landing page content") |}
  /\ length (AI.issued (fst g)) = length (AI.issued s) + 1
  /\ snd u = {| AI.html := [];
                AI.error := Some (js "Failed to update landing page content") |}
  /\ length (AI.issued (fst u)) = length (AI.issued s) + 1.
Proof.
  intros Hk Ha.
  pose proof (loop_stops E _ AI.isRetryable (fun fuel => AI.generate_loop fuel E)
                (generate_loop_S E) AI.MAX_RETRIES 0 None s
                (js "Failed to generate landing page content") Hk) as Hg.
  pose proof (loop_stops E _ (fun m => includes m (js "rate_limit"))
                (fun fuel => AI.update_loop fuel E)
                (update_loop_S E) AI.MAX_RETRIES 0 None s
                (js "Failed to update landing page content") Hk) as Hu.
  cbv beta in Hg, Hu.
  assert (Hlt : 0 < AI.MAX_RETRIES) by (unfold AI.MAX_RETRIES; lia).
  assert (Hg' := fun H => Hg Hlt H eq_refl). assert (Hu' := fun H => Hu Hlt H eq_refl).
  clear Hg Hu.
  cbv zeta. unfold AI.generateLandingPage, AI.updateLandingPage.
  destruct Ha as [Ha|Ha]; rewrite Ha in Hg', Hu';
    destruct (Hg' eq_refl) as [G1 G2]; destruct (Hu' eq_refl) as [U1 U2];
    destruct (AI.generate_loop (S AI.MAX_RETRIES) E 0 None s) as [g e];
    destruct (AI.update_loop (S AI.MAX_RETRIES) E 0 None s) as [u e'];
    cbn [fst snd] in *; subst e e'; repeat split; assumption.
Qed.

Lemma generateLandingPage_empty_completion_witness :
  otruthy (AI.OPENAI_API_KEY Fixtures.silent_provider) = true
  /\ AI.answer Fixtures.silent_provider 0 = AI.Completed None
  /\ snd (AI.generateLandingPage Fixtures.silent_provider (js "a bakery") None
            (Fixtures.start 1700000000000))
     = {| AI.html := [];
          AI.error := Some (js "Failed to generate landing page content") |}.
Proof.
  split; [reflexivity|]. split; [reflexivity|].
  exact (proj1 (generateLandingPage_empty_completion Fixtures.silent_provider (js "a bakery")
                  None None (Fixtures.start 1700000000000) eq_refl
                  (or_introl eq_refl))).
Defined.

(** X28. When the provider answers with at most two retryable errors and then
    with a page, [generateLandingPage] returns the page, cleaned by
    [cleanGeneratedCode] and without error, after one request more than there
    were errors. *)
Theorem generateLandingPage_success_after_retries (E : AI.Provider)
    (prompt : jsstring) (style : option WebsiteStyle) (s : AI.State)
    (k : nat) (generatedCode : jsstring) :
  otruthy (AI.OPENAI_API_KEY E) = true ->
  k <= 2 ->
  (forall j, j < k ->
     exists m, AI.answer E (length (AI.issued s) + j) = AI.Rejected m
               /\ AI.isRetryable m = true) ->
  AI.answer E (length (AI.issued s) + k) = AI.Completed (Some generatedCode) ->
  generatedCode <> [] ->
  let r := AI.generateLandingPage E prompt style s in
  snd r = {| AI.html := AI.cleanGeneratedCode generatedCode; AI.error := None |}
  /\ length (AI.issued (fst r)) = length (AI.issued s) + k + 1.
Proof.
  intros Hk Hle Hrej Hok Hne.
  destruct generatedCode as [|c g]; [congruence|].
  pose proof (loop_success E _ AI.isRetryable (fun fuel => AI.generate_loop fuel E)
                (generate_loop_S E) k (S AI.MAX_RETRIES) 0 None s c g Hk) as H.
  cbv beta in H.
  destruct (H ltac:(unfold AI.MAX_RETRIES; lia) ltac:(unfold AI.MAX_RETRIES; lia)
              Hrej Hok) as [H1 H2].
  cbv zeta. unfold AI.generateLandingPage.
  destruct (AI.generate_loop (S AI.MAX_RETRIES) E 0 None s) as [s' e].
  cbn [fst snd] in *. subst e. split; [reflexivity | exact H2].
Qed.

Lemma generateLandingPage_success_after_retries_witness :
  otruthy (AI.OPENAI_API_KEY Fixtures.recovering_provider) = true
  /\ AI.isRetryable (js "Request timeout") = true
  /\ AI.isRetryable (js "429 rate_limit_exceeded") = true
  /\ Fixtures.fenced_page <> []
  /\ snd (AI.generateLandingPage Fixtures.recovering_provider (js "a bakery") None
            (Fixtures.start 1700000000000))
     = {| AI.html := js "<p>x</p>"; AI.error := None |}
  /\ length (AI.issued (fst (AI.generateLandingPage Fixtures.recovering_provider (js "a bakery")
                               None (Fixtures.start 1700000000000)))) = 3.
Proof.
  split; [reflexivity|]. split; [reflexivity|]. split; [reflexivity|].
  split; [discriminate|].
  assert (Hrej : forall j, j < 2 ->
            exists m, AI.answer Fixtures.recovering_provider
                        (length (AI.issued (Fixtures.start 1700000000000)) + j)
                      = AI.Rejected m /\ AI.isRetryable m = true).
  { intros j Hj. destruct j as [|[|j]]; [| |lia]; eexists; split; reflexivity. }
  destruct (generateLandingPage_success_after_retries Fixtures.recovering_provider (js "a bakery")
              None (Fixtures.start 1700000000000) 2 Fixtures.fenced_page
              eq_refl (le_n 2) Hrej eq_refl ltac:(discriminate)) as [H1 H2].
  split; [rewrite H1; vm_compute; reflexivity | exact H2].
Defined.

(** X29. [updateLandingPage] tries again after rate-limit errors only: an error
    whose message does not contain [rate_limit] (a time-out, for one) ends
    the call after one request with that message; after at most two
    rate-limit errors a page is returned cleaned and without error; and after
    three rate-limit errors the call ends with an empty [html] and the third
    message. *)
Theorem updateLandingPage_retries_rate_limit_only (E : AI.Provider)
    (prompt : jsstring) (style : option WebsiteStyle) (currentHtml : option jsstring)
    (s : AI.State) :
  otruthy (AI.OPENAI_API_KEY E) = true ->
  (forall m,
     AI.answer E (length (AI.issued s)) = AI.Rejected m ->
     includes m (js "rate_limit") = false ->
     let r := AI.updateLandingPage E prompt style currentHtml s in
     snd r = {| AI.html := [];
                AI.error := Some (or_else (Some m) (js "Failed to update content")) |}
     /\ length (AI.issued (fst r)) = length (AI.issued s) + 1)
  /\ (forall k generatedCode,
        k <= 2 ->
        (forall j, j < k ->
           exists m, AI.answer E (length (AI.issued s) + j) = AI.Rejected m
                     /\ includes m (js "rate_limit") = true) ->
        AI.answer E (length (AI.issued s) + k) = AI.Completed (Some generatedCode) ->
        generatedCode <> [] ->
        let r := AI.updateLandingPage E prompt style currentHtml s in
        snd r = {| AI.html := AI.cleanGeneratedCode generatedCode; AI.error := None |}
        /\ length (AI.issued (fst r)) = length (AI.issued s) + k + 1)
  /\ ((forall j, j < 3 ->
         exists m, AI.answer E (length (AI.issued s) + j) = AI.Rejected m
                   /\ includes m (js "rate_limit") = true) ->
      let r := AI.updateLandingPage E prompt style currentHtml s in
      exists m, AI.answer E (length (AI.issued s) + 2) = AI.Rejected m
                /\ snd r = {| AI.html := []; AI.error := Some m |}
                /\ length (AI.issued (fst r)) = length (AI.issued s) + 3).
Proof.
  intros Hk. split; [|split].
  - intros m Ha Hr.
    pose proof (loop_stops E _ (fun m => includes m (js "rate_limit"))
                  (fun fuel => AI.update_loop fuel E)
                  (update_loop_S E) AI.MAX_RETRIES 0 None s m Hk) as H.
    cbv beta in H. rewrite Ha in H.
    destruct (H ltac:(unfold AI.MAX_RETRIES; lia) eq_refl Hr) as [H1 H2].
    cbv zeta. unfold AI.updateLandingPage.
    destruct (AI.update_loop (S AI.MAX_RETRIES) E 0 None s) as [s' e].
    cbn [fst snd] in *. subst e. split; [reflexivity | exact H2].
  - intros k code Hle Hrej Hok Hne.
    destruct code as [|c g]; [congruence|].
    pose proof (loop_success E _ (fun m => includes m (js "rate_limit"))
                  (fun fuel => AI.update_loop fuel E)
                  (update_loop_S E) k (S AI.MAX_RETRIES) 0 None s c g Hk) as H.
    cbv beta in H.
    destruct (H ltac:(unfold AI.MAX_RETRIES; lia) ltac:(unfold AI.MAX_RETRIES; lia)
                Hrej Hok) as [H1 H2].
    cbv zeta. unfold AI.updateLandingPage.
    destruct (AI.update_loop (S AI.MAX_RETRIES) E 0 None s) as [s' e].
    cbn [fst snd] in *. subst e. split; [reflexivity | exact H2].
  - intros Hrej.
    pose proof (loop_gives_up E _ (fun m => includes m (js "rate_limit"))
                  (fun fuel => AI.update_loop fuel E)
                  (update_loop_S E) 3 (S AI.MAX_RETRIES) 0 None s Hk) as H.
    cbv beta in H.
    destruct (H eq_refl ltac:(lia) ltac:(unfold AI.MAX_RETRIES; lia) Hrej)
      as [m [H0 [H1 H2]]].
    cbv zeta. unfold AI.updateLandingPage.
    destruct (AI.update_loop (S AI.MAX_RETRIES) E 0 None s) as [s' e].
    cbn [fst snd] in *. subst e. exists m.
    assert (Hm : m <> []).
    { destruct (Hrej 2 ltac:(lia)) as [m' [A B]]. cbn [Nat.sub] in H0.
      rewrite A in H0. injection H0 as <-. intros ->. discriminate B. }
    rewrite (or_else_nonempty m _ Hm).
    split; [exact H0 | split; [reflexivity | exact H2]].
Qed.

Lemma updateLandingPage_retries_rate_limit_only_witness :
  otruthy (AI.OPENAI_API_KEY Fixtures.recovering_provider) = true
  /\ includes (js "Request timeout") (js "rate_limit") = false
  /\ snd (AI.updateLandingPage Fixtures.recovering_provider (js "a shorter title") None None
            (Fixtures.start 1700000000000))
     = {| AI.html := []; AI.error := Some (js "Request timeout") |}.
Proof.
  split; [reflexivity|]. split; [reflexivity|].
  exact (proj1 (proj1 (updateLandingPage_retries_rate_limit_only Fixtures.recovering_provider
                         (js "a shorter title") None None
                         (Fixtures.start 1700000000000) eq_refl)
                  (js "Request timeout") eq_refl eq_refl)).
Defined.

(** *** The fallback template *)

Lemma includes_concat (l : list jsstring) (y x : jsstring) :
  In y l -> includes y x = true -> includes (concat l) x = true.
Proof.
  induction l as [|z l IH]; [intros []|]. intros [Hy|Hy] Hx; cbn [concat].
  - subst z. now apply includes_app_l.
  - apply includes_app_r. now apply IH.
Qed.

Lemma mapi_In {A B} (f : nat -> A -> B) (l : list A) (x : A) :
  In x l -> exists i, In (f i x) (AI.mapi f l).
Proof.
  unfold AI.mapi. generalize 0 as start.
  induction l as [|a l IH]; intros start; [intros []|].
  intros [Hx|Hx]; cbn [length seq combine map].
  - subst a. exists start. now left.
  - destruct (IH (S start) Hx) as [i Hi]. exists i. now right.
Qed.

Ltac includes_walk H :=
  repeat first
    [ exact H
    | apply includes_app_l; exact H
    | apply includes_app_r ].

Lemma feature_card_includes (style : option WebsiteStyle) (i : nat) (img : jsstring) :
  includes (AI.feature_card style i img) img = true.
Proof.
  unfold AI.feature_card. pose proof (includes_refl img) as H. includes_walk H.
Qed.

Lemma logo_tag_includes (c : cu) (l : jsstring) :
  includes (AI.logo_tag (Some (c :: l))) (c :: l) = true.
Proof.
  unfold AI.logo_tag. pose proof (includes_refl (c :: l)) as H. includes_walk H.
Qed.

(** X30. The page of [getFallbackTemplate] contains each of the first three
    images of the style, its logo and its meta description. *)
Theorem getFallbackTemplate_embeds_assets (w : WebsiteStyle) :
  (forall img, In img (firstn 3 (entries (images w))) ->
     includes (AI.getFallbackTemplate (Some w)) img = true)
  /\ (forall l, logo w = Some l ->
        includes (AI.getFallbackTemplate (Some w)) l = true)
  /\ (forall d, metaDescription w = Some d ->
        includes (AI.getFallbackTemplate (Some w)) d = true).
Proof.
  split; [|split].
  - intros img Hi.
    assert (H : includes (concat (AI.mapi (AI.feature_card (Some w))
                                    (slice0 3 (entries (images w))))) img = true).
    { destruct (mapi_In (AI.feature_card (Some w)) _ img Hi) as [i Hin].
      exact (includes_concat _ _ _ Hin (feature_card_includes _ _ _)). }
    unfold AI.getFallbackTemplate. cbv zeta.
    change (match AI.field (Some w) images with Some l => l | None => [] end)
      with (entries (images w)).
    includes_walk H.
  - intros l Hl. destruct l as [|c l]; [now destruct (AI.getFallbackTemplate _)|].
    assert (H : includes (AI.logo_tag (AI.field (Some w) logo)) (c :: l) = true).
    { cbn [AI.field]. rewrite Hl. apply logo_tag_includes. }
    unfold AI.getFallbackTemplate. cbv zeta. includes_walk H.
  - intros d Hd. destruct d as [|c d]; [now destruct (AI.getFallbackTemplate _)|].
    assert (H : includes (or_else (AI.field (Some w) metaDescription)
                            (js "Transform your business with our powerful solution"))
                  (c :: d) = true).
    { cbn [AI.field]. rewrite Hd. apply includes_refl. }
    unfold AI.getFallbackTemplate. cbv zeta. includes_walk H.
Qed.
